(** * cpa-logger: log classification, parsing and per-file processing

    A shallow embedding of [internal/parser/parser.go], [internal/config/config.go]
    and the collector's [processFile] / [tryDeleteFile], with the properties the
    specification states about them.

    Go strings are byte sequences: they are modelled by [string] (a list of
    8-bit [ascii]).  Go [int] is the 64-bit signed integer of the linux/amd64
    target, modelled in [Z] with its range written out where the code can
    reach it. *)

From stdpp Require Import gmap strings list.
From Stdlib Require Import Ascii ZArith Lia.

(* ===================================================================== *)
(** * Byte strings: the parts of Go's [strings] and [strconv] the code uses *)
(* ===================================================================== *)

Module GoStr.

Definition byte_of (n : nat) : ascii := Ascii.ascii_of_nat n.
Definition code (c : ascii) : nat := Ascii.nat_of_ascii c.

(** One-character strings that cannot be written inside a literal. *)
Definition nl : string := String (byte_of 10) "".
Definition dq : string := String (byte_of 34) "".
(** [quoted s] is [s] between two double quotes. *)
Definition quoted (s : string) : string := dq +:+ s +:+ dq.

Fixpoint take (n : nat) (s : string) : string :=
  match n, s with
  | S n', String c s' => String c (take n' s')
  | _, _ => ""
  end.

Fixpoint drop (n : nat) (s : string) : string :=
  match n, s with
  | S n', String _ s' => drop n' s'
  | _, _ => s
  end.

(** [s[lo:hi]] for [lo <= hi <= len(s)]. *)
Definition slice (lo hi : nat) (s : string) : string :=
  take (hi - lo) (drop lo s).

(** [strings.HasPrefix(s, p)]. *)
Definition HasPrefix (s p : string) : bool := String.prefix p s.

(** [strings.TrimPrefix(s, p)]. *)
Definition TrimPrefix (s p : string) : string :=
  if HasPrefix s p then drop (String.length p) s else s.

(** [strings.Index(s, sub)]: offset of the first occurrence, or -1. *)
Fixpoint Index_from (i : Z) (s sub : string) : Z :=
  if String.prefix sub s then i
  else match s with
       | "" => (-1)%Z
       | String _ s' => Index_from (i + 1)%Z s' sub
       end.
Definition Index (s sub : string) : Z := Index_from 0%Z s sub.

(** [strings.Split(s, sep)] for a one-byte separator [sep]. *)
Fixpoint Split_byte (s : string) (sep : ascii) : list string :=
  match s with
  | "" => [""]
  | String c s' =>
      if Ascii.eqb c sep then "" :: Split_byte s' sep
      else match Split_byte s' sep with
           | [] => [String c ""]
           | w :: ws => String c w :: ws
           end
  end.
(** [strings.Split(s, "\n")]. *)
Definition SplitLines (s : string) : list string := Split_byte s (byte_of 10).

(** [strings.Join(elems, sep)]. *)
Fixpoint Join (elems : list string) (sep : string) : string :=
  match elems with
  | [] => ""
  | [e] => e
  | e :: rest => e +:+ sep +:+ Join rest sep
  end.

(** The UTF-8 encodings of the code points [unicode.IsSpace] accepts:
    the six ASCII ones, U+0085, U+00A0, U+1680, U+2000..U+200A, U+2028,
    U+2029, U+202F, U+205F and U+3000. *)
Definition space_encodings : list (list nat) :=
  [ [9]; [10]; [11]; [12]; [13]; [32];
    [194; 133]; [194; 160]; [225; 154; 128];
    [226; 128; 128]; [226; 128; 129]; [226; 128; 130]; [226; 128; 131];
    [226; 128; 132]; [226; 128; 133]; [226; 128; 134]; [226; 128; 135];
    [226; 128; 136]; [226; 128; 137]; [226; 128; 138];
    [226; 128; 168]; [226; 128; 169]; [226; 128; 175];
    [226; 129; 159]; [227; 128; 128] ].

Fixpoint strip_bytes (bs : list nat) (s : string) : option string :=
  match bs, s with
  | [], _ => Some s
  | b :: bs', String c s' => if Nat.eqb (code c) b then strip_bytes bs' s' else None
  | _ :: _, "" => None
  end.

(** The rest of [s] after one leading white-space rune, if [s] starts with one. *)
Fixpoint strip_space (encs : list (list nat)) (s : string) : option string :=
  match encs with
  | [] => None
  | e :: encs' =>
      match strip_bytes e s with
      | Some s' => Some s'
      | None => strip_space encs' s
      end
  end.

Fixpoint TrimLeft_fuel (fuel : nat) (encs : list (list nat)) (s : string) : string :=
  match fuel with
  | O => s
  | S f => match strip_space encs s with
           | Some s' => TrimLeft_fuel f encs s'
           | None => s
           end
  end.

(** [strings.TrimLeftFunc(s, unicode.IsSpace)]. *)
Definition TrimLeftSpace (s : string) : string :=
  TrimLeft_fuel (String.length s) space_encodings s.

(** [strings.TrimRightFunc(s, unicode.IsSpace)]: the last rune is found by
    walking back over continuation bytes, so on the reversed bytes a
    trailing white-space rune shows as its reversed encoding. *)
Definition TrimRightSpace (s : string) : string :=
  String.rev (TrimLeft_fuel (String.length s) (List.map (@List.rev nat) space_encodings)
                            (String.rev s)).

(** [strings.TrimSpace(s)]. *)
Definition TrimSpace (s : string) : string := TrimRightSpace (TrimLeftSpace s).

Definition is_digit (c : ascii) : bool :=
  (Nat.leb 48 (code c) && Nat.leb (code c) 57)%bool.

Fixpoint all_digits (s : string) : bool :=
  match s with
  | "" => true
  | String c s' => (is_digit c && all_digits s')%bool
  end.

Fixpoint digits_value (acc : Z) (s : string) : Z :=
  match s with
  | "" => acc
  | String c s' => digits_value (10 * acc + Z.of_nat (code c - 48))%Z s'
  end.

Definition MaxInt64 : Z := (2 ^ 63 - 1)%Z.
Definition MinInt64 : Z := (- 2 ^ 63)%Z.

(** The value [strconv.Atoi(s)] returns (its error is discarded at every
    call site): [0] on a syntax error, the nearest bound on a range error. *)
Definition Atoi (s : string) : Z :=
  let '(neg, body) :=
    match s with
    | String c s' =>
        if Ascii.eqb c "-" then (true, s')
        else if Ascii.eqb c "+" then (false, s') else (false, s)
    | "" => (false, s)
    end in
  match body with
  | "" => 0%Z
  | _ =>
      if all_digits body then
        let v := digits_value 0%Z body in
        if neg then Z.max MinInt64 (- v)%Z else Z.min MaxInt64 v
      else 0%Z
  end.

End GoStr.

(* ===================================================================== *)
(** * [path/filepath.Base] on a Unix target (separator [/]) *)
(* ===================================================================== *)

Module Filepath.

Definition is_sep (c : ascii) : bool := Ascii.eqb c "/".

Fixpoint has_sep (s : string) : bool :=
  match s with
  | "" => false
  | String c s' => (is_sep c || has_sep s')%bool
  end.

(** The bytes of [s] after its last separator ([s] itself if it has none). *)
Fixpoint last_element (s : string) : string :=
  match s with
  | "" => ""
  | String c s' => if has_sep s then last_element s' else s
  end.

(** [s] without its trailing separators. *)
Fixpoint strip_trailing_seps (s : string) : string :=
  match s with
  | "" => ""
  | String c s' =>
      match strip_trailing_seps s' with
      | "" => if is_sep c then "" else String c ""
      | r => String c r
      end
  end.

(** [filepath.Base(path)]: ["."] for the empty path, ["/"] for a path of
    separators only, else the last element. *)
Definition Base (path : string) : string :=
  match path with
  | "" => "."
  | _ =>
      match last_element (strip_trailing_seps path) with
      | "" => "/"
      | b => b
      end
  end.

End Filepath.

(* ===================================================================== *)
(** * Go's [regexp]: a backtracking matcher with leftmost-first preference *)
(* ===================================================================== *)

(** Go's regexp package returns, among the matches that start leftmost, the
    one a backtracking search meets first (greedy operators prefer more,
    lazy ones less, alternation prefers its left branch).  The matcher below
    works on bytes; the patterns of this program name only ASCII bytes, and
    [.] and negated classes take any other byte, so byte offsets agree with
    the package's. *)
Module Regexp.

Inductive re : Type :=
| Empty                                (* the empty pattern *)
| Lit (c : ascii)                      (* one literal byte *)
| Class (p : ascii -> bool)            (* one byte of a class *)
| Cat (r1 r2 : re)
| Alt (r1 r2 : re)
| Star (greedy : bool) (r : re)        (* r* and r*? *)
| Cap (n : nat) (r : re)               (* the n-th parenthesised group *)
| BeginText                            (* ^ without (?m) *)
| EndText                              (* $ without (?m) *)
| BeginLine                            (* ^ under (?m) *)
| EndLine.                             (* $ under (?m) *)

(** Where the matcher stands: byte offset, the byte before it, the text
    still ahead, and the groups closed so far (latest first). *)
Record mstate : Type := MState {
  ms_pos : nat;
  ms_prev : option ascii;
  ms_rest : string;
  ms_caps : list (nat * (nat * nat))
}.

Definition step_byte (st : mstate) : option (ascii * mstate) :=
  match ms_rest st with
  | "" => None
  | String c s' => Some (c, MState (S (ms_pos st)) (Some c) s' (ms_caps st))
  end.

Definition is_nl (c : ascii) : bool := Ascii.eqb c (GoStr.byte_of 10).

Definition at_line_start (st : mstate) : bool :=
  match ms_prev st with
  | None => true
  | Some c => is_nl c
  end.

Definition at_line_end (st : mstate) : bool :=
  match ms_rest st with
  | "" => true
  | String c _ => is_nl c
  end.

Definition at_text_end (st : mstate) : bool :=
  match ms_rest st with
  | "" => true
  | String _ _ => false
  end.

(** [run r st k]: the first way, in preference order, of matching [r] at
    [st] that the continuation [k] accepts. *)
Fixpoint run (r : re) (st : mstate) (k : mstate -> option mstate) {struct r}
  : option mstate :=
  match r with
  | Empty => k st
  | Lit c =>
      match step_byte st with
      | Some (a, st') => if Ascii.eqb a c then k st' else None
      | None => None
      end
  | Class p =>
      match step_byte st with
      | Some (a, st') => if p a then k st' else None
      | None => None
      end
  | Cat r1 r2 => run r1 st (fun st' => run r2 st' k)
  | Alt r1 r2 =>
      match run r1 st k with
      | Some m => Some m
      | None => run r2 st k
      end
  | Star greedy r1 =>
      (fix iterate (fuel : nat) (st : mstate) {struct fuel} : option mstate :=
         match fuel with
         | O => k st
         | S fuel' =>
             let more (_ : unit) :=
               run r1 st (fun st' =>
                 if Nat.eqb (ms_pos st') (ms_pos st) then None
                 else iterate fuel' st') in
             if greedy then
               match more tt with
               | Some m => Some m
               | None => k st
               end
             else
               match k st with
               | Some m => Some m
               | None => more tt
               end
         end) (S (String.length (ms_rest st))) st
  | Cap n r1 =>
      let start := ms_pos st in
      run r1 st (fun st' =>
        k (MState (ms_pos st') (ms_prev st') (ms_rest st')
                  ((n, (start, ms_pos st')) :: ms_caps st')))
  | BeginText => if Nat.eqb (ms_pos st) 0 then k st else None
  | EndText => if at_text_end st then k st else None
  | BeginLine => if at_line_start st then k st else None
  | EndLine => if at_line_end st then k st else None
  end.

(** The number of parenthesised groups ([Regexp.NumSubexp]). *)
Fixpoint num_subexp (r : re) : nat :=
  match r with
  | Cat r1 r2 | Alt r1 r2 => Nat.max (num_subexp r1) (num_subexp r2)
  | Star _ r1 => num_subexp r1
  | Cap n r1 => Nat.max n (num_subexp r1)
  | _ => 0
  end.

(** The leftmost match at or after [st]; group 0 is the whole match. *)
Fixpoint search (fuel : nat) (r : re) (st : mstate) : option mstate :=
  match run (Cap 0 r) st Some with
  | Some m => Some m
  | None =>
      match fuel, step_byte st with
      | S fuel', Some (_, st') => search fuel' r st'
      | _, _ => None
      end
  end.

Definition start_state (s : string) : mstate := MState 0 None s [].

Definition exec (r : re) (s : string) : option mstate :=
  search (String.length s) r (start_state s).

(** The span of group [n] in a finished match (the latest closing wins). *)
Fixpoint cap_span (n : nat) (caps : list (nat * (nat * nat))) : option (nat * nat) :=
  match caps with
  | [] => None
  | (m, span) :: rest => if Nat.eqb m n then Some span else cap_span n rest
  end.

Definition cap_text (s : string) (caps : list (nat * (nat * nat))) (n : nat) : string :=
  match cap_span n caps with
  | Some (lo, hi) => GoStr.slice lo hi s
  | None => ""
  end.

(** [re.MatchString(s)]. *)
Definition MatchString (r : re) (s : string) : bool :=
  match exec r s with Some _ => true | None => false end.

(** [re.FindStringSubmatch(s)]: [nil] without a match, else the text of
    the match and of each group (empty for a group that took no part). *)
Definition FindStringSubmatch (r : re) (s : string) : list string :=
  match exec r s with
  | None => []
  | Some m => List.map (cap_text s (ms_caps m)) (seq 0 (S (num_subexp r)))
  end.

(** [re.FindString(s)]. *)
Definition FindString (r : re) (s : string) : string :=
  match exec r s with
  | None => ""
  | Some m => cap_text s (ms_caps m) 0
  end.

(** The index pairs of one match, [-1] for a group that took no part. *)
Definition cap_indices (caps : list (nat * (nat * nat))) (n : nat) : list Z :=
  match cap_span n caps with
  | Some (lo, hi) => [Z.of_nat lo; Z.of_nat hi]
  | None => [(-1)%Z; (-1)%Z]
  end.

Definition match_indices (r : re) (m : mstate) : list Z :=
  List.concat (List.map (cap_indices (ms_caps m)) (seq 0 (S (num_subexp r)))).

(** The loop of [re.FindAllStringSubmatchIndex(s, -1)]: search from the
    end of the previous match; an empty match right after a match is
    skipped, and an empty match moves the search one byte on. *)
Fixpoint all_matches (fuel : nat) (r : re) (st : mstate) (prev_end : option nat)
  : list (list Z) :=
  match fuel with
  | O => []
  | S fuel' =>
      match search (String.length (ms_rest st)) r st with
      | None => []
      | Some m =>
          if Nat.eqb (ms_pos m) (ms_pos st) then
            (* an empty match at the search position *)
            let found :=
              match prev_end with
              | Some e => if Nat.eqb e (ms_pos m) then [] else [match_indices r m]
              | None => [match_indices r m]
              end in
            match step_byte st with
            | Some (_, st') => found ++ all_matches fuel' r st' (Some (ms_pos m))
            | None => found
            end
          else
            match_indices r m
              :: all_matches fuel' r (MState (ms_pos m) (ms_prev m) (ms_rest m) [])
                             (Some (ms_pos m))
      end
  end.

(** [re.FindAllStringSubmatchIndex(s, -1)]. *)
Definition FindAllStringSubmatchIndex (r : re) (s : string) : list (list Z) :=
  all_matches (S (S (String.length s))) r (start_state s) None.

(** ** Pattern syntax *)

Definition is_word (c : ascii) : bool :=
  let n := GoStr.code c in
  ((Nat.leb 48 n && Nat.leb n 57) || (Nat.leb 65 n && Nat.leb n 90)
   || (Nat.leb 97 n && Nat.leb n 122) || Nat.eqb n 95)%bool.

(** [\s] is [\t\n\f\r ] (no vertical tab). *)
Definition is_space (c : ascii) : bool :=
  let n := GoStr.code c in
  (Nat.eqb n 9 || Nat.eqb n 10 || Nat.eqb n 12 || Nat.eqb n 13 || Nat.eqb n 32)%bool.

Definition in_range (lo hi : ascii) (c : ascii) : bool :=
  (Nat.leb (GoStr.code lo) (GoStr.code c) && Nat.leb (GoStr.code c) (GoStr.code hi))%bool.

Definition digit : re := Class GoStr.is_digit.              (* \d *)
Definition word : re := Class is_word.                      (* \w *)
Definition space : re := Class is_space.                    (* \s *)
Definition any : re := Class (fun c => negb (is_nl c)).     (* .  *)
Definition none_of (c : ascii) : re :=                      (* [^c] *)
  Class (fun a => negb (Ascii.eqb a c)).

Definition plus (r : re) : re := Cat r (Star true r).       (* r+  *)
Definition plus_lazy (r : re) : re := Cat r (Star false r). (* r+? *)
Definition star (r : re) : re := Star true r.               (* r*  *)

Fixpoint rep (n : nat) (r : re) : re :=                     (* r{n} *)
  match n with
  | O => Empty
  | S O => r
  | S n' => Cat r (rep n' r)
  end.

Fixpoint lits (s : string) : re :=                          (* literal text *)
  match s with
  | "" => Empty
  | String c "" => Lit c
  | String c s' => Cat (Lit c) (lits s')
  end.

Fixpoint cats (rs : list re) : re :=
  match rs with
  | [] => Empty
  | [r] => r
  | r :: rs' => Cat r (cats rs')
  end.

End Regexp.

(* ===================================================================== *)
(** * Go's [encoding/json] decoder, as far as the parser relies on it *)
(* ===================================================================== *)

Module Json.

(** A decoded [interface{}].  A number keeps its literal: the program
    never looks at the [float64] it becomes.  An object keeps its members
    in source order; a Go map holds the last value for a repeated key
    (see [lookup]). *)
#[local] Unset Elimination Schemes.
Inductive value : Type :=
| Null
| Bool (b : bool)
| Number (literal : string)
| Str (s : string)
| Array (elems : list value)
| Object (members : list (string * value)).
#[local] Set Elimination Schemes.

Definition object : Type := list (string * value).

(** [m[key]] on the map an object decodes to. *)
Fixpoint lookup (key : string) (members : object) : option value :=
  match members with
  | [] => None
  | (k, v) :: rest =>
      match lookup key rest with
      | Some v' => Some v'
      | None => if String.eqb k key then Some v else None
      end
  end.

Definition code (c : ascii) : N := Ascii.N_of_ascii c.
Definition chr (n : N) : ascii := Ascii.ascii_of_N n.

Local Open Scope N_scope.

Definition is_ws (c : ascii) : bool :=
  let n := code c in
  (N.eqb n 32 || N.eqb n 9 || N.eqb n 13 || N.eqb n 10)%bool.

Fixpoint skip_ws (s : string) : string :=
  match s with
  | String c s' => if is_ws c then skip_ws s' else s
  | "" => s
  end.

(** ** Strings *)

Definition hex_val (c : ascii) : option N :=
  let n := code c in
  if (N.leb 48 n && N.leb n 57)%bool then Some (n - 48)
  else if (N.leb 97 n && N.leb n 102)%bool then Some (n - 87)
  else if (N.leb 65 n && N.leb n 70)%bool then Some (n - 55)
  else None.

(** [getu4]: the code unit of a leading [\uXXXX], and the text after it. *)
Definition getu4 (s : string) : option (N * string) :=
  match s with
  | String b (String u (String h1 (String h2 (String h3 (String h4 rest))))) =>
      if (Ascii.eqb b "\" && Ascii.eqb u "u")%bool then
        match hex_val h1, hex_val h2, hex_val h3, hex_val h4 with
        | Some a, Some b', Some c, Some d =>
            Some ((a * 4096 + b' * 256 + c * 16 + d), rest)
        | _, _, _, _ => None
        end
      else None
  | _ => None
  end.

Definition replacement : string := String (chr 239) (String (chr 191) (String (chr 189) "")).

(** [utf8.EncodeRune]. *)
Definition encode_rune (r : N) : string :=
  if N.ltb r 128 then String (chr r) ""
  else if N.ltb r 2048 then
    String (chr (192 + r / 64)) (String (chr (128 + r mod 64)) "")
  else if (N.leb 55296 r && N.leb r 57343)%bool then replacement
  else if N.ltb r 65536 then
    String (chr (224 + r / 4096))
      (String (chr (128 + (r / 64) mod 64)) (String (chr (128 + r mod 64)) ""))
  else if N.ltb r 1114112 then
    String (chr (240 + r / 262144))
      (String (chr (128 + (r / 4096) mod 64))
         (String (chr (128 + (r / 64) mod 64)) (String (chr (128 + r mod 64)) "")))
  else replacement.

Definition between (lo hi : N) (c : ascii) : bool :=
  (N.leb lo (code c) && N.leb (code c) hi)%bool.

(** The byte length of the well-formed UTF-8 sequence that starts with
    [c0] followed by [s], or [0] when there is none ([utf8.DecodeRune]
    then gives the replacement rune and width 1). *)
Definition utf8_width (c0 : ascii) (s : string) : nat :=
  let n := code c0 in
  let second_range : option (nat * N * N) :=
    if between 194 223 c0 then Some (2%nat, 128, 191)
    else if N.eqb n 224 then Some (3%nat, 160, 191)
    else if between 225 236 c0 then Some (3%nat, 128, 191)
    else if N.eqb n 237 then Some (3%nat, 128, 159)
    else if between 238 239 c0 then Some (3%nat, 128, 191)
    else if N.eqb n 240 then Some (4%nat, 144, 191)
    else if between 241 243 c0 then Some (4%nat, 128, 191)
    else if N.eqb n 244 then Some (4%nat, 128, 143)
    else None in
  match second_range, s with
  | Some (2%nat, lo, hi), String c1 _ => if between lo hi c1 then 2%nat else 0%nat
  | Some (3%nat, lo, hi), String c1 (String c2 _) =>
      if (between lo hi c1 && between 128 191 c2)%bool then 3%nat else 0%nat
  | Some (4%nat, lo, hi), String c1 (String c2 (String c3 _)) =>
      if (between lo hi c1 && between 128 191 c2 && between 128 191 c3)%bool
      then 4%nat else 0%nat
  | _, _ => 0
  end.

(** The body of a string literal after its opening quote: the decoded
    text and what follows the closing quote.  Escapes are replaced,
    ill-formed UTF-8 becomes U+FFFD, a surrogate pair one rune, a lone
    surrogate U+FFFD; a raw control byte or a bad escape is an error. *)
Fixpoint parse_string_body (fuel : nat) (s : string) : option (string * string) :=
  match fuel with
  | O => None
  | S fuel' =>
      match s with
      | "" => None
      | String c s' =>
          let n := code c in
          if N.eqb n 34 then Some ("", s')
          else if N.ltb n 32 then None
          else if N.eqb n 92 then
            match s' with
            | "" => None
            | String e s'' =>
                let simple (b : N) :=
                  match parse_string_body fuel' s'' with
                  | Some (t, rest) => Some (String (chr b) t, rest)
                  | None => None
                  end in
                let m := code e in
                if N.eqb m 34 then simple 34
                else if N.eqb m 92 then simple 92
                else if N.eqb m 47 then simple 47
                else if N.eqb m 98 then simple 8
                else if N.eqb m 102 then simple 12
                else if N.eqb m 110 then simple 10
                else if N.eqb m 114 then simple 13
                else if N.eqb m 116 then simple 9
                else if N.eqb m 117 then
                  match getu4 s with
                  | None => None
                  | Some (rr, after) =>
                      let '(enc, after') :=
                        if (N.leb 55296 rr && N.ltb rr 57344)%bool then
                          match getu4 after with
                          | Some (rr1, after2) =>
                              if (N.ltb rr 56320 && N.leb 56320 rr1
                                  && N.ltb rr1 57344)%bool
                              then (encode_rune ((rr - 55296) * 1024 + (rr1 - 56320) + 65536),
                                    after2)
                              else (replacement, after)
                          | None => (replacement, after)
                          end
                        else (encode_rune rr, after) in
                      match parse_string_body fuel' after' with
                      | Some (t, rest) => Some (enc +:+ t, rest)
                      | None => None
                      end
                  end
                else None
            end
          else if N.ltb n 128 then
            match parse_string_body fuel' s' with
            | Some (t, rest) => Some (String c t, rest)
            | None => None
            end
          else
            match utf8_width c s' with
            | O =>
                match parse_string_body fuel' s' with
                | Some (t, rest) => Some (replacement +:+ t, rest)
                | None => None
                end
            | w =>
                match parse_string_body fuel' (GoStr.drop (Nat.pred w) s') with
                | Some (t, rest) => Some (String c (GoStr.take (Nat.pred w) s') +:+ t, rest)
                | None => None
                end
            end
      end
  end.

Definition parse_string (s : string) : option (string * string) :=
  parse_string_body (S (String.length s)) s.

(** ** Numbers *)

Fixpoint span_digits (s : string) : string * string :=
  match s with
  | String c s' =>
      if GoStr.is_digit c then let '(d, r) := span_digits s' in (String c d, r)
      else ("", s)
  | "" => ("", "")
  end.

(** A number literal split into sign, integer digits, fraction digits
    and exponent, with the text after it: an optional minus; a lone 0 or
    digits that do not start with 0; optionally a point and at least one
    digit; optionally e or E, an optional sign and at least one digit. *)
Definition scan_number (s : string) : option ((bool * string * string * Z) * string) :=
  let '(neg, s1) :=
    match s with
    | String c s' => if Ascii.eqb c "-" then (true, s') else (false, s)
    | "" => (false, s)
    end in
  let '(int_part, s2) := span_digits s1 in
  match int_part with
  | "" => None
  | String d0 more =>
      if (Ascii.eqb d0 "0" && negb (String.eqb more ""))%bool then None
      else
        let frac :=
          match s2 with
          | String c s' =>
              if Ascii.eqb c "." then
                let '(f, r) := span_digits s' in
                match f with "" => None | _ => Some (f, r) end
              else Some ("", s2)
          | "" => Some ("", s2)
          end in
        match frac with
        | None => None
        | Some (frac_part, s3) =>
            let exponent :=
              match s3 with
              | String c s' =>
                  if (Ascii.eqb c "e" || Ascii.eqb c "E")%bool then
                    let '(eneg, s4) :=
                      match s' with
                      | String sg s'' =>
                          if Ascii.eqb sg "-" then (true, s'')
                          else if Ascii.eqb sg "+" then (false, s'') else (false, s')
                      | "" => (false, s')
                      end in
                    let '(e, r) := span_digits s4 in
                    match e with
                    | "" => None
                    | _ => let v := GoStr.digits_value 0%Z e in
                           Some (if eneg then (- v)%Z else v, r)
                    end
                  else Some (0%Z, s3)
              | "" => Some (0%Z, s3)
              end in
            match exponent with
            | None => None
            | Some (e, rest) => Some ((neg, int_part, frac_part, e), rest)
            end
        end
  end.

(** Half an ulp above the largest [float64]: a literal of at least this
    magnitude makes [strconv.ParseFloat] report a range error. *)
Definition float64_overflow_bound : Z := (2 ^ 1024 - 2 ^ 970)%Z.

Definition float_overflows (int_part frac_part : string) (e : Z) : bool :=
  let d := GoStr.digits_value 0%Z (int_part +:+ frac_part) in
  let k := (e - Z.of_nat (String.length frac_part))%Z in
  if (d =? 0)%Z then false
  else if (0 <=? k)%Z then
    if (400 <? k)%Z then true else (float64_overflow_bound <=? d * 10 ^ k)%Z
  else if (Z.of_nat (String.length (int_part +:+ frac_part)) <? - k)%Z then false
  else (float64_overflow_bound * 10 ^ (- k) <=? d)%Z.

(** ** Values *)

Definition expect (c : ascii) (s : string) : option string :=
  match s with
  | String a s' => if Ascii.eqb a c then Some s' else None
  | "" => None
  end.

Definition maxNestingDepth : N := 10000.

(** One value after optional white space, and the text after it. *)
Fixpoint parse_value (fuel : nat) (depth : N) (s : string) {struct fuel}
  : option (value * string) :=
  match fuel with
  | O => None
  | S fuel' =>
      match skip_ws s with
      | "" => None
      | String c s' =>
          let n := code c in
          if N.eqb n 123 then                                (* { *)
            if N.ltb maxNestingDepth (N.succ depth) then None
            else match skip_ws s' with
                 | String c1 s1 =>
                     if N.eqb (code c1) 125 then Some (Object [], s1)
                     else match parse_members fuel' (N.succ depth) s' with
                          | Some (ms, rest) => Some (Object ms, rest)
                          | None => None
                          end
                 | "" => None
                 end
          else if N.eqb n 91 then                            (* [ *)
            if N.ltb maxNestingDepth (N.succ depth) then None
            else match skip_ws s' with
                 | String c1 s1 =>
                     if N.eqb (code c1) 93 then Some (Array [], s1)
                     else match parse_elems fuel' (N.succ depth) s' with
                          | Some (vs, rest) => Some (Array vs, rest)
                          | None => None
                          end
                 | "" => None
                 end
          else if N.eqb n 34 then
            match parse_string s' with
            | Some (t, rest) => Some (Str t, rest)
            | None => None
            end
          else if GoStr.HasPrefix (String c s') "true" then
            Some (Bool true, GoStr.drop 4 (String c s'))
          else if GoStr.HasPrefix (String c s') "false" then
            Some (Bool false, GoStr.drop 5 (String c s'))
          else if GoStr.HasPrefix (String c s') "null" then
            Some (Null, GoStr.drop 4 (String c s'))
          else
            match scan_number (String c s') with
            | Some (_, rest) =>
                Some (Number (GoStr.take (Nat.sub (String.length (String c s'))
                                                  (String.length rest))
                                         (String c s')),
                      rest)
            | None => None
            end
      end
  end
with parse_elems (fuel : nat) (depth : N) (s : string) {struct fuel}
  : option (list value * string) :=
  match fuel with
  | O => None
  | S fuel' =>
      match parse_value fuel' depth s with
      | None => None
      | Some (v, rest) =>
          match skip_ws rest with
          | String c r =>
              if N.eqb (code c) 44 then                      (* , *)
                match parse_elems fuel' depth r with
                | Some (vs, rest') => Some (v :: vs, rest')
                | None => None
                end
              else if N.eqb (code c) 93 then Some ([v], r)
              else None
          | "" => None
          end
      end
  end
with parse_members (fuel : nat) (depth : N) (s : string) {struct fuel}
  : option (list (string * value) * string) :=
  match fuel with
  | O => None
  | S fuel' =>
      match expect (chr 34) (skip_ws s) with
      | None => None
      | Some s1 =>
          match parse_string s1 with
          | None => None
          | Some (key, s2) =>
              match expect ":" (skip_ws s2) with
              | None => None
              | Some s3 =>
                  match parse_value fuel' depth s3 with
                  | None => None
                  | Some (v, rest) =>
                      match skip_ws rest with
                      | String c r =>
                          if N.eqb (code c) 44 then          (* , *)
                            match parse_members fuel' depth r with
                            | Some (ms, rest') => Some ((key, v) :: ms, rest')
                            | None => None
                            end
                          else if N.eqb (code c) 125 then Some ([(key, v)], r)
                          else None
                      | "" => None
                      end
                  end
              end
          end
      end
  end.

(** A whole document: one value, white space around it and nothing else.
    [None] is a syntax error ([checkValid] fails).  Of two nested calls of
    the functions above at least one has read a byte (an array reads its
    bracket before it asks for its first element, which reads nothing
    before it is parsed), so twice the length of the input is fuel
    enough. *)
Definition parse_document (s : string) : option value :=
  match parse_value (2 * String.length s + 2) 0 s with
  | Some (v, rest) =>
      match skip_ws rest with
      | "" => Some v
      | _ => None
      end
  | None => None
  end.

Definition number_overflows (literal : string) : bool :=
  match scan_number literal with
  | Some ((_, ip, fp, e), _) => float_overflows ip fp e
  | None => false
  end.

(** Whether storing [v] into an [interface{}] records an error: some
    number in it is out of [float64]'s range. *)
Fixpoint range_error (v : value) : bool :=
  match v with
  | Number literal => number_overflows literal
  | Array vs => existsb range_error vs
  | Object ms => existsb (fun kv => range_error (snd kv)) ms
  | _ => false
  end.

Definition members_range_error (ms : object) : bool :=
  existsb (fun kv => range_error (snd kv)) ms.

(** [json.Unmarshal(data, &m)] for a nil [m map[string]interface{}]:
    [None] when it returns an error (bad syntax, a document that is
    neither an object nor [null], a number out of range), else the
    members stored ([null] stores none). *)
Definition Unmarshal_map (data : string) : option object :=
  match parse_document data with
  | Some (Object ms) => if members_range_error ms then None else Some ms
  | Some Null => Some []
  | _ => None
  end.

(** ** Decoding into [struct { Events []map[string]interface{} }] *)

(** A member name is matched to the field without regard to case; the
    long s (bytes 197 191) folds to [s] as well. *)
Fixpoint fold_name (s : string) : string :=
  match s with
  | "" => ""
  | String c s' =>
      if between 97 122 c then String (chr (code c - 32)) (fold_name s')
      else match s' with
           | String c' s'' =>
               if (N.eqb (code c) 197 && N.eqb (code c') 191)%bool
               then String "S" (fold_name s'')
               else String c (fold_name s')
           | "" => String c ""
           end
  end.

Definition is_events_key (key : string) : bool := String.eqb (fold_name key) "EVENTS".

(** One array element stored into the slice element [old] ([None] is a
    nil map): an object's members are added to the map already there, a
    [null] makes it nil, anything else is a type error and leaves it. *)
Definition store_event (old : option object) (v : value) : option object * bool :=
  match v with
  | Object ms => (Some (default [] old ++ ms), members_range_error ms)
  | Null => (None, false)
  | _ => (old, true)
  end.

Fixpoint store_events (old : list (option object)) (vs : list value)
  : list (option object) * bool :=
  match vs with
  | [] => ([], false)
  | v :: vs' =>
      let '(e, err) := store_event (mjoin (head old)) v in
      let '(es, err') := store_events (tail old) vs' in
      (e :: es, (err || err')%bool)
  end.

(** The value of an [events] member stored into the field: an array
    decodes element by element into the slice as it stands, a [null]
    empties it, anything else is a type error. *)
Definition store_events_field (events : list (option object)) (v : value)
  : list (option object) * bool :=
  match v with
  | Array vs => store_events events vs
  | Null => ([], false)
  | _ => (events, true)
  end.

Fixpoint store_struct (ms : object) (events : list (option object)) (err : bool)
  : list (option object) * bool :=
  match ms with
  | [] => (events, err)
  | (k, v) :: rest =>
      if is_events_key k then
        let '(events', err') := store_events_field events v in
        store_struct rest events' (err || err')%bool
      else store_struct rest events err
  end.

(** [json.Unmarshal(data, &eventData)]: [None] when it returns an error,
    else the [Events] field it leaves. *)
Definition Unmarshal_events (data : string) : option (list (option object)) :=
  match parse_document data with
  | Some (Object ms) =>
      let '(events, err) := store_struct ms [] false in
      if err then None else Some events
  | Some Null => Some []
  | _ => None
  end.

End Json.

(* ===================================================================== *)
(** * [internal/parser/parser.go] *)
(* ===================================================================== *)

Module Parser.

Import GoStr.

(** ** Data model *)

Inductive LogType : Type :=
| LogTypeMain
| LogTypeV1Messages
| LogTypeV1CountTokens
| LogTypeProviderMessages
| LogTypeProviderCountTokens
| LogTypeProviderResponses
| LogTypeEventBatch.

(** [string(logType)]: the constant each name stands for. *)
Definition LogType_string (t : LogType) : string :=
  match t with
  | LogTypeMain => "main"
  | LogTypeV1Messages => "v1_messages"
  | LogTypeV1CountTokens => "v1_count_tokens"
  | LogTypeProviderMessages => "provider_messages"
  | LogTypeProviderCountTokens => "provider_count_tokens"
  | LogTypeProviderResponses => "provider_responses"
  | LogTypeEventBatch => "event_batch"
  end.

(** A [time.Time] held in a record.  The parsing of dates belongs to Go's
    [time] package; a parsed field is kept as the call that produced it:
    [TimeParse layout value] is the [Time] that [time.Parse(layout, value)]
    returns (the zero [Time] when it fails), [TimeParseLocal] the same for
    [time.ParseInLocation(layout, value, time.Local)]. *)
Inductive GoTime : Type :=
| TimeZero
| TimeParse (layout value : string)
| TimeParseLocal (layout value : string).

Definition RFC3339Nano : string := "2006-01-02T15:04:05.999999999Z07:00".

Record MainLogEntry : Type := mkMainLogEntry {
  m_Timestamp : GoTime;
  m_RequestID : string;
  m_Level : string;
  m_Source : string;
  m_Message : string;
  m_StatusCode : Z;
  m_Latency : string;
  m_ClientIP : string;
  m_Method : string;
  m_Path : string
}.

(** [MainLogEntry{}]. *)
Definition MainLogEntry_zero : MainLogEntry :=
  mkMainLogEntry TimeZero "" "" "" "" 0 "" "" "" "".

(** A [nil] map is [None]. *)
Record UpstreamCall : Type := mkUpstreamCall {
  u_Index : Z;
  u_Timestamp : GoTime;
  u_URL : string;
  u_Method : string;
  u_Headers : gmap string string;
  u_Body : string;
  u_Status : Z;
  u_RespHeaders : option (gmap string string);
  u_RespBody : string
}.

Record APILogEntry : Type := mkAPILogEntry {
  a_LogType : LogType;
  a_RequestID : string;
  a_Timestamp : GoTime;
  a_Version : string;
  a_URL : string;
  a_Method : string;
  a_Headers : gmap string string;
  a_RequestBody : string;
  a_ResponseStatus : Z;
  a_ResponseHeaders : gmap string string;
  a_ResponseBody : string;
  a_FullResponse : string;
  a_UpstreamRequests : list UpstreamCall
}.

Record EventBatchEntry : Type := mkEventBatchEntry {
  e_RequestID : string;
  e_Timestamp : GoTime;
  e_Events : list (option Json.object)
}.

(** ** The patterns *)

Import Regexp.

Definition dquote : ascii := byte_of 34.

(** The pattern of a main-log line (its last group, dot-star, is written
    here with a space inside so that the comment stays well-formed):
    ^\[(\d{4}-\d{2}-\d{2} \d{2}:\d{2}:\d{2})\] \[([^\]]+)\] \[(\w+)\s*\] \[([^\]]+)\] (.* )$ *)
Definition mainLogPattern : re :=
  cats [ BeginText; Lit "[";
         Cap 1 (cats [ rep 4 digit; Lit "-"; rep 2 digit; Lit "-"; rep 2 digit; Lit " ";
                       rep 2 digit; Lit ":"; rep 2 digit; Lit ":"; rep 2 digit ]);
         lits "] [";
         Cap 2 (plus (none_of "]"));
         lits "] [";
         Cap 3 (plus word); star space;
         lits "] [";
         Cap 4 (plus (none_of "]"));
         lits "] ";
         Cap 5 (star any);
         EndText ].

(** The pattern of an HTTP access line inside a message (Q stands for the
    double quote):
    (\d{3}) \|\s*([^\|]+)\|\s*([^\|]+)\| (\w+)\s+Q([^Q]+)Q *)
Definition httpLogPattern : re :=
  cats [ Cap 1 (rep 3 digit);
         lits " |"; star space;
         Cap 2 (plus (none_of "|"));
         Lit "|"; star space;
         Cap 3 (plus (none_of "|"));
         lits "| ";
         Cap 4 (plus word);
         plus space;
         Lit dquote; Cap 5 (plus (none_of dquote)); Lit dquote ].

Definition hex_lower (c : ascii) : bool := (in_range "a" "f" c || in_range "0" "9" c)%bool.

(** The pattern of an API log file name:
    ^(.+)-(\d{4}-\d{2}-\d{2}T\d{6})-([a-f0-9]{8})\.log$ *)
Definition apiLogFilePattern : re :=
  cats [ BeginText;
         Cap 1 (plus any);
         Lit "-";
         Cap 2 (cats [ rep 4 digit; Lit "-"; rep 2 digit; Lit "-"; rep 2 digit; Lit "T";
                       rep 6 digit ]);
         Lit "-";
         Cap 3 (rep 8 (Class hex_lower));
         lits ".log";
         EndText ].

(** The pattern of a rotated main log file name:
    ^main-(\d{4}-\d{2}-\d{2}T\d{2}-\d{2}-\d{2}\.\d{3})\.log$ *)
Definition mainLogFilePattern : re :=
  cats [ BeginText;
         lits "main-";
         Cap 1 (cats [ rep 4 digit; Lit "-"; rep 2 digit; Lit "-"; rep 2 digit; Lit "T";
                       rep 2 digit; Lit "-"; rep 2 digit; Lit "-"; rep 2 digit; Lit ".";
                       rep 3 digit ]);
         lits ".log";
         EndText ].

(** The pattern of a section header, compiled in [splitSections]:
    (?m)^=== (.+?) ===\s*$ *)
Definition sectionPattern : re :=
  cats [ BeginLine; lits "=== "; Cap 1 (plus_lazy any); lits " ==="; star space; EndLine ].

(** The pattern compiled in [extractIndex]: (\d+) *)
Definition indexPattern : re := Cap 1 (plus digit).

(** ** Classification *)

(** [DetermineLogType]. *)
Definition DetermineLogType (filename : string) : LogType :=
  let base := Filepath.Base filename in
  if (MatchString mainLogFilePattern base || String.eqb base "main.log")%bool
  then LogTypeMain
  else if HasPrefix base "api-provider-agy-api-event_logging-batch" then LogTypeEventBatch
  else if HasPrefix base "api-provider-agy-v1-messages-count_tokens"
       then LogTypeProviderCountTokens
  else if HasPrefix base "api-provider-agy-responses" then LogTypeProviderResponses
  else if HasPrefix base "api-provider-agy" then LogTypeProviderMessages
  else if HasPrefix base "v1-messages-count_tokens" then LogTypeV1CountTokens
  else if HasPrefix base "v1-messages" then LogTypeV1Messages
  else LogTypeMain.

(** [matches[i]] for an index the caller has checked. *)
Definition at_ (matches : list string) (i : nat) : string := nth i matches "".

(** [ExtractRequestIDFromFilename]. *)
Definition ExtractRequestIDFromFilename (filename : string) : string :=
  let base := Filepath.Base filename in
  let matches := FindStringSubmatch apiLogFilePattern base in
  if Nat.leb 4 (length matches) then at_ matches 3 else "".

(** ** The main log *)

(** [parseMainLogLine]. *)
Definition parseMainLogLine (line : string) : MainLogEntry * bool :=
  let matches := FindStringSubmatch mainLogPattern line in
  if Nat.ltb (length matches) 6 then (MainLogEntry_zero, false)
  else
    let ts := TimeParseLocal "2006-01-02 15:04:05" (at_ matches 1) in
    let entry :=
      mkMainLogEntry ts (at_ matches 2) (TrimSpace (at_ matches 3)) (at_ matches 4)
                     (at_ matches 5) 0 "" "" "" "" in
    let httpMatches := FindStringSubmatch httpLogPattern (at_ matches 5) in
    if Nat.leb 6 (length httpMatches) then
      (mkMainLogEntry (m_Timestamp entry) (m_RequestID entry) (m_Level entry)
                      (m_Source entry) (m_Message entry)
                      (Atoi (at_ httpMatches 1))
                      (TrimSpace (at_ httpMatches 2))
                      (TrimSpace (at_ httpMatches 3))
                      (TrimSpace (at_ httpMatches 4))
                      (at_ httpMatches 5),
       true)
    else (entry, true).

(** What reading a file gives: its bytes, or an I/O error. *)
Inductive file_read : Type :=
| ReadError
| ReadOK (content : string).

Inductive parse_error : Type :=
| ErrIO                                  (* os.Open / os.ReadFile failed *)
| ErrTooLong.                            (* bufio.ErrTooLong *)

(** The scanner's buffer limit set by [scanner.Buffer(buf, 1024*1024)]. *)
Definition maxTokenSize : nat := 1024 * 1024.

Definition dropCR (line : string) : string :=
  match String.rev line with
  | String c r => if Ascii.eqb c (byte_of 13) then String.rev r else line
  | "" => line
  end.

(** The raw lines [bufio.ScanLines] cuts the input into: the text between
    line feeds, without a last empty piece. *)
Definition raw_lines (content : string) : list string :=
  let pieces := SplitLines content in
  match List.rev pieces with
  | "" :: before => List.rev before
  | _ => pieces
  end.

(** The loop of [ParseMainLog] over the raw lines: a line that does not
    fit the buffer ends the scan with [ErrTooLong]. *)
Fixpoint scan_main (lines : list string) (entries : list MainLogEntry)
  : list MainLogEntry * option parse_error :=
  match lines with
  | [] => (entries, None)
  | raw :: rest =>
      if Nat.leb maxTokenSize (String.length raw) then (entries, Some ErrTooLong)
      else
        let '(entry, ok) := parseMainLogLine (dropCR raw) in
        scan_main rest (if ok then entries ++ [entry] else entries)
  end.

(** [ParseMainLog]: the entries and the error it returns. *)
Definition ParseMainLog (file : file_read) : list MainLogEntry * option parse_error :=
  match file with
  | ReadError => ([], Some ErrIO)
  | ReadOK content => scan_main (raw_lines content) []
  end.

(** ** Sections *)

Definition idx_at (m : list Z) (i : nat) : nat := Z.to_nat (nth i m 0%Z).

(** The loop of [splitSections] over the header matches, in file order:
    each section's name and trimmed body. *)
Fixpoint section_entries (content : string) (matches : list (list Z))
  : list (string * string) :=
  match matches with
  | [] => []
  | m :: rest =>
      let name := slice (idx_at m 2) (idx_at m 3) content in
      let start := idx_at m 1 in
      let end_ :=
        match rest with
        | next :: _ => idx_at next 0
        | [] => String.length content
        end in
      (name, TrimSpace (slice start end_ content)) :: section_entries content rest
  end.

Definition sections_in_file (content : string) : list (string * string) :=
  section_entries content (FindAllStringSubmatchIndex sectionPattern content).

(** [splitSections]: the map from name to body; a later section of the
    same name replaces an earlier one. *)
Definition splitSections (content : string) : gmap string string :=
  foldl (fun sections nb => <[nb.1 := nb.2]> sections) ∅ (sections_in_file content).

(** ** Request and response blocks *)

Definition set_Version (v : string) (e : APILogEntry) : APILogEntry :=
  mkAPILogEntry (a_LogType e) (a_RequestID e) (a_Timestamp e) v (a_URL e) (a_Method e)
    (a_Headers e) (a_RequestBody e) (a_ResponseStatus e) (a_ResponseHeaders e)
    (a_ResponseBody e) (a_FullResponse e) (a_UpstreamRequests e).
Definition set_URL (v : string) (e : APILogEntry) : APILogEntry :=
  mkAPILogEntry (a_LogType e) (a_RequestID e) (a_Timestamp e) (a_Version e) v (a_Method e)
    (a_Headers e) (a_RequestBody e) (a_ResponseStatus e) (a_ResponseHeaders e)
    (a_ResponseBody e) (a_FullResponse e) (a_UpstreamRequests e).
Definition set_Method (v : string) (e : APILogEntry) : APILogEntry :=
  mkAPILogEntry (a_LogType e) (a_RequestID e) (a_Timestamp e) (a_Version e) (a_URL e) v
    (a_Headers e) (a_RequestBody e) (a_ResponseStatus e) (a_ResponseHeaders e)
    (a_ResponseBody e) (a_FullResponse e) (a_UpstreamRequests e).
Definition set_Timestamp (v : GoTime) (e : APILogEntry) : APILogEntry :=
  mkAPILogEntry (a_LogType e) (a_RequestID e) v (a_Version e) (a_URL e) (a_Method e)
    (a_Headers e) (a_RequestBody e) (a_ResponseStatus e) (a_ResponseHeaders e)
    (a_ResponseBody e) (a_FullResponse e) (a_UpstreamRequests e).
Definition set_Headers (v : gmap string string) (e : APILogEntry) : APILogEntry :=
  mkAPILogEntry (a_LogType e) (a_RequestID e) (a_Timestamp e) (a_Version e) (a_URL e)
    (a_Method e) v (a_RequestBody e) (a_ResponseStatus e) (a_ResponseHeaders e)
    (a_ResponseBody e) (a_FullResponse e) (a_UpstreamRequests e).
Definition set_RequestBody (v : string) (e : APILogEntry) : APILogEntry :=
  mkAPILogEntry (a_LogType e) (a_RequestID e) (a_Timestamp e) (a_Version e) (a_URL e)
    (a_Method e) (a_Headers e) v (a_ResponseStatus e) (a_ResponseHeaders e)
    (a_ResponseBody e) (a_FullResponse e) (a_UpstreamRequests e).
Definition set_ResponseStatus (v : Z) (e : APILogEntry) : APILogEntry :=
  mkAPILogEntry (a_LogType e) (a_RequestID e) (a_Timestamp e) (a_Version e) (a_URL e)
    (a_Method e) (a_Headers e) (a_RequestBody e) v (a_ResponseHeaders e)
    (a_ResponseBody e) (a_FullResponse e) (a_UpstreamRequests e).
Definition set_ResponseHeaders (v : gmap string string) (e : APILogEntry) : APILogEntry :=
  mkAPILogEntry (a_LogType e) (a_RequestID e) (a_Timestamp e) (a_Version e) (a_URL e)
    (a_Method e) (a_Headers e) (a_RequestBody e) (a_ResponseStatus e) v
    (a_ResponseBody e) (a_FullResponse e) (a_UpstreamRequests e).
Definition set_ResponseBody (v : string) (e : APILogEntry) : APILogEntry :=
  mkAPILogEntry (a_LogType e) (a_RequestID e) (a_Timestamp e) (a_Version e) (a_URL e)
    (a_Method e) (a_Headers e) (a_RequestBody e) (a_ResponseStatus e)
    (a_ResponseHeaders e) v (a_FullResponse e) (a_UpstreamRequests e).
Definition set_FullResponse (v : string) (e : APILogEntry) : APILogEntry :=
  mkAPILogEntry (a_LogType e) (a_RequestID e) (a_Timestamp e) (a_Version e) (a_URL e)
    (a_Method e) (a_Headers e) (a_RequestBody e) (a_ResponseStatus e)
    (a_ResponseHeaders e) (a_ResponseBody e) v (a_UpstreamRequests e).
Definition set_UpstreamRequests (v : list UpstreamCall) (e : APILogEntry) : APILogEntry :=
  mkAPILogEntry (a_LogType e) (a_RequestID e) (a_Timestamp e) (a_Version e) (a_URL e)
    (a_Method e) (a_Headers e) (a_RequestBody e) (a_ResponseStatus e)
    (a_ResponseHeaders e) (a_ResponseBody e) (a_FullResponse e) v.

(** The text after a [label] prefix, trimmed. *)
Definition field_after (line label : string) : string :=
  TrimSpace (TrimPrefix line label).

(** [parseRequestInfo]. *)
Definition parseRequestInfo (body : string) (entry : APILogEntry) : APILogEntry :=
  foldl (fun entry line0 =>
           let line := TrimSpace line0 in
           if HasPrefix line "Version:" then set_Version (field_after line "Version:") entry
           else if HasPrefix line "URL:" then set_URL (field_after line "URL:") entry
           else if HasPrefix line "Method:" then set_Method (field_after line "Method:") entry
           else if HasPrefix line "Timestamp:" then
             set_Timestamp (TimeParse RFC3339Nano (field_after line "Timestamp:")) entry
           else entry)
        entry (SplitLines body).

(** The [headers[key] = value] a [Key: Value] line makes, if it is one. *)
Definition add_header (line : string) (headers : gmap string string)
  : gmap string string :=
  let idx := Index line ":" in
  if (0 <? idx)%Z then
    <[TrimSpace (take (Z.to_nat idx) line) := TrimSpace (drop (Z.to_nat idx + 1) line)]>
      headers
  else headers.

(** [parseHeaders]. *)
Definition parseHeaders (body : string) : gmap string string :=
  foldl (fun headers line0 => add_header (TrimSpace line0) headers) ∅ (SplitLines body).

(** [parseResponse]; the loop carries the entry, [headerDone] and
    [bodyLines]. *)
Definition parseResponse (body : string) (entry : APILogEntry) : APILogEntry :=
  let '(entry', _, bodyLines) :=
    foldl (fun (st : APILogEntry * bool * list string) line0 =>
             let '(entry, headerDone, bodyLines) := st in
             let line := TrimSpace line0 in
             if String.eqb line "" then (entry, true, bodyLines)
             else if negb headerDone then
               if HasPrefix line "Status:" then
                 (set_ResponseStatus (Atoi (field_after line "Status:")) entry,
                  headerDone, bodyLines)
               else
                 (set_ResponseHeaders (add_header line (a_ResponseHeaders entry)) entry,
                  headerDone, bodyLines)
             else (entry, headerDone, bodyLines ++ [line]))
          (entry, false, []) (SplitLines body) in
  set_ResponseBody (Join bodyLines nl) entry'.

(** ** Upstream calls *)

(** [extractIndex]. *)
Definition extractIndex (name : string) : Z :=
  let m := FindString indexPattern name in
  if negb (String.eqb m "") then Atoi m else 1%Z.

(** The state of the two line loops: the call, [inHeaders], [inBody]
    and [bodyLines]. *)
Record call_loop : Type := mkLoop {
  l_call : UpstreamCall;
  l_inHeaders : bool;
  l_inBody : bool;
  l_bodyLines : list string
}.

Definition with_call (f : UpstreamCall -> UpstreamCall) (st : call_loop) : call_loop :=
  mkLoop (f (l_call st)) (l_inHeaders st) (l_inBody st) (l_bodyLines st).

Definition set_u_Timestamp (v : GoTime) (c : UpstreamCall) : UpstreamCall :=
  mkUpstreamCall (u_Index c) v (u_URL c) (u_Method c) (u_Headers c) (u_Body c)
    (u_Status c) (u_RespHeaders c) (u_RespBody c).
Definition set_u_URL (v : string) (c : UpstreamCall) : UpstreamCall :=
  mkUpstreamCall (u_Index c) (u_Timestamp c) v (u_Method c) (u_Headers c) (u_Body c)
    (u_Status c) (u_RespHeaders c) (u_RespBody c).
Definition set_u_Method (v : string) (c : UpstreamCall) : UpstreamCall :=
  mkUpstreamCall (u_Index c) (u_Timestamp c) (u_URL c) v (u_Headers c) (u_Body c)
    (u_Status c) (u_RespHeaders c) (u_RespBody c).
Definition set_u_Headers (v : gmap string string) (c : UpstreamCall) : UpstreamCall :=
  mkUpstreamCall (u_Index c) (u_Timestamp c) (u_URL c) (u_Method c) v (u_Body c)
    (u_Status c) (u_RespHeaders c) (u_RespBody c).
Definition set_u_Body (v : string) (c : UpstreamCall) : UpstreamCall :=
  mkUpstreamCall (u_Index c) (u_Timestamp c) (u_URL c) (u_Method c) (u_Headers c) v
    (u_Status c) (u_RespHeaders c) (u_RespBody c).
Definition set_u_Status (v : Z) (c : UpstreamCall) : UpstreamCall :=
  mkUpstreamCall (u_Index c) (u_Timestamp c) (u_URL c) (u_Method c) (u_Headers c)
    (u_Body c) v (u_RespHeaders c) (u_RespBody c).
Definition set_u_RespHeaders (v : option (gmap string string)) (c : UpstreamCall)
  : UpstreamCall :=
  mkUpstreamCall (u_Index c) (u_Timestamp c) (u_URL c) (u_Method c) (u_Headers c)
    (u_Body c) (u_Status c) v (u_RespBody c).
Definition set_u_RespBody (v : string) (c : UpstreamCall) : UpstreamCall :=
  mkUpstreamCall (u_Index c) (u_Timestamp c) (u_URL c) (u_Method c) (u_Headers c)
    (u_Body c) (u_Status c) (u_RespHeaders c) v.

(** [parseUpstreamRequest]. *)
Definition parseUpstreamRequest (body : string) (idx : Z) : UpstreamCall :=
  let call := mkUpstreamCall idx TimeZero "" "" ∅ "" 0 None "" in
  let st :=
    foldl (fun st line =>
             let trimmed := TrimSpace line in
             if HasPrefix trimmed "Timestamp:" then
               with_call (set_u_Timestamp
                            (TimeParse RFC3339Nano (field_after trimmed "Timestamp:"))) st
             else if HasPrefix trimmed "Upstream URL:" then
               with_call (set_u_URL (field_after trimmed "Upstream URL:")) st
             else if HasPrefix trimmed "HTTP Method:" then
               with_call (set_u_Method (field_after trimmed "HTTP Method:")) st
             else if String.eqb trimmed "Headers:" then
               mkLoop (l_call st) true false (l_bodyLines st)
             else if String.eqb trimmed "Body:" then
               mkLoop (l_call st) false true (l_bodyLines st)
             else if l_inHeaders st then
               with_call (fun c => set_u_Headers (add_header trimmed (u_Headers c)) c) st
             else if l_inBody st then
               mkLoop (l_call st) (l_inHeaders st) (l_inBody st) (l_bodyLines st ++ [line])
             else st)
          (mkLoop call false false []) (SplitLines body) in
  set_u_Body (TrimSpace (Join (l_bodyLines st) nl)) (l_call st).

(** [parseUpstreamResponse], as the new value of [*call]. *)
Definition parseUpstreamResponse (body : string) (call : UpstreamCall) : UpstreamCall :=
  let call0 := set_u_RespHeaders (Some ∅) call in
  let st :=
    foldl (fun st line =>
             let trimmed := TrimSpace line in
             if HasPrefix trimmed "Status:" then
               with_call (set_u_Status (Atoi (field_after trimmed "Status:"))) st
             else if String.eqb trimmed "Headers:" then
               mkLoop (l_call st) true false (l_bodyLines st)
             else if String.eqb trimmed "Body:" then
               mkLoop (l_call st) false true (l_bodyLines st)
             else if l_inHeaders st then
               with_call (fun c =>
                            set_u_RespHeaders
                              (Some (add_header trimmed (default ∅ (u_RespHeaders c)))) c) st
             else if l_inBody st then
               mkLoop (l_call st) (l_inHeaders st) (l_inBody st) (l_bodyLines st ++ [line])
             else st)
          (mkLoop call0 false false []) (SplitLines body) in
  set_u_RespBody (TrimSpace (Join (l_bodyLines st) nl)) (l_call st).

(** ** Streamed responses *)

(** What one line of the body adds to [fullContent] in
    [extractFullStreamResponse]. *)
Definition stream_line (fullContent line0 : string) : string :=
  let line := TrimSpace line0 in
  if negb (HasPrefix line "data:") then fullContent
  else
    let dataStr := TrimSpace (TrimPrefix line "data:") in
    if String.eqb dataStr "[DONE]" then fullContent
    else
      match Json.Unmarshal_map dataStr with
      | None => fullContent
      | Some data =>
          let fullContent1 :=
            match Json.lookup "delta" data with
            | Some (Json.Object delta) =>
                match Json.lookup "text" delta with
                | Some (Json.Str text) => fullContent +:+ text
                | _ => fullContent
                end
            | _ => fullContent
            end in
          match Json.lookup "choices" data with
          | Some (Json.Array (Json.Object choice :: _)) =>
              match Json.lookup "delta" choice with
              | Some (Json.Object delta) =>
                  match Json.lookup "content" delta with
                  | Some (Json.Str content) => fullContent1 +:+ content
                  | _ => fullContent1
                  end
              | _ => fullContent1
              end
          | _ => fullContent1
          end
      end.

(** [extractFullStreamResponse]. *)
Definition extractFullStreamResponse (body : string) : string :=
  foldl stream_line "" (SplitLines body).

(** ** Transaction files *)

Inductive result (A : Type) : Type :=
| Ok (a : A)
| Err (e : parse_error).
Arguments Ok {A} a.
Arguments Err {A} e.

(** The body of the [switch] in [ParseAPILog] for one section. *)
Definition apply_section (entry : APILogEntry) (section : string * string)
  : APILogEntry :=
  let '(name, body) := section in
  if String.eqb name "REQUEST INFO" then parseRequestInfo body entry
  else if String.eqb name "HEADERS" then set_Headers (parseHeaders body) entry
  else if String.eqb name "REQUEST BODY" then set_RequestBody (TrimSpace body) entry
  else if String.eqb name "RESPONSE" then parseResponse body entry
  else if HasPrefix name "API REQUEST" then
    let idx := extractIndex name in
    let upstream := parseUpstreamRequest body idx in
    set_UpstreamRequests (a_UpstreamRequests entry ++ [upstream]) entry
  else if HasPrefix name "API RESPONSE" then
    let idx := extractIndex name in
    if ((0 <? idx)%Z && (idx <=? Z.of_nat (length (a_UpstreamRequests entry)))%Z)%bool
    then
      set_UpstreamRequests
        (alter (parseUpstreamResponse body) (Z.to_nat (idx - 1)) (a_UpstreamRequests entry))
        entry
    else entry
  else entry.

(** The entry [ParseAPILog] starts from. *)
Definition new_entry (filepath : string) (logType : LogType) : APILogEntry :=
  mkAPILogEntry logType (ExtractRequestIDFromFilename filepath) TimeZero "" "" "" ∅ ""
                0 ∅ "" "" [].

(** [ParseAPILog] on the bytes of a file, when [range sections] hands out
    the sections in the order [visit]. *)
Definition ParseAPILog_visit (visit : list (string * string)) (filepath : string)
    (logType : LogType) : APILogEntry :=
  let entry := foldl apply_section (new_entry filepath logType) visit in
  set_FullResponse (extractFullStreamResponse (a_ResponseBody entry)) entry.

(** Go leaves the order of [range] over a map open: any arrangement of
    the map's entries is a possible order. *)
Definition range_order (sections : gmap string string) (visit : list (string * string))
  : Prop :=
  visit ≡ₚ map_to_list sections.

(** [ParseAPILog], under a choice [range] of iteration order. *)
Definition ParseAPILog (range : gmap string string -> list (string * string))
    (file : file_read) (filepath : string) (logType : LogType) : result APILogEntry :=
  match file with
  | ReadError => Err ErrIO
  | ReadOK content => Ok (ParseAPILog_visit (range (splitSections content)) filepath logType)
  end.

(** ** Event batches *)

(** The first line that starts with [Timestamp:], as the loop with
    [break] finds it. *)
Fixpoint first_timestamp (lines : list string) : option string :=
  match lines with
  | [] => None
  | line :: rest =>
      if HasPrefix line "Timestamp:" then Some (field_after line "Timestamp:")
      else first_timestamp rest
  end.

(** [ParseEventBatchLog]. *)
Definition ParseEventBatchLog (file : file_read) (filepath : string)
  : result EventBatchEntry :=
  match file with
  | ReadError => Err ErrIO
  | ReadOK content =>
      let sections := splitSections content in
      let ts :=
        match sections !! "REQUEST INFO" with
        | Some info =>
            match first_timestamp (SplitLines info) with
            | Some tsStr => TimeParse RFC3339Nano tsStr
            | None => TimeZero
            end
        | None => TimeZero
        end in
      let events :=
        match sections !! "REQUEST BODY" with
        | Some body =>
            match Json.Unmarshal_events (TrimSpace body) with
            | Some events => events
            | None => []
            end
        | None => []
        end in
      Ok (mkEventBatchEntry (ExtractRequestIDFromFilename filepath) ts events)
  end.

End Parser.

(* ===================================================================== *)
(** * [internal/config/config.go] *)
(* ===================================================================== *)

Module Config.

Record LogTypeConfig : Type := mkLogTypeConfig {
  Enabled : bool;
  TypeDeleteAfterCollect : option bool     (* *bool: nil is None *)
}.

Record LogTypesConfig : Type := mkLogTypesConfig {
  Main : LogTypeConfig;
  V1Messages : LogTypeConfig;
  V1CountTokens : LogTypeConfig;
  ProviderMessages : LogTypeConfig;
  ProviderCountTokens : LogTypeConfig;
  ProviderResponses : LogTypeConfig;
  EventBatch : LogTypeConfig
}.

(** The fields of [Config] the collector reads. *)
Record Config : Type := mkConfig {
  BatchSize : Z;
  DeleteAfterCollect : bool;
  DeleteMinAge : Z;
  LogTypes : LogTypesConfig
}.

(** [GetLogTypeConfig]. *)
Definition GetLogTypeConfig (c : Config) (logType : string) : LogTypeConfig :=
  if String.eqb logType "main" then Main (LogTypes c)
  else if String.eqb logType "v1_messages" then V1Messages (LogTypes c)
  else if String.eqb logType "v1_count_tokens" then V1CountTokens (LogTypes c)
  else if String.eqb logType "provider_messages" then ProviderMessages (LogTypes c)
  else if String.eqb logType "provider_count_tokens" then ProviderCountTokens (LogTypes c)
  else if String.eqb logType "provider_responses" then ProviderResponses (LogTypes c)
  else if String.eqb logType "event_batch" then EventBatch (LogTypes c)
  else mkLogTypeConfig true None.

(** [ShouldDeleteAfterCollect]. *)
Definition ShouldDeleteAfterCollect (c : Config) (logType : string) : bool :=
  match TypeDeleteAfterCollect (GetLogTypeConfig c logType) with
  | Some b => b
  | None => DeleteAfterCollect c
  end.

(** The defaults [Load] starts from. *)
Definition default_config : Config :=
  let on := mkLogTypeConfig true None in
  mkConfig 1000 false 300 (mkLogTypesConfig on on on on on on on).

End Config.

(* ===================================================================== *)
(** * The collector: [processFile] and [tryDeleteFile] *)
(* ===================================================================== *)

Module Collector.

Import Parser Config.

(** ** The world the collector acts on *)

(** [os.FileInfo]: size in bytes, modification time in nanoseconds since
    the epoch. *)
Record FileInfo : Type := mkFileInfo {
  fi_Size : Z;
  fi_ModTime : Z
}.

(** A file that [os.Stat] finds, and what reading it gives. *)
Record File : Type := mkFile {
  f_info : FileInfo;
  f_data : file_read
}.

(** A row of [processed_files]: path, size, modification time, count. *)
Record ProcessedRow : Type := mkRow {
  r_path : string;
  r_size : Z;
  r_mtime : Z;
  r_count : Z
}.

(** The calls the collector makes on its collaborators, with how each
    ended ([ok = false]: the call returned an error). *)
Inductive event : Type :=
| EvIsFileProcessed (path : string) (size mtime : Z) (answer : option bool)
| EvInsertMainLogs (entries : list MainLogEntry) (logFile : string) (ok : bool)
| EvInsertAPILog (entry : APILogEntry) (logFile : string) (ok : bool)
| EvInsertEventBatch (entry : EventBatchEntry) (logFile : string) (ok : bool)
| EvMarkFileProcessed (row : ProcessedRow) (ok : bool)
| EvRemove (path : string) (ok : bool).

(** - [w_files]: the files [os.Stat] finds (a path outside it gives an error);
    - [w_processed]: the rows written to [processed_files], oldest first;
    - [w_now]: the clock [time.Since] reads, in nanoseconds since the epoch;
    - [w_faults]: for each coming request to the store or the file system,
      in order, whether it fails (none left: it succeeds);
    - [w_range]: the order in which [range] hands out a map's entries;
    - [w_trace]: the calls made so far, oldest first. *)
Record World : Type := mkWorld {
  w_files : gmap string File;
  w_processed : list ProcessedRow;
  w_now : Z;
  w_faults : list bool;
  w_range : gmap string string -> list (string * string);
  w_trace : list event
}.

Definition set_files (v : gmap string File) (w : World) : World :=
  mkWorld v (w_processed w) (w_now w) (w_faults w) (w_range w) (w_trace w).
Definition set_processed (v : list ProcessedRow) (w : World) : World :=
  mkWorld (w_files w) v (w_now w) (w_faults w) (w_range w) (w_trace w).
Definition set_faults (v : list bool) (w : World) : World :=
  mkWorld (w_files w) (w_processed w) (w_now w) v (w_range w) (w_trace w).
Definition record (e : event) (w : World) : World :=
  mkWorld (w_files w) (w_processed w) (w_now w) (w_faults w) (w_range w) (w_trace w ++ [e]).

(** One request to a collaborator: whether it succeeds, and the world
    with that fault consumed. *)
Definition request (w : World) : bool * World :=
  match w_faults w with
  | [] => (true, w)
  | fails :: rest => (negb fails, set_faults rest w)
  end.

(** ** The storage interface *)

Definition row_matches (path : string) (size mtime : Z) (r : ProcessedRow) : bool :=
  (String.eqb (r_path r) path && (r_size r =? size)%Z && (r_mtime r =? mtime)%Z)%bool.

(** [IsFileProcessed]: [count() > 0] over the rows with this path, size
    and modification time; [None] is an error. *)
Definition IsFileProcessed (w : World) (path : string) (size mtime : Z)
  : option bool * World :=
  let '(ok, w1) := request w in
  let answer :=
    if ok then Some (existsb (row_matches path size mtime) (w_processed w1)) else None in
  (answer, record (EvIsFileProcessed path size mtime answer) w1).

(** [MarkFileProcessed]: one more row. *)
Definition MarkFileProcessed (w : World) (path : string) (size mtime count : Z)
  : bool * World :=
  let '(ok, w1) := request w in
  let row := mkRow path size mtime count in
  let w2 := if ok then set_processed (w_processed w1 ++ [row]) w1 else w1 in
  (ok, record (EvMarkFileProcessed row ok) w2).

(** [InsertMainLogs]: nothing is sent for an empty slice. *)
Definition InsertMainLogs (w : World) (entries : list MainLogEntry) (logFile : string)
  : bool * World :=
  match entries with
  | [] => (true, record (EvInsertMainLogs entries logFile true) w)
  | _ =>
      let '(ok, w1) := request w in
      (ok, record (EvInsertMainLogs entries logFile ok) w1)
  end.

(** [InsertAPILog]. *)
Definition InsertAPILog (w : World) (entry : APILogEntry) (logFile : string)
  : bool * World :=
  let '(ok, w1) := request w in
  (ok, record (EvInsertAPILog entry logFile ok) w1).

(** [InsertEventBatch]: nothing is sent for an entry without events. *)
Definition InsertEventBatch (w : World) (entry : EventBatchEntry) (logFile : string)
  : bool * World :=
  match e_Events entry with
  | [] => (true, record (EvInsertEventBatch entry logFile true) w)
  | _ =>
      let '(ok, w1) := request w in
      (ok, record (EvInsertEventBatch entry logFile ok) w1)
  end.

(** ** Deletion *)

(** A signed 64-bit result after wrap-around. *)
Definition wrap64 (z : Z) : Z := ((z + 2 ^ 63) mod 2 ^ 64 - 2 ^ 63)%Z.

(** [time.Duration(n) * time.Second]. *)
Definition seconds (n : Z) : Z := wrap64 (n * 1000000000).

(** [time.Since(t)]: the difference in nanoseconds, kept within the
    range of a [Duration]. *)
Definition Since (now t : Z) : Z :=
  Z.max GoStr.MinInt64 (Z.min GoStr.MaxInt64 (now - t)).

(** [tryDeleteFile]. *)
Definition tryDeleteFile (cfg : Config) (w : World) (filePath : string) (info : FileInfo)
  : World :=
  let minAge := seconds (DeleteMinAge cfg) in
  if (Since (w_now w) (fi_ModTime info) <? minAge)%Z then w
  else if String.eqb (Filepath.Base filePath) "main.log" then w
  else
    let '(ok, w1) := request w in
    let w2 := if ok then set_files (delete filePath (w_files w1)) w1 else w1 in
    record (EvRemove filePath ok) w2.

(** ** Per-file processing *)

(** How a call ends: it returns, it never returns, or it stops the
    process with a run-time panic. *)
Inductive outcome : Type :=
| Returned (w : World)
| Hangs (w : World)
| Panics (w : World).

(** How the batch loop ends: all batches sent, or an insert failed. *)
Inductive loop_end : Type :=
| LoopDone (w : World)
| LoopFailed (w : World)
| LoopHangs (w : World)
| LoopPanics (w : World).

(** [entries[lo:hi]] for [0 <= lo <= hi <= len(entries)]. *)
Definition subslice {A : Type} (lo hi : Z) (l : list A) : list A :=
  take (Z.to_nat (hi - lo)) (drop (Z.to_nat lo) l).

(** The loop [for i := 0; i < len(entries); i += batchSize].  [fuel]
    bounds the iterations the model follows; running out of it stands for
    a loop that does not end. *)
Fixpoint batch_loop (fuel : nat) (i batchSize : Z) (entries : list MainLogEntry)
    (filePath : string) (w : World) : loop_end :=
  let len := Z.of_nat (length entries) in
  if negb (i <? len)%Z then LoopDone w
  else
    match fuel with
    | O => LoopHangs w
    | S fuel' =>
        let end0 := (i + batchSize)%Z in
        let end_ := if (end0 >? len)%Z then len else end0 in
        if (end_ <? i)%Z then LoopPanics w        (* slice bounds out of range *)
        else
          let '(ok, w1) := InsertMainLogs w (subslice i end_ entries) filePath in
          if ok then batch_loop fuel' (i + batchSize)%Z batchSize entries filePath w1
          else LoopFailed w1
    end.

(** [uint32(n)]. *)
Definition uint32 (n : Z) : Z := (n mod 2 ^ 32)%Z.

(** The end of [processFile]: mark the file, then delete it if the
    policy says so. *)
Definition mark_and_delete (cfg : Config) (w : World) (filePath : string)
    (info : FileInfo) (logTypeStr : string) (recordCount : Z) : World :=
  let '(ok, w1) :=
    MarkFileProcessed w filePath (fi_Size info) (fi_ModTime info) recordCount in
  if negb ok then w1
  else if ShouldDeleteAfterCollect cfg logTypeStr then tryDeleteFile cfg w1 filePath info
  else w1.

(** [processFile]. *)
Definition processFile (cfg : Config) (w : World) (filePath : string) : outcome :=
  match w_files w !! filePath with
  | None => Returned w                                   (* os.Stat failed *)
  | Some file =>
      let info := f_info file in
      let '(processed, w1) :=
        IsFileProcessed w filePath (fi_Size info) (fi_ModTime info) in
      match processed with
      | None => Returned w1
      | Some true => Returned w1
      | Some false =>
          let logType := DetermineLogType filePath in
          let logTypeStr := LogType_string logType in
          let typeConfig := GetLogTypeConfig cfg logTypeStr in
          if negb (Enabled typeConfig) then Returned w1
          else
            match logType with
            | LogTypeMain =>
                let '(entries, err) := ParseMainLog (f_data file) in
                match err with
                | Some _ => Returned w1
                | None =>
                    match batch_loop (length entries) 0 (BatchSize cfg) entries
                                     filePath w1 with
                    | LoopDone w2 =>
                        Returned (mark_and_delete cfg w2 filePath info logTypeStr
                                    (uint32 (Z.of_nat (length entries))))
                    | LoopFailed w2 => Returned w2
                    | LoopHangs w2 => Hangs w2
                    | LoopPanics w2 => Panics w2
                    end
                end
            | LogTypeV1Messages | LogTypeV1CountTokens
            | LogTypeProviderMessages | LogTypeProviderCountTokens =>
                match ParseAPILog (w_range w1) (f_data file) filePath logType with
                | Err _ => Returned w1
                | Ok entry =>
                    let '(ok, w2) := InsertAPILog w1 entry filePath in
                    if ok then Returned (mark_and_delete cfg w2 filePath info logTypeStr 1)
                    else Returned w2
                end
            | LogTypeEventBatch =>
                match ParseEventBatchLog (f_data file) filePath with
                | Err _ => Returned w1
                | Ok entry =>
                    let '(ok, w2) := InsertEventBatch w1 entry filePath in
                    if ok then
                      Returned (mark_and_delete cfg w2 filePath info logTypeStr
                                  (uint32 (Z.of_nat (length (e_Events entry)))))
                    else Returned w2
                end
            | LogTypeProviderResponses =>
                (* no case of the switch names this type: recordCount stays 0 *)
                Returned (mark_and_delete cfg w1 filePath info logTypeStr 0)
            end
      end
  end.

End Collector.

(* ===================================================================== *)
(** * Notions used in the statements *)
(* ===================================================================== *)

Import Parser Config Collector.

(** ** Example inputs are written as lists of lines *)

Definition join_lines (l : list string) : string := GoStr.Join l GoStr.nl.

Definition health_line : string :=
  "[2026-01-08 09:29:48] [a3523f75] [info ] [main.go:413] 200 |    12ms |   1.2.3.4 | GET    "
  +:+ GoStr.quoted "/health".

(** ** Classification *)

(** The name is a main-log name: it matches the rotated-file pattern or is
    the literal [main.log]. *)
Definition is_main_name (base : string) : bool :=
  (Regexp.MatchString mainLogFilePattern base || String.eqb base "main.log")%bool.

(** ** Streamed responses *)

(** The payload of a stream line: for a line that, trimmed, starts with
    [data:], the trimmed text after that prefix. *)
Definition data_payload (line : string) : option string :=
  let trimmed := GoStr.TrimSpace line in
  if GoStr.HasPrefix trimmed "data:"
  then Some (GoStr.TrimSpace (GoStr.TrimPrefix trimmed "data:"))
  else None.

(** The [delta.text] string of a decoded payload ([""] if it has none). *)
Definition delta_text (data : Json.object) : string :=
  match Json.lookup "delta" data with
  | Some (Json.Object delta) =>
      match Json.lookup "text" delta with
      | Some (Json.Str text) => text
      | _ => ""
      end
  | _ => ""
  end.

(** The [choices[0].delta.content] string of a decoded payload. *)
Definition choice_delta_content (data : Json.object) : string :=
  match Json.lookup "choices" data with
  | Some (Json.Array (Json.Object choice :: _)) =>
      match Json.lookup "delta" choice with
      | Some (Json.Object delta) =>
          match Json.lookup "content" delta with
          | Some (Json.Str content) => content
          | _ => ""
          end
      | _ => ""
      end
  | _ => ""
  end.

(** What one line contributes to the reconstructed text. *)
Definition line_fragments (line : string) : string :=
  match data_payload line with
  | None => ""
  | Some payload =>
      if String.eqb payload "[DONE]" then ""
      else match Json.Unmarshal_map payload with
           | None => ""
           | Some data => delta_text data +:+ choice_delta_content data
           end
  end.

(** Concatenation without separators. *)
Definition concat_all (parts : list string) : string := foldr String.append "" parts.

Definition claude_delta (text : string) : string :=
  "data: {" +:+ GoStr.quoted "delta" +:+ ":{" +:+ GoStr.quoted "text" +:+ ":"
  +:+ GoStr.quoted text +:+ "}}".

Definition openai_delta (content : string) : string :=
  "data: {" +:+ GoStr.quoted "choices" +:+ ":[{" +:+ GoStr.quoted "delta" +:+ ":{"
  +:+ GoStr.quoted "content" +:+ ":" +:+ GoStr.quoted content +:+ "}}]}".

(** ** Event batches *)

(** The timestamp [ParseEventBatchLog] reads from [REQUEST INFO]. *)
Definition request_info_timestamp (sections : gmap string string) : GoTime :=
  match sections !! "REQUEST INFO" with
  | Some info =>
      match first_timestamp (GoStr.SplitLines info) with
      | Some tsStr => TimeParse RFC3339Nano tsStr
      | None => TimeZero
      end
  | None => TimeZero
  end.

Definition broken_batch : string :=
  join_lines [ "=== REQUEST INFO ===";
               "URL: /api/event_logging/batch";
               "Timestamp: 2026-01-08T10:36:03.5Z";
               "";
               "=== REQUEST BODY ===";
               "{" +:+ GoStr.quoted "events" +:+ ": [ {" ].

(** ** Upstream calls *)




(** ** The calls of [processFile] *)

Definition world_of (o : outcome) : World :=
  match o with Returned w | Hangs w | Panics w => w end.

Definition loop_world (r : loop_end) : World :=
  match r with LoopDone w | LoopFailed w | LoopHangs w | LoopPanics w => w end.

(** The calls made between two worlds: what the later trace adds. *)
Definition events_since (w w' : World) : list event :=
  drop (length (w_trace w)) (w_trace w').

Definition call_events (cfg : Config) (w : World) (filePath : string) : list event :=
  events_since w (world_of (processFile cfg w filePath)).

Inductive log_record : Type :=
| RecMain (entry : MainLogEntry)
| RecAPI (entry : APILogEntry)
| RecEvents (entry : EventBatchEntry).

Definition handed_by (e : event) : list log_record :=
  match e with
  | EvInsertMainLogs entries _ true => map RecMain entries
  | EvInsertAPILog entry _ true => [RecAPI entry]
  | EvInsertEventBatch entry _ true => [RecEvents entry]
  | _ => []
  end.

Definition handed (evs : list event) : list log_record := concat (map handed_by evs).

Definition is_mark (e : event) : bool :=
  match e with EvMarkFileProcessed _ _ => true | _ => false end.

Definition marked (evs : list event) : bool := existsb is_mark evs.

Definition is_insert (e : event) : bool :=
  match e with
  | EvInsertMainLogs _ _ _ | EvInsertAPILog _ _ _ | EvInsertEventBatch _ _ _ => true
  | _ => false
  end.

Definition is_remove (e : event) : bool :=
  match e with EvRemove _ _ => true | _ => false end.

(** Neither a mark nor a removal. *)
Definition is_quiet (e : event) : bool := (negb (is_mark e) && negb (is_remove e))%bool.

(** What stays as it was across a call on a collaborator. *)
Definition same_setting (w w' : World) : Prop :=
  w_range w' = w_range w /\ w_now w' = w_now w.

(** Whether [tryDeleteFile] goes on to remove the file: it is old enough
    and is not [main.log]. *)
Definition removal_allowed (cfg : Config) (now : Z) (filePath : string) (info : FileInfo)
  : bool :=
  (negb (Since now (fi_ModTime info) <? seconds (DeleteMinAge cfg))%Z
   && negb (String.eqb (Filepath.Base filePath) "main.log"))%bool.

(** What follows the mark: nothing, or the removal of the file. *)
Definition after_mark (cfg : Config) (w w' : World) (filePath : string) (info : FileInfo)
    (logTypeStr : string) (ok : bool) (rest : list event) : Prop :=
  (rest = [] /\ w_files w' = w_files w
   /\ (ok && ShouldDeleteAfterCollect cfg logTypeStr
        && removal_allowed cfg (w_now w) filePath info)%bool = false)
  \/ (ok = true /\ ShouldDeleteAfterCollect cfg logTypeStr = true
      /\ removal_allowed cfg (w_now w) filePath info = true
      /\ exists removed,
           rest = [EvRemove filePath removed]
           /\ w_files w' = (if removed then delete filePath (w_files w) else w_files w)).

(** The records [processFile] takes out of the file, when it gets as far as
    reading it: the file is found, the store answers that it is not yet
    processed and its kind is enabled; then what the parser of its kind
    returns.  [None]: the call gives up before that, or the parser fails.
    No parser runs for [provider_responses]: nothing is taken out. *)
Definition extracted (cfg : Config) (w : World) (filePath : string)
  : option (list log_record) :=
  match w_files w !! filePath with
  | None => None
  | Some file =>
      match (IsFileProcessed w filePath (fi_Size (f_info file))
                             (fi_ModTime (f_info file))).1 with
      | Some false =>
          let logType := DetermineLogType filePath in
          if Enabled (GetLogTypeConfig cfg (LogType_string logType)) then
            match logType with
            | LogTypeMain =>
                match ParseMainLog (f_data file) with
                | (entries, None) => Some (map RecMain entries)
                | (_, Some _) => None
                end
            | LogTypeEventBatch =>
                match ParseEventBatchLog (f_data file) filePath with
                | Ok entry => Some [RecEvents entry]
                | Err _ => None
                end
            | LogTypeProviderResponses => Some []
            | _ =>
                match ParseAPILog (w_range w) (f_data file) filePath logType with
                | Ok entry => Some [RecAPI entry]
                | Err _ => None
                end
            end
          else None
      | _ => None
      end
  end.

(** The two ways a call of [processFile] can go, for the file [file]
    found at the path. *)
Definition gives_up (w : World) (o : outcome) (evs : list event) : Prop :=
  forallb is_quiet evs = true
  /\ w_processed (world_of o) = w_processed w
  /\ w_files (world_of o) = w_files w.

Definition completes (cfg : Config) (w : World) (filePath : string) (o : outcome)
    (evs : list event) : Prop :=
  exists file pre count ok rest,
    let row := mkRow filePath (fi_Size (f_info file)) (fi_ModTime (f_info file)) count in
    w_files w !! filePath = Some file
    /\ o = Returned (world_of o)
    /\ evs = pre ++ EvMarkFileProcessed row ok :: rest
    /\ forallb is_quiet pre = true
    /\ w_processed (world_of o) = (if ok then w_processed w ++ [row] else w_processed w)
    /\ after_mark cfg w (world_of o) filePath (f_info file)
                  (LogType_string (DetermineLogType filePath)) ok rest.

(** ** Deletion *)

(** The configured minimum age, in nanoseconds, is a [time.Duration]. *)
Definition duration_fits (cfg : Config) : Prop :=
  (GoStr.MinInt64 <= DeleteMinAge cfg * 1000000000 <= GoStr.MaxInt64)%Z.

(** At the time [now] the file is younger than the configured minimum age. *)
Definition within_min_age (cfg : Config) (now : Z) (info : FileInfo) : Prop :=
  (now - fi_ModTime info < DeleteMinAge cfg * 1000000000)%Z.

(** ** Repeated calls *)






(** ** Example worlds *)

(** A world with one file, an empty table and a clock; [faults] says which
    of the coming requests fail. *)
Definition one_file_world (path : string) (file : File) (now : Z) (faults : list bool)
  : World :=
  mkWorld {[ path := file ]} [] now faults map_to_list [].

Definition responses_path : string :=
  "/var/log/cliproxyapi/api-provider-agy-responses-2026-01-08T103603-6dcb09d0.log".

Definition messages_path : string :=
  "/var/log/cliproxyapi/api-provider-agy-v1-messages-2026-01-08T103603-6dcb09d0.log".

Definition main_path : string := "/var/log/cliproxyapi/main.log".

Definition rotated_main_path : string :=
  "/var/log/cliproxyapi/main-2026-01-08T12-44-49.243.log".

Definition transaction_text : string :=
  join_lines [ "=== REQUEST INFO ===";
               "Version: 1.0";
               "URL: /v1/responses";
               "Method: POST";
               "";
               "=== RESPONSE ===";
               "Status: 200" ].

(** 2026-01-08T10:36:03Z, ten seconds later and one hour later, in
    nanoseconds since the epoch. *)
Definition t_written : Z := 1767868563000000000.
Definition t_soon : Z := 1767868573000000000.
Definition t_later : Z := 1767872163000000000.

Definition transaction_file : File :=
  mkFile (mkFileInfo 95 t_written) (ReadOK transaction_text).

Definition three_lines : string := join_lines [health_line; health_line; health_line].

Definition main_file : File := mkFile (mkFileInfo 299 t_written) (ReadOK three_lines).

(** The defaults, with deletion after collection switched on. *)
Definition delete_config : Config := mkConfig 1000 true 300 (LogTypes default_config).

(** The defaults, with batches of two entries. *)
Definition small_batch_config : Config := mkConfig 2 false 300 (LogTypes default_config).


(* ===================================================================== *)
(** * More of the code, and the notions its properties need *)
(* ===================================================================== *)

(** A question to the store: it writes nothing. *)
Definition is_query (e : event) : bool :=
  match e with EvIsFileProcessed _ _ _ _ => true | _ => false end.

(** The file a call on a collaborator is about. *)
Definition event_path (e : event) : string :=
  match e with
  | EvIsFileProcessed path _ _ _ => path
  | EvInsertMainLogs _ logFile _ => logFile
  | EvInsertAPILog _ logFile _ => logFile
  | EvInsertEventBatch _ logFile _ => logFile
  | EvMarkFileProcessed row _ => r_path row
  | EvRemove path _ => path
  end.

(** The count [processFile] writes for the records of a file: one for
    each main-log entry, one for a transaction, the number of events of an
    event batch. *)
Definition record_count (records : list log_record) : Z :=
  Z.of_nat (list_sum (map (fun r => match r with
                                    | RecEvents entry => length (e_Events entry)
                                    | _ => 1
                                    end) records)).

(** The files after a collected file was dealt with under [cfg]. *)
Definition files_after (cfg : Config) (w : World) (filePath : string) (info : FileInfo)
  : gmap string File :=
  if (ShouldDeleteAfterCollect cfg (LogType_string (DetermineLogType filePath))
      && removal_allowed cfg (w_now w) filePath info)%bool
  then delete filePath (w_files w) else w_files w.

(** The README's sample configuration: event batches are not collected. *)
Definition no_events_config : Config :=
  let on := mkLogTypeConfig true None in
  mkConfig 1000 false 300 (mkLogTypesConfig on on on on on on (mkLogTypeConfig false None)).

Definition batch_path : string :=
  "/var/log/cliproxyapi/api-provider-agy-api-event_logging-batch-2026-01-08T103603-6dcb09d0.log".

(** [w'] comes from [w] by calls that are all about the file [path]. *)
Definition calls_about (path : string) (w w' : World) : Prop :=
  exists evs, w_trace w' = w_trace w ++ evs
              /\ Forall (fun e => event_path e = path) evs.

(** The batches of main-log entries given to [InsertMainLogs], in order. *)
Definition sent_batches (evs : list event) : list (list MainLogEntry) :=
  omap (fun e => match e with
                 | EvInsertMainLogs entries _ _ => Some entries
                 | _ => None
                 end) evs.

(** Batches cut from a slice with batch size [n]: none is empty or longer
    than [n], and all but the last are full. *)
Definition well_cut (n : nat) (batches : list (list MainLogEntry)) : Prop :=
  Forall (fun b => (1 <= length b <= n)%nat) batches
  /\ Forall (fun b => length b = n) (take (length batches - 1) batches).

(** The byte [c], [n] times. *)
Fixpoint repeat_byte (n : nat) (c : ascii) : string :=
  match n with
  | O => ""
  | S n' => String c (repeat_byte n' c)
  end.

(** A main log that is one line of [a]s, as long as the scanner's buffer. *)
Definition long_line : string := repeat_byte maxTokenSize "a".

Definition long_line_file : File :=
  mkFile (mkFileInfo (Z.of_nat maxTokenSize) t_written) (ReadOK long_line).

(** A main log that is one line of [a]s, twice as long as the scanner's
    buffer. *)
Definition longer_line : string := repeat_byte (2 * maxTokenSize) "a".

(** A minimum age of ten thousand million seconds (some 317 years), with
    deletion after collection switched on. *)
Definition long_age_config : Config :=
  mkConfig 1000 true 10000000000 (LogTypes default_config).

(** One second after [t_written]. *)
Definition t_next_second : Z := 1767868564000000000.

(** ** What a pattern can match *)

(** The matcher of [Regexp] searches; the relation below says what it may
    find.  [reach r st st'] holds when [r] can match from the state [st] to
    the state [st'], each round of a star taking at least one byte. *)
Module Match.

Import Regexp.

(** The state after group [n], opened at offset [start], is closed. *)
Definition close_group (n start : nat) (st : mstate) : mstate :=
  MState (ms_pos st) (ms_prev st) (ms_rest st) ((n, (start, ms_pos st)) :: ms_caps st).

Inductive reach : re -> mstate -> mstate -> Prop :=
| reach_empty (st : mstate) : reach Empty st st
| reach_lit (c : ascii) (st st' : mstate) :
    step_byte st = Some (c, st') -> reach (Lit c) st st'
| reach_class (p : ascii -> bool) (a : ascii) (st st' : mstate) :
    step_byte st = Some (a, st') -> p a = true -> reach (Class p) st st'
| reach_cat (r1 r2 : re) (st mid st' : mstate) :
    reach r1 st mid -> reach r2 mid st' -> reach (Cat r1 r2) st st'
| reach_alt_l (r1 r2 : re) (st st' : mstate) :
    reach r1 st st' -> reach (Alt r1 r2) st st'
| reach_alt_r (r1 r2 : re) (st st' : mstate) :
    reach r2 st st' -> reach (Alt r1 r2) st st'
| reach_star_stop (greedy : bool) (r : re) (st : mstate) :
    reach (Star greedy r) st st
| reach_star_more (greedy : bool) (r : re) (st mid st' : mstate) :
    reach r st mid -> ms_pos mid <> ms_pos st -> reach (Star greedy r) mid st' ->
    reach (Star greedy r) st st'
| reach_cap (n : nat) (r : re) (st st' : mstate) :
    reach r st st' -> reach (Cap n r) st (close_group n (ms_pos st) st')
| reach_begin_text (st : mstate) : ms_pos st = 0 -> reach BeginText st st
| reach_end_text (st : mstate) : at_text_end st = true -> reach EndText st st
| reach_begin_line (st : mstate) : at_line_start st = true -> reach BeginLine st st
| reach_end_line (st : mstate) : at_line_end st = true -> reach EndLine st st.

(** The loop of a star, as [run] makes it: [body] is the matcher of the
    starred pattern, [k] what follows the star. *)
Section Iterate.

Variables (greedy : bool) (body : mstate -> (mstate -> option mstate) -> option mstate)
          (k : mstate -> option mstate).

Fixpoint iterate (fuel : nat) (st : mstate) {struct fuel} : option mstate :=
  match fuel with
  | O => k st
  | S fuel' =>
      let more (_ : unit) :=
        body st (fun st' =>
          if Nat.eqb (ms_pos st') (ms_pos st) then None
          else iterate fuel' st') in
      if greedy then
        match more tt with
        | Some m => Some m
        | None => k st
        end
      else
        match k st with
        | Some m => Some m
        | None => more tt
        end
  end.

End Iterate.

(** Every byte of [s] is in the class [p]. *)
Fixpoint all_bytes (p : ascii -> bool) (s : string) : bool :=
  match s with
  | "" => true
  | String c s' => (p c && all_bytes p s')%bool
  end.

(** From [st] to [st'] the matcher has read [txt] and closed no group. *)
Definition passes (st : mstate) (txt : string) (st' : mstate) : Prop :=
  ms_rest st = txt +:+ ms_rest st'
  /\ ms_pos st' = (ms_pos st + String.length txt)%nat
  /\ ms_caps st' = ms_caps st.

End Match.

(** [fits template s]: [s] is as long as [template] and has a digit where
    the template has the letter [d], the template's own byte elsewhere. *)
Fixpoint fits (template s : string) : bool :=
  match template, s with
  | "", "" => true
  | String t template', String c s' =>
      ((if Ascii.eqb t "d" then GoStr.is_digit c else Ascii.eqb c t) && fits template' s')%bool
  | _, _ => false
  end.

(** A run of digits or one literal byte: the pieces the date patterns are
    made of, with the pattern and the template each stands for. *)
Inductive piece : Type :=
| Digits (n : nat)
| Byte (c : ascii).

Definition piece_re (p : piece) : Regexp.re :=
  match p with
  | Digits n => Regexp.rep n Regexp.digit
  | Byte c => Regexp.Lit c
  end.

Definition piece_template (p : piece) : string :=
  match p with
  | Digits n => repeat_byte n "d"
  | Byte c => String c ""
  end.

Definition pieces_template (ps : list piece) : string :=
  foldr (fun p t => piece_template p +:+ t) "" ps.

Definition is_literal (p : piece) : bool :=
  match p with
  | Digits _ => true
  | Byte c => negb (Ascii.eqb c "d")
  end.

(** From [st] to [st'] the matcher has read [txt] as group [n]. *)
Definition groups (st : Regexp.mstate) (n : nat) (txt : string) (st' : Regexp.mstate) : Prop :=
  Regexp.ms_rest st = txt +:+ Regexp.ms_rest st'
  /\ Regexp.ms_pos st' = (Regexp.ms_pos st + String.length txt)%nat
  /\ Regexp.ms_caps st'
     = (n, (Regexp.ms_pos st, (Regexp.ms_pos st + String.length txt)%nat)) :: Regexp.ms_caps st.

(** Any byte but a line feed: the class of the dot. *)
Definition not_nl (c : ascii) : bool := negb (Regexp.is_nl c).

(** The date and time in the name of an API log file. *)
Definition api_stamp : string := "dddd-dd-ddTdddddd".

Definition api_stamp_pieces : list piece :=
  [Digits 4; Byte "-"; Digits 2; Byte "-"; Digits 2; Byte "T"; Digits 6].

(** The date and time at the head of a main-log line. *)
Definition line_stamp : string := "dddd-dd-dd dd:dd:dd".

Definition line_stamp_pieces : list piece :=
  [Digits 4; Byte "-"; Digits 2; Byte "-"; Digits 2; Byte " ";
   Digits 2; Byte ":"; Digits 2; Byte ":"; Digits 2].

(** Any byte but a closing bracket. *)
Definition not_bracket (c : ascii) : bool := negb (Ascii.eqb c "]").

(** A main-log line with its five fields; [pad] is the white space that
    fills the level column. *)
Definition main_line (ts rid lvl pad src msg : string) : string :=
  "[" +:+ ts +:+ "] [" +:+ rid +:+ "] [" +:+ lvl +:+ pad +:+ "] [" +:+ src +:+ "] " +:+ msg.

(** What makes the six parts of a line well formed. *)
Definition main_fields (ts rid lvl pad src msg : string) : Prop :=
  fits line_stamp ts = true
  /\ rid <> "" /\ Match.all_bytes not_bracket rid = true
  /\ lvl <> "" /\ Match.all_bytes Regexp.is_word lvl = true
  /\ Match.all_bytes Regexp.is_space pad = true
  /\ src <> "" /\ Match.all_bytes not_bracket src = true
  /\ Match.all_bytes not_nl msg = true.

(** The message of the documented health line. *)
Definition health_message : string :=
  "200 |    12ms |   1.2.3.4 | GET    " +:+ GoStr.quoted "/health".

(** ** Sections in any order *)

(** A section of an upstream call: [API REQUEST n] or [API RESPONSE n]. *)
Definition is_upstream_section (section : string * string) : bool :=
  (GoStr.HasPrefix section.1 "API REQUEST" || GoStr.HasPrefix section.1 "API RESPONSE")%bool.

(** Applying [f] and [g] in either order gives the same entry. *)
Definition commute (f g : APILogEntry -> APILogEntry) : Prop :=
  forall entry, f (g entry) = g (f entry).

(* ===================================================================== *)
(** * Properties *)
(* ===================================================================== *)

(** ** File names *)

Lemma last_element_no_sep (s : string) :
  Filepath.has_sep (Filepath.last_element s) = false.
Proof.
  induction s as [|c s IH]; [reflexivity|].
  change (Filepath.last_element (String c s))
    with (if Filepath.has_sep (String c s) then Filepath.last_element s else String c s).
  destruct (Filepath.has_sep (String c s)) eqn:E; [exact IH | exact E].
Qed.

Lemma last_element_id (s : string) :
  Filepath.has_sep s = false -> Filepath.last_element s = s.
Proof.
  destruct s as [|c s]; [reflexivity|]. intros H.
  change (Filepath.last_element (String c s))
    with (if Filepath.has_sep (String c s) then Filepath.last_element s else String c s).
  now rewrite H.
Qed.

Lemma strip_trailing_seps_id (s : string) :
  Filepath.has_sep s = false -> Filepath.strip_trailing_seps s = s.
Proof.
  induction s as [|c s IH]; [reflexivity|]. simpl.
  destruct (Filepath.is_sep c) eqn:Ec; [discriminate|]. simpl. intros H.
  rewrite (IH H). destruct s; reflexivity.
Qed.

(** A name without separators is its own base. *)
Lemma Base_of_element (b : string) :
  b <> "" -> Filepath.has_sep b = false -> Filepath.Base b = b.
Proof.
  intros Hne Hsep. unfold Filepath.Base. destruct b as [|c b]; [congruence|].
  rewrite (strip_trailing_seps_id _ Hsep), (last_element_id _ Hsep). reflexivity.
Qed.

(** [Base] returns ["."], ["/"] or a non-empty name without separators. *)
Lemma Base_shape (path : string) :
  Filepath.Base path = "." \/ Filepath.Base path = "/"
  \/ (Filepath.Base path <> "" /\ Filepath.has_sep (Filepath.Base path) = false).
Proof.
  unfold Filepath.Base. destruct path as [|c p]; [now left|].
  destruct (Filepath.last_element (Filepath.strip_trailing_seps (String c p)))
    as [|c' b] eqn:E; [now right; left|].
  right; right. split; [discriminate|]. rewrite <- E. apply last_element_no_sep.
Qed.

Lemma Base_idempotent (path : string) :
  Filepath.Base (Filepath.Base path) = Filepath.Base path.
Proof.
  destruct (Base_shape path) as [-> | [-> | [Hne Hsep]]]; [reflexivity..|].
  now apply Base_of_element.
Qed.

(** C10.  Classification and correlation-id extraction look at the base
    name only: for every path [p], [DetermineLogType p] is
    [DetermineLogType] of the base name of [p], and
    [ExtractRequestIDFromFilename p] is [ExtractRequestIDFromFilename] of
    the base name of [p]; the directory part never matters. *)
Theorem base_name_decides (p : string) :
  DetermineLogType p = DetermineLogType (Filepath.Base p)
  /\ ExtractRequestIDFromFilename p = ExtractRequestIDFromFilename (Filepath.Base p).
Proof.
  unfold DetermineLogType, ExtractRequestIDFromFilename.
  rewrite Base_idempotent. split; reflexivity.
Qed.

(** Two paths with the same base name are classified alike. *)
Corollary same_base_same_type (p q : string) :
  Filepath.Base p = Filepath.Base q -> DetermineLogType p = DetermineLogType q.
Proof.
  intros H. unfold DetermineLogType. now rewrite H.
Qed.

(** ** Classification *)

Lemma prefix_app (p q s : string) :
  String.prefix (p +:+ q) s = true -> String.prefix p s = true.
Proof.
  revert s. induction p as [|a p IH]; intros s; [now destruct s|].
  destruct s as [|b s]; simpl; [discriminate|].
  destruct (ascii_dec a b); [apply IH | discriminate].
Qed.

(** A name that does not start with [p] starts with no extension of [p]. *)
Lemma HasPrefix_longer (base p q : string) :
  GoStr.HasPrefix base p = false -> GoStr.HasPrefix base (p +:+ q) = false.
Proof.
  unfold GoStr.HasPrefix. intros H.
  destruct (String.prefix (p +:+ q) base) eqn:E; [|reflexivity].
  apply prefix_app in E. congruence.
Qed.

(** C5.  [DetermineLogType] is a total function of the file name, and on
    the base name [base] of its argument it answers: [main] when [base]
    matches the main-log timestamp pattern or is [main.log]; otherwise the
    kind of the first prefix that [base] starts with, in the order
    event_batch, provider_count_tokens, provider_responses,
    provider_messages, v1_count_tokens, v1_messages; and [main] when no
    rule applies. *)
Theorem DetermineLogType_rules (filename : string) :
  let base := Filepath.Base filename in
  let starts := GoStr.HasPrefix base in
  (Regexp.MatchString mainLogFilePattern base = true \/ base = "main.log" ->
   DetermineLogType filename = LogTypeMain)
  /\ (is_main_name base = false ->
      (starts "api-provider-agy-api-event_logging-batch" = true ->
       DetermineLogType filename = LogTypeEventBatch)
      /\ (starts "api-provider-agy-api-event_logging-batch" = false ->
          starts "api-provider-agy-v1-messages-count_tokens" = true ->
          DetermineLogType filename = LogTypeProviderCountTokens)
      /\ (starts "api-provider-agy-api-event_logging-batch" = false ->
          starts "api-provider-agy-v1-messages-count_tokens" = false ->
          starts "api-provider-agy-responses" = true ->
          DetermineLogType filename = LogTypeProviderResponses)
      /\ (starts "api-provider-agy-api-event_logging-batch" = false ->
          starts "api-provider-agy-v1-messages-count_tokens" = false ->
          starts "api-provider-agy-responses" = false ->
          starts "api-provider-agy" = true ->
          DetermineLogType filename = LogTypeProviderMessages)
      /\ (starts "api-provider-agy" = false ->
          starts "v1-messages-count_tokens" = true ->
          DetermineLogType filename = LogTypeV1CountTokens)
      /\ (starts "api-provider-agy" = false ->
          starts "v1-messages-count_tokens" = false ->
          starts "v1-messages" = true ->
          DetermineLogType filename = LogTypeV1Messages)
      /\ (starts "api-provider-agy" = false ->
          starts "v1-messages" = false ->
          DetermineLogType filename = LogTypeMain)).
Proof.
  cbv zeta. unfold DetermineLogType, is_main_name.
  set (base := Filepath.Base filename).
  assert (H1 : GoStr.HasPrefix base "api-provider-agy" = false ->
               GoStr.HasPrefix base "api-provider-agy-api-event_logging-batch" = false)
    by apply (HasPrefix_longer base "api-provider-agy" "-api-event_logging-batch").
  assert (H2 : GoStr.HasPrefix base "api-provider-agy" = false ->
               GoStr.HasPrefix base "api-provider-agy-v1-messages-count_tokens" = false)
    by apply (HasPrefix_longer base "api-provider-agy" "-v1-messages-count_tokens").
  assert (H3 : GoStr.HasPrefix base "api-provider-agy" = false ->
               GoStr.HasPrefix base "api-provider-agy-responses" = false)
    by apply (HasPrefix_longer base "api-provider-agy" "-responses").
  assert (H4 : GoStr.HasPrefix base "v1-messages" = false ->
               GoStr.HasPrefix base "v1-messages-count_tokens" = false)
    by apply (HasPrefix_longer base "v1-messages" "-count_tokens").
  split.
  - intros [-> | ->]; [reflexivity|].
    rewrite String.eqb_refl, orb_true_r. reflexivity.
  - intros ->. repeat split.
    + now intros ->.
    + now intros -> ->.
    + now intros -> -> ->.
    + now intros -> -> -> ->.
    + intros Hno ->. now rewrite (H1 Hno), (H2 Hno), (H3 Hno), Hno.
    + intros Hno -> ->. now rewrite (H1 Hno), (H2 Hno), (H3 Hno), Hno.
    + intros Hno Hv. now rewrite (H1 Hno), (H2 Hno), (H3 Hno), Hno, (H4 Hv), Hv.
Qed.

(** Every rule of [DetermineLogType_rules] applies to some name. *)
Lemma DetermineLogType_rules_witness :
  DetermineLogType "/var/log/cpa/main-2026-01-08T12-44-49.243.log" = LogTypeMain
  /\ DetermineLogType "main.log" = LogTypeMain
  /\ DetermineLogType "api-provider-agy-api-event_logging-batch-2026-01-08T103603-6dcb09d0.log"
     = LogTypeEventBatch
  /\ DetermineLogType "api-provider-agy-v1-messages-count_tokens-2026-01-08T103603-6dcb09d0.log"
     = LogTypeProviderCountTokens
  /\ DetermineLogType "api-provider-agy-responses-2026-01-08T103603-6dcb09d0.log"
     = LogTypeProviderResponses
  /\ DetermineLogType "api-provider-agy-v1-messages-2026-01-08T103603-6dcb09d0.log"
     = LogTypeProviderMessages
  /\ DetermineLogType "v1-messages-count_tokens-2026-01-08T103603-6dcb09d0.log"
     = LogTypeV1CountTokens
  /\ DetermineLogType "logs/v1-messages-2026-01-08T103603-6dcb09d0.log" = LogTypeV1Messages
  /\ DetermineLogType "notes.txt" = LogTypeMain.
Proof.
  split; [|split; [|split; [|split; [|split; [|split; [|split; [|split]]]]]]].
  - apply (proj1 (DetermineLogType_rules "/var/log/cpa/main-2026-01-08T12-44-49.243.log")).
    left. vm_compute. reflexivity.
  - apply (proj1 (DetermineLogType_rules "main.log")). right. reflexivity.
  - destruct (proj2 (DetermineLogType_rules
        "api-provider-agy-api-event_logging-batch-2026-01-08T103603-6dcb09d0.log") eq_refl)
      as (R & _).
    apply R. reflexivity.
  - destruct (proj2 (DetermineLogType_rules
        "api-provider-agy-v1-messages-count_tokens-2026-01-08T103603-6dcb09d0.log") eq_refl)
      as (_ & R & _).
    apply R; reflexivity.
  - destruct (proj2 (DetermineLogType_rules
        "api-provider-agy-responses-2026-01-08T103603-6dcb09d0.log") eq_refl)
      as (_ & _ & R & _).
    apply R; reflexivity.
  - destruct (proj2 (DetermineLogType_rules
        "api-provider-agy-v1-messages-2026-01-08T103603-6dcb09d0.log") eq_refl)
      as (_ & _ & _ & R & _).
    apply R; reflexivity.
  - destruct (proj2 (DetermineLogType_rules
        "v1-messages-count_tokens-2026-01-08T103603-6dcb09d0.log") eq_refl)
      as (_ & _ & _ & _ & R & _).
    apply R; reflexivity.
  - destruct (proj2 (DetermineLogType_rules
        "logs/v1-messages-2026-01-08T103603-6dcb09d0.log") eq_refl)
      as (_ & _ & _ & _ & _ & R & _).
    apply R; reflexivity.
  - destruct (proj2 (DetermineLogType_rules "notes.txt") eq_refl)
      as (_ & _ & _ & _ & _ & _ & R).
    apply R; reflexivity.
Defined.

(** ** The main log *)

Lemma no_match_no_groups (r : Regexp.re) (s : string) :
  Regexp.MatchString r s = false -> Regexp.FindStringSubmatch r s = [].
Proof.
  unfold Regexp.MatchString, Regexp.FindStringSubmatch.
  destruct (Regexp.exec r s); [discriminate | reflexivity].
Qed.

Lemma parseMainLogLine_unmatched (line : string) :
  Regexp.MatchString mainLogPattern line = false ->
  parseMainLogLine line = (MainLogEntry_zero, false).
Proof.
  intros H. unfold parseMainLogLine. rewrite (no_match_no_groups _ _ H). reflexivity.
Qed.

(** A line that fills the scanner's buffer ends the scan with an error,
    whatever it holds. *)
Lemma scan_main_too_long (raw : string) (rest : list string) (entries : list MainLogEntry) :
  maxTokenSize <= String.length raw ->
  scan_main (raw :: rest) entries = (entries, Some ErrTooLong).
Proof.
  intros H. cbn [scan_main]. apply Nat.leb_le in H. now rewrite H.
Qed.

Lemma scan_main_cons (raw : string) (rest : list string) (entries : list MainLogEntry) :
  scan_main (raw :: rest) entries =
  if Nat.leb maxTokenSize (String.length raw) then (entries, Some ErrTooLong)
  else let '(entry, ok) := parseMainLogLine (dropCR raw) in
       scan_main rest (if ok then entries ++ [entry] else entries).
Proof. reflexivity. Qed.

Lemma scan_main_skips (raw : string) (rest : list string) (entries : list MainLogEntry) :
  String.length raw < maxTokenSize ->
  Regexp.MatchString mainLogPattern (dropCR raw) = false ->
  scan_main (raw :: rest) entries = scan_main rest entries.
Proof.
  intros Hlen Hno. rewrite scan_main_cons.
  apply Nat.leb_gt in Hlen. rewrite Hlen.
  rewrite (parseMainLogLine_unmatched _ Hno). reflexivity.
Qed.

(** C7, as amended.  [ParseMainLog] on a file holding the single line
    [[2026-01-08 09:29:48] [a3523f75] [info ] [main.go:413] 200 |    12ms |   1.2.3.4 | GET    "/health"]
    returns exactly one entry and no error; its correlation id is
    [a3523f75], its level [info] (without the space before the bracket),
    its status code 200, its method [GET] and its path [/health].  A line
    that does not match the five-group pattern gives no entry:
    [parseMainLogLine] answers [false] for it.  When such a line is shorter
    than the scanner's buffer of 1 MiB, the loop of [ParseMainLog] leaves
    the entries as they are and the scan goes on without an error.  The
    bound is needed: a line that does not fit the buffer ends the scan with
    an error, matching or not. *)
Theorem ParseMainLog_health_line_and_unmatched :
  (exists e,
      ParseMainLog (ReadOK health_line) = ([e], None)
      /\ m_RequestID e = "a3523f75" /\ m_Level e = "info" /\ m_StatusCode e = 200%Z
      /\ m_Method e = "GET" /\ m_Path e = "/health")
  /\ (forall line,
         Regexp.MatchString mainLogPattern line = false ->
         parseMainLogLine line = (MainLogEntry_zero, false))
  /\ (forall raw rest entries,
         String.length raw < maxTokenSize ->
         Regexp.MatchString mainLogPattern (dropCR raw) = false ->
         scan_main (raw :: rest) entries = scan_main rest entries).
Proof.
  split; [|split].
  - eexists. split; [vm_compute; reflexivity|]. repeat split.
  - exact parseMainLogLine_unmatched.
  - exact scan_main_skips.
Qed.

Lemma short_line (s : string) :
  Nat.ltb (String.length s) 1000 = true -> String.length s < maxTokenSize.
Proof.
  intros H. apply Nat.ltb_lt in H. unfold maxTokenSize.
  assert (1000 <= 1024 * 1024) by (apply Nat.leb_le; vm_compute; reflexivity). lia.
Qed.

Lemma ParseMainLog_unmatched_witness :
  parseMainLogLine "goroutine 1 [running]:" = (MainLogEntry_zero, false)
  /\ ParseMainLog (ReadOK (join_lines ["goroutine 1 [running]:"; health_line]))
     = ParseMainLog (ReadOK health_line).
Proof.
  destruct ParseMainLog_health_line_and_unmatched as (_ & Hline & Hloop).
  split.
  - apply Hline. vm_compute. reflexivity.
  - change (ParseMainLog (ReadOK (join_lines ["goroutine 1 [running]:"; health_line])))
      with (scan_main ("goroutine 1 [running]:" :: raw_lines health_line) []).
    apply Hloop.
    + apply short_line. vm_compute. reflexivity.
    + vm_compute. reflexivity.
Defined.

(** ** Streamed responses *)

Lemma append_cons (c : ascii) (s t : string) : String c s +:+ t = String c (s +:+ t).
Proof. reflexivity. Qed.

Lemma append_nil_r (s : string) : s +:+ "" = s.
Proof. induction s as [|c s IH]; [reflexivity|]. now rewrite append_cons, IH. Qed.

Lemma append_assoc (a b c : string) : (a +:+ b) +:+ c = a +:+ (b +:+ c).
Proof. induction a as [|x a IH]; [reflexivity|]. now rewrite !append_cons, IH. Qed.

Lemma stream_line_appends (fullContent line : string) :
  stream_line fullContent line = fullContent +:+ line_fragments line.
Proof.
  unfold stream_line, line_fragments, data_payload, delta_text, choice_delta_content.
  destruct (GoStr.HasPrefix (GoStr.TrimSpace line) "data:"); simpl;
    [|now rewrite append_nil_r].
  destruct (String.eqb _ "[DONE]"); [now rewrite append_nil_r|].
  destruct (Json.Unmarshal_map _) as [data|]; [|now rewrite append_nil_r].
  repeat match goal with
         | |- context [match ?x with _ => _ end] => destruct x
         end;
    rewrite ?append_nil_r, ?append_assoc; reflexivity.
Qed.

Lemma foldl_stream_line (lines : list string) (fullContent : string) :
  foldl stream_line fullContent lines
  = fullContent +:+ concat_all (map line_fragments lines).
Proof.
  revert fullContent. induction lines as [|line lines IH]; intros acc; simpl.
  - now rewrite append_nil_r.
  - rewrite IH, stream_line_appends, append_assoc. reflexivity.
Qed.

(** C6.  For every input text, [extractFullStreamResponse] returns the
    concatenation, in line order and without separators, of what each line
    contributes ([line_fragments]): for a line that, trimmed of white
    space, begins with [data:], the [delta.text] string and then the
    [choices[0].delta.content] string of its JSON payload; nothing for any
    other line, for the payload [[DONE]], for a payload that does not
    decode, and for a payload of any other shape.  No line stops the
    lines after it from being read.  The two documented inputs give ["AB"]
    and ["X"], and a malformed line between two valid ones changes
    nothing. *)
Theorem extractFullStreamResponse_concat :
  (forall body,
      extractFullStreamResponse body
      = concat_all (map line_fragments (GoStr.SplitLines body)))
  /\ extractFullStreamResponse
       (join_lines [claude_delta "A"; claude_delta "B"; "data: [DONE]"]) = "AB"
  /\ extractFullStreamResponse (openai_delta "X") = "X"
  /\ extractFullStreamResponse
       (join_lines [claude_delta "A"; "data: {broken"; "event: ping"; claude_delta "B"])
     = "AB".
Proof.
  split; [|split; [|split]].
  - intros body. unfold extractFullStreamResponse. apply foldl_stream_line.
  - vm_compute. reflexivity.
  - vm_compute. reflexivity.
  - vm_compute. reflexivity.
Qed.

(** ** Event batches *)

(** C8.  For a readable event-batch file whose [REQUEST BODY] section does
    not decode as JSON, [ParseEventBatchLog] returns an entry and no error;
    the entry carries the correlation id taken from the file name, the
    timestamp read from [REQUEST INFO], and no events. *)
Theorem ParseEventBatchLog_undecodable_body (content filepath body : string) :
  splitSections content !! "REQUEST BODY" = Some body ->
  Json.Unmarshal_events (GoStr.TrimSpace body) = None ->
  ParseEventBatchLog (ReadOK content) filepath
  = Ok (mkEventBatchEntry (ExtractRequestIDFromFilename filepath)
                          (request_info_timestamp (splitSections content))
                          []).
Proof.
  intros Hbody Hjson. unfold ParseEventBatchLog, request_info_timestamp.
  rewrite Hbody, Hjson. reflexivity.
Qed.

Lemma ParseEventBatchLog_undecodable_body_witness :
  ParseEventBatchLog (ReadOK broken_batch)
    "/logs/api-provider-agy-api-event_logging-batch-2026-01-08T103603-6dcb09d0.log"
  = Ok (mkEventBatchEntry "6dcb09d0" (TimeParse RFC3339Nano "2026-01-08T10:36:03.5Z") []).
Proof.
  apply (ParseEventBatchLog_undecodable_body broken_batch
           "/logs/api-provider-agy-api-event_logging-batch-2026-01-08T103603-6dcb09d0.log"
           ("{" +:+ GoStr.quoted "events" +:+ ": [ {")).
  - vm_compute. reflexivity.
  - vm_compute. reflexivity.
Defined.

(** ** Upstream calls *)


Lemma foldl_preserves {A B : Type} (P : A -> Prop) (f : A -> B -> A) (l : list B) (a : A) :
  (forall a b, P a -> P (f a b)) -> P a -> P (foldl f a l).
Proof.
  intros Hf. revert a. induction l as [|b l IH]; intros a Ha; simpl; [exact Ha|].
  apply IH, Hf, Ha.
Qed.









(** ** The calls of [processFile] *)

Lemma handed_cons (e : event) (l : list event) : handed (e :: l) = handed_by e ++ handed l.
Proof. reflexivity. Qed.

Lemma marked_cons (e : event) (l : list event) : marked (e :: l) = (is_mark e || marked l)%bool.
Proof. reflexivity. Qed.

Lemma handed_nil : handed [] = [].
Proof. reflexivity. Qed.


Lemma handed_app (l1 l2 : list event) : handed (l1 ++ l2) = handed l1 ++ handed l2.
Proof. unfold handed. now rewrite map_app, concat_app. Qed.

Lemma marked_app (l1 l2 : list event) : marked (l1 ++ l2) = (marked l1 || marked l2)%bool.
Proof. apply existsb_app. Qed.

Lemma subslice_length {A} (lo hi : Z) (l : list A) :
  (0 <= lo <= hi)%Z -> (hi <= Z.of_nat (length l))%Z ->
  length (subslice lo hi l) = Z.to_nat (hi - lo).
Proof.
  intros H1 H2. unfold subslice. rewrite length_take, length_drop. lia.
Qed.

Lemma subslice_then_drop {A} (lo hi : Z) (l : list A) :
  (0 <= lo <= hi)%Z ->
  subslice lo hi l ++ drop (Z.to_nat hi) l = drop (Z.to_nat lo) l.
Proof.
  intros H. unfold subslice.
  replace (Z.to_nat hi) with (Z.to_nat lo + Z.to_nat (hi - lo))%nat by lia.
  rewrite <- drop_drop. apply take_drop.
Qed.

(** What the batch loop adds to the trace: inserts of main-log batches
    only.  When it ends normally it has handed over every entry from [i]
    on; when it does not, fewer. *)
Lemma batch_loop_events (fuel : nat) (i bs : Z) (entries : list MainLogEntry)
    (path : string) (w : World) :
  (0 <= i)%Z ->
  let r := batch_loop fuel i bs entries path w in
  exists evs,
    w_trace (loop_world r) = w_trace w ++ evs
    /\ w_processed (loop_world r) = w_processed w
    /\ w_files (loop_world r) = w_files w
    /\ w_now (loop_world r) = w_now w
    /\ forallb is_insert evs = true
    /\ match r with
       | LoopDone _ => handed evs = map RecMain (drop (Z.to_nat i) entries)
       | _ => (length (handed evs) < length entries - Z.to_nat i)%nat
       end.
Proof.
  revert i w. induction fuel as [|fuel IH]; intros i w Hi; cbv zeta.
  - unfold batch_loop.
    destruct (i <? Z.of_nat (length entries))%Z eqn:E; simpl.
    + exists []. rewrite app_nil_r. repeat split; try reflexivity.
      apply Z.ltb_lt in E. simpl. lia.
    + exists []. rewrite app_nil_r. repeat split; try reflexivity.
      apply Z.ltb_ge in E. simpl. rewrite drop_ge by lia. reflexivity.
  - cbn [batch_loop].
    destruct (i <? Z.of_nat (length entries))%Z eqn:E; cbn [negb].
    2:{ exists []. rewrite app_nil_r. repeat split; try reflexivity.
        apply Z.ltb_ge in E. simpl. rewrite drop_ge by lia. reflexivity. }
    apply Z.ltb_lt in E.
    set (end_ := if (i + bs >? Z.of_nat (length entries))%Z
                 then Z.of_nat (length entries) else (i + bs)%Z).
    assert (Hend : end_ = Z.min (i + bs) (Z.of_nat (length entries))).
    { unfold end_. destruct (Z.gtb_spec (i + bs) (Z.of_nat (length entries))); lia. }
    clearbody end_.
    destruct (end_ <? i)%Z eqn:F.
    { exists []. rewrite app_nil_r. repeat split; try reflexivity. simpl. lia. }
    apply Z.ltb_ge in F.
    destruct (InsertMainLogs w (subslice i end_ entries) path) as [ok w1] eqn:Hins.
    assert (Hw1 : w_trace w1 = w_trace w ++ [EvInsertMainLogs (subslice i end_ entries) path ok]
                  /\ w_processed w1 = w_processed w /\ w_files w1 = w_files w
                  /\ w_now w1 = w_now w).
    { unfold InsertMainLogs, request in Hins.
      destruct (subslice i end_ entries) eqn:Hs.
      - inversion Hins; subst. repeat split; reflexivity.
      - destruct (w_faults w); inversion Hins; subst; repeat split; reflexivity. }
    destruct Hw1 as (Ht1 & Hp1 & Hf1 & Hn1).
    assert (Hsl : length (subslice i end_ entries) = Z.to_nat (end_ - i))
      by (apply subslice_length; lia).
    destruct ok.
    + assert (Hi' : (0 <= i + bs)%Z) by lia.
      destruct (IH (i + bs)%Z w1 Hi') as (evs & Ht & Hp & Hf & Hn & Hm & Hh).
      exists (EvInsertMainLogs (subslice i end_ entries) path true :: evs).
      rewrite Ht, Hp, Hf, Hn, Ht1, Hp1, Hf1, Hn1, <- app_assoc.
      repeat split; try reflexivity.
      * cbn [forallb is_insert andb]. exact Hm.
      * change (handed (?e :: evs)) with (handed_by e ++ handed evs).
        cbn [handed_by].
        destruct (batch_loop fuel (i + bs) bs entries path w1) eqn:Hr;
          [| rewrite length_app, length_map, Hsl; lia ..].
        rewrite Hh, <- map_app. f_equal.
        destruct (Z.le_gt_cases (i + bs) (Z.of_nat (length entries))).
        -- replace end_ with (i + bs)%Z by lia. apply subslice_then_drop. lia.
        -- replace end_ with (Z.of_nat (length entries)) by lia.
           rewrite (drop_ge entries (Z.to_nat (i + bs))) by lia.
           rewrite app_nil_r. unfold subslice.
           rewrite take_ge by (rewrite length_drop; lia). reflexivity.
    + exists [EvInsertMainLogs (subslice i end_ entries) path false].
      cbn [loop_world]. rewrite Ht1, Hp1, Hf1, Hn1. repeat split; try reflexivity.
      simpl. lia.
Qed.

(** With a positive batch size the loop ends within [len(entries)]
    iterations: the model's fuel is enough and no slice is out of range. *)
Lemma batch_loop_ends (fuel : nat) (i bs : Z) (entries : list MainLogEntry) (path : string)
    (w : World) :
  (0 < bs)%Z -> (0 <= i)%Z -> (Z.of_nat (length entries) - i <= Z.of_nat fuel)%Z ->
  match batch_loop fuel i bs entries path w with
  | LoopDone _ | LoopFailed _ => True
  | LoopHangs _ | LoopPanics _ => False
  end.
Proof.
  intros Hbs. revert i w. induction fuel as [|fuel IH]; intros i w Hi Hfuel; cbn [batch_loop].
  - destruct (i <? Z.of_nat (length entries))%Z eqn:E; cbn [negb]; [|exact I].
    apply Z.ltb_lt in E. lia.
  - destruct (i <? Z.of_nat (length entries))%Z eqn:E; cbn [negb]; [|exact I].
    apply Z.ltb_lt in E.
    destruct (Z.gtb_spec (i + bs) (Z.of_nat (length entries))).
    + replace (Z.of_nat (length entries) <? i)%Z with false by (symmetry; apply Z.ltb_ge; lia).
      destruct (InsertMainLogs w _ path) as [[] w1]; [|exact I]. apply IH; lia.
    + replace (i + bs <? i)%Z with false by (symmetry; apply Z.ltb_ge; lia).
      destruct (InsertMainLogs w _ path) as [[] w1]; [|exact I]. apply IH; lia.
Qed.

(** With a positive batch size, [processFile] returns. *)
Lemma processFile_returns (cfg : Config) (w : World) (filePath : string) :
  (0 < BatchSize cfg)%Z -> exists w', processFile cfg w filePath = Returned w'.
Proof.
  intros Hbs. unfold processFile.
  destruct (w_files w !! filePath) as [file|]; [|eauto].
  destruct (IsFileProcessed w filePath _ _) as [[[]|] w1]; eauto.
  destruct (negb _); [eauto|].
  destruct (DetermineLogType filePath).
  - destruct (ParseMainLog (f_data file)) as [entries [err|]]; [eauto|].
    pose proof (batch_loop_ends (length entries) 0 (BatchSize cfg) entries filePath w1 Hbs
                  ltac:(lia) ltac:(lia)) as Hend.
    destruct (batch_loop _ _ _ _ _ _); try contradiction; eauto.
  - destruct (ParseAPILog _ _ _ _); [|eauto]. destruct (InsertAPILog _ _ _) as [[] ?]; eauto.
  - destruct (ParseAPILog _ _ _ _); [|eauto]. destruct (InsertAPILog _ _ _) as [[] ?]; eauto.
  - destruct (ParseAPILog _ _ _ _); [|eauto]. destruct (InsertAPILog _ _ _) as [[] ?]; eauto.
  - destruct (ParseAPILog _ _ _ _); [|eauto]. destruct (InsertAPILog _ _ _) as [[] ?]; eauto.
  - eauto.
  - destruct (ParseEventBatchLog _ _); [|eauto].
    destruct (InsertEventBatch _ _ _) as [[] ?]; eauto.
Qed.


Lemma inserts_quiet (evs : list event) :
  forallb is_insert evs = true -> forallb is_quiet evs = true.
Proof.
  induction evs as [|e evs IH]; [reflexivity|]. cbn [forallb]. intros H.
  apply andb_true_iff in H as [He Hevs]. rewrite (IH Hevs).
  destruct e; try discriminate; reflexivity.
Qed.

Lemma events_since_app (w w' : World) (evs : list event) :
  w_trace w' = w_trace w ++ evs -> events_since w w' = evs.
Proof. intros H. unfold events_since. rewrite H. apply drop_app_length. Qed.

Lemma events_since_refl (w : World) : events_since w w = [].
Proof. apply events_since_app. now rewrite app_nil_r. Qed.

Lemma IsFileProcessed_spec (w : World) (path : string) (size mtime : Z) :
  exists answer w1,
    IsFileProcessed w path size mtime = (answer, w1)
    /\ w_trace w1 = w_trace w ++ [EvIsFileProcessed path size mtime answer]
    /\ w_files w1 = w_files w /\ w_processed w1 = w_processed w
    /\ same_setting w w1
    /\ (answer = None
        \/ answer = Some (existsb (row_matches path size mtime) (w_processed w))).
Proof.
  unfold IsFileProcessed, request.
  destruct (w_faults w) as [|[] rest]; eexists _, _; (split; [reflexivity|]);
    repeat split; auto.
Qed.

Lemma InsertAPILog_spec (w : World) (entry : APILogEntry) (path : string) :
  exists ok w1,
    InsertAPILog w entry path = (ok, w1)
    /\ w_trace w1 = w_trace w ++ [EvInsertAPILog entry path ok]
    /\ w_files w1 = w_files w /\ w_processed w1 = w_processed w
    /\ same_setting w w1.
Proof.
  unfold InsertAPILog, request.
  destruct (w_faults w) as [|[] rest]; eexists _, _; (split; [reflexivity|]);
    repeat split; auto.
Qed.

Lemma InsertEventBatch_spec (w : World) (entry : EventBatchEntry) (path : string) :
  exists ok w1,
    InsertEventBatch w entry path = (ok, w1)
    /\ w_trace w1 = w_trace w ++ [EvInsertEventBatch entry path ok]
    /\ w_files w1 = w_files w /\ w_processed w1 = w_processed w
    /\ same_setting w w1.
Proof.
  unfold InsertEventBatch, request.
  destruct (e_Events entry); [|destruct (w_faults w) as [|[] rest]];
    eexists _, _; (split; [reflexivity|]); repeat split; auto.
Qed.

(** [tryDeleteFile] does nothing, or makes one call: the removal. *)
Lemma tryDeleteFile_spec (cfg : Config) (w : World) (path : string) (info : FileInfo) :
  let w' := tryDeleteFile cfg w path info in
  (removal_allowed cfg (w_now w) path info = false /\ w' = w)
  \/ (removal_allowed cfg (w_now w) path info = true
      /\ w_processed w' = w_processed w
      /\ exists removed,
           w_trace w' = w_trace w ++ [EvRemove path removed]
           /\ w_files w' = (if removed then delete path (w_files w) else w_files w)).
Proof.
  cbv zeta. unfold tryDeleteFile, removal_allowed, request.
  destruct (_ <? _)%Z; [auto|].
  destruct (String.eqb _ _); [auto|].
  destruct (w_faults w) as [|[] rest]; right; (split; [reflexivity|]);
    (split; [reflexivity|]); eexists; split; reflexivity.
Qed.

(** The end of a successful run: the mark, then at most the removal. *)
Lemma mark_and_delete_spec (cfg : Config) (w : World) (path : string) (info : FileInfo)
    (logTypeStr : string) (count : Z) :
  let w' := mark_and_delete cfg w path info logTypeStr count in
  let row := mkRow path (fi_Size info) (fi_ModTime info) count in
  exists ok rest,
    w_trace w' = w_trace w ++ EvMarkFileProcessed row ok :: rest
    /\ w_processed w' = (if ok then w_processed w ++ [row] else w_processed w)
    /\ after_mark cfg w w' path info logTypeStr ok rest.
Proof.
  cbv zeta. unfold mark_and_delete, after_mark.
  destruct (MarkFileProcessed w path (fi_Size info) (fi_ModTime info) count)
    as [ok w1] eqn:Hm.
  assert (H1 : w_trace w1
               = w_trace w ++ [EvMarkFileProcessed
                                 (mkRow path (fi_Size info) (fi_ModTime info) count) ok]
               /\ w_processed w1
                  = (if ok then w_processed w
                                 ++ [mkRow path (fi_Size info) (fi_ModTime info) count]
                     else w_processed w)
               /\ w_files w1 = w_files w /\ w_now w1 = w_now w).
  { unfold MarkFileProcessed, request in Hm.
    destruct (w_faults w) as [|[] fs]; inversion Hm; subst; repeat split; reflexivity. }
  destruct H1 as (Ht & Hp & Hf & Hn). exists ok.
  destruct ok; cbn [negb andb].
  - destruct (ShouldDeleteAfterCollect cfg logTypeStr) eqn:Hs.
    + destruct (tryDeleteFile_spec cfg w1 path info)
        as [[Hno ->] | (Hyes & Hp' & removed & Ht' & Hf')]; rewrite Hn in *.
      * exists []. rewrite Ht, Hp, Hf. split; [reflexivity|]. split; [reflexivity|].
        left. rewrite Hno. auto.
      * exists [EvRemove path removed]. rewrite Ht', Hp', Hf', Ht, Hp, Hf, <- app_assoc.
        split; [reflexivity|]. split; [reflexivity|]. right. rewrite Hyes. eauto 6.
    + exists []. rewrite Ht, Hp, Hf. split; [reflexivity|]. split; [reflexivity|].
      left. auto.
  - exists []. rewrite Ht, Hp, Hf. split; [reflexivity|]. split; [reflexivity|].
    left. auto.
Qed.








Lemma quiet_app (l1 l2 : list event) :
  forallb is_quiet (l1 ++ l2) = (forallb is_quiet l1 && forallb is_quiet l2)%bool.
Proof. apply forallb_app. Qed.

Ltac since H :=
  erewrite events_since_app by (rewrite H; rewrite <- ?app_assoc; reflexivity).

Lemma after_mark_from (cfg : Config) (w w2 w' : World) (path : string) (info : FileInfo)
    (lts : string) (ok : bool) (rest : list event) :
  w_files w2 = w_files w -> w_now w2 = w_now w ->
  after_mark cfg w2 w' path info lts ok rest -> after_mark cfg w w' path info lts ok rest.
Proof. unfold after_mark. intros -> ->. exact id. Qed.

Ltac shape_one_insert spec :=
  match goal with
  | |- context [match ?parse with Ok _ => _ | Err _ => _ end] =>
      destruct parse as [entry|err];
      [| left;
         match goal with
         | Hgive : forall o : outcome, _ |- _ => apply (Hgive (Returned _)); reflexivity
         end]
  end;
  match goal with
  | Ht1 : w_trace ?w1 = _, Hp1 : w_processed ?w1 = _, Hf1 : w_files ?w1 = _,
    Hdone : forall (w2 : World) (ins : list event) (count : Z), _
    |- context [let '(_, _) := ?ins ?w' ?e ?p in _] =>
      let Ht2 := fresh "Ht2" in
      let Hp2 := fresh "Hp2" in
      let Hf2 := fresh "Hf2" in
      let Hn2 := fresh "Hn2" in
      destruct (spec w' e p) as (ok & w2 & -> & Ht2 & Hf2 & Hp2 & _ & Hn2);
      destruct ok;
      [ right; apply (Hdone w2 _ _ Ht2 eq_refl Hp2 Hf2 Hn2)
      | left; unfold gives_up; cbn [world_of]; rewrite Ht1 in Ht2; since Ht2;
        rewrite Hp2, Hp1, Hf2, Hf1; repeat split; reflexivity ]
  end.

(** The calls of one [processFile].  Either it gives up: it makes neither
    a mark nor a removal, writes no row and leaves the files.  Or it returns
    after the mark of this file, which follows calls that are neither marks
    nor removals and is followed by at most the removal of this file. *)
Lemma processFile_shape (cfg : Config) (w : World) (filePath : string) :
  let o := processFile cfg w filePath in
  let evs := call_events cfg w filePath in
  gives_up w o evs \/ completes cfg w filePath o evs.
Proof.
  cbv zeta. unfold call_events, processFile.
  destruct (w_files w !! filePath) as [file|] eqn:Hfile; cbn [world_of].
  2:{ left. unfold gives_up. rewrite events_since_refl. repeat split; reflexivity. }
  destruct (IsFileProcessed_spec w filePath (fi_Size (f_info file)) (fi_ModTime (f_info file)))
    as (answer & w1 & -> & Ht1 & Hf1 & Hp1 & [_ Hn1] & _).
  assert (Hgive : forall o : outcome,
             world_of o = w1 -> gives_up w o (events_since w (world_of o))).
  { intros o Ho. unfold gives_up. rewrite Ho. since Ht1.
    repeat split; [exact Hp1 | exact Hf1]. }
  destruct answer as [[]|]; try (left; apply (Hgive (Returned w1)); reflexivity).
  destruct (Enabled (GetLogTypeConfig cfg (LogType_string (DetermineLogType filePath))));
    cbn [negb]; [| left; apply (Hgive (Returned w1)); reflexivity].
  assert (Hdone : forall (w2 : World) (ins : list event) (count : Z),
             w_trace w2 = w_trace w1 ++ ins -> forallb is_insert ins = true ->
             w_processed w2 = w_processed w1 ->
             w_files w2 = w_files w1 -> w_now w2 = w_now w1 ->
             let o := Returned (mark_and_delete cfg w2 filePath (f_info file)
                                  (LogType_string (DetermineLogType filePath)) count) in
             completes cfg w filePath o (events_since w (world_of o))).
  { intros w2 ins count Ht2 Hins Hp2 Hf2 Hn2. cbv zeta. unfold completes. cbn [world_of].
    destruct (mark_and_delete_spec cfg w2 filePath (f_info file)
                (LogType_string (DetermineLogType filePath)) count)
      as (ok & rest & Ht3 & Hp3 & Hrest).
    exists file, (EvIsFileProcessed filePath (fi_Size (f_info file))
                    (fi_ModTime (f_info file)) (Some false) :: ins), count, ok, rest.
    rewrite Ht2, Ht1 in Ht3. rewrite Hp2, Hp1 in Hp3.
    split; [exact Hfile|]. split; [reflexivity|]. split; [since Ht3; reflexivity|].
    split; [cbn [forallb is_quiet is_mark is_remove negb andb]; now apply inserts_quiet|].
    split; [exact Hp3|].
    apply (after_mark_from cfg w w2); [congruence | congruence | exact Hrest]. }
  destruct (DetermineLogType filePath) eqn:Hkind.
  - (* main *)
    destruct (ParseMainLog (f_data file)) as [entries [err|]];
      [left; apply (Hgive (Returned w1)); reflexivity|].
    destruct (batch_loop_events (length entries) 0 (BatchSize cfg) entries filePath w1
                ltac:(lia)) as (evs & Ht & Hp & Hf & Hn & Hins & _).
    destruct (batch_loop (length entries) 0 (BatchSize cfg) entries filePath w1)
      as [w2|w2|w2|w2]; cbn [world_of loop_world] in *.
    + right. apply (Hdone w2 evs _ Ht Hins Hp Hf Hn).
    + left. unfold gives_up. cbn [world_of]. rewrite Ht1 in Ht. since Ht.
      rewrite Hp, Hp1, Hf, Hf1. repeat split.
      cbn [app forallb is_quiet is_mark is_remove negb andb]. now apply inserts_quiet.
    + left. unfold gives_up. cbn [world_of]. rewrite Ht1 in Ht. since Ht.
      rewrite Hp, Hp1, Hf, Hf1. repeat split.
      cbn [app forallb is_quiet is_mark is_remove negb andb]. now apply inserts_quiet.
    + left. unfold gives_up. cbn [world_of]. rewrite Ht1 in Ht. since Ht.
      rewrite Hp, Hp1, Hf, Hf1. repeat split.
      cbn [app forallb is_quiet is_mark is_remove negb andb]. now apply inserts_quiet.
  - shape_one_insert InsertAPILog_spec.
  - shape_one_insert InsertAPILog_spec.
  - shape_one_insert InsertAPILog_spec.
  - shape_one_insert InsertAPILog_spec.
  - right. apply (Hdone w1 [] 0%Z); [now rewrite app_nil_r | reflexivity..].
  - shape_one_insert InsertEventBatch_spec.
Qed.

(** ** Deletion *)

Lemma seconds_exact (n : Z) :
  (GoStr.MinInt64 <= n * 1000000000 <= GoStr.MaxInt64)%Z -> seconds n = (n * 1000000000)%Z.
Proof.
  unfold seconds, wrap64, GoStr.MinInt64, GoStr.MaxInt64. intros H.
  rewrite Z.mod_small; lia.
Qed.

Lemma too_new_not_allowed (cfg : Config) (now : Z) (path : string) (info : FileInfo) :
  duration_fits cfg -> within_min_age cfg now info ->
  removal_allowed cfg now path info = false.
Proof.
  unfold duration_fits, within_min_age, removal_allowed. intros Hfit Hnew.
  rewrite (seconds_exact _ Hfit).
  replace (Since now (fi_ModTime info) <? DeleteMinAge cfg * 1000000000)%Z with true;
    [reflexivity|].
  symmetry. apply Z.ltb_lt. unfold Since, GoStr.MinInt64, GoStr.MaxInt64 in *. lia.
Qed.

Lemma main_log_not_allowed (cfg : Config) (now : Z) (path : string) (info : FileInfo) :
  Filepath.Base path = "main.log" -> removal_allowed cfg now path info = false.
Proof.
  unfold removal_allowed. intros ->. rewrite String.eqb_refl. apply andb_false_r.
Qed.

Lemma not_allowed_refused (cfg : Config) (w : World) (path : string) (info : FileInfo) :
  removal_allowed cfg (w_now w) path info = false -> tryDeleteFile cfg w path info = w.
Proof.
  intros H. destruct (tryDeleteFile_spec cfg w path info) as [[_ E] | [E _]];
    [exact E | congruence].
Qed.

Lemma quiet_no_remove (evs : list event) :
  forallb is_quiet evs = true -> existsb is_remove evs = false.
Proof.
  induction evs as [|e evs IH]; [reflexivity|]. cbn [forallb existsb]. intros H.
  apply andb_true_iff in H as [He Hevs]. rewrite (IH Hevs).
  destruct e; try discriminate; reflexivity.
Qed.


Lemma existsb_In_false {A : Type} (f : A -> bool) (l : list A) (x : A) :
  existsb f l = false -> In x l -> f x = false.
Proof.
  intros H Hin. destruct (f x) eqn:E; [|reflexivity].
  assert (existsb f l = true) by (apply existsb_exists; eauto). congruence.
Qed.

(** No removal happens when [tryDeleteFile] is not allowed to go on. *)
Lemma no_removal_unless_allowed (cfg : Config) (w : World) (filePath : string) :
  (forall file, w_files w !! filePath = Some file ->
                removal_allowed cfg (w_now w) filePath (f_info file) = false) ->
  existsb is_remove (call_events cfg w filePath) = false
  /\ w_files (world_of (processFile cfg w filePath)) = w_files w.
Proof.
  intros Hno.
  destruct (processFile_shape cfg w filePath)
    as [(Hq & _ & Hf) | (file & pre & count & ok & rest & Hfile & _ & -> & Hq & _ & Hafter)].
  - split; [now apply quiet_no_remove | exact Hf].
  - destruct Hafter as [(-> & Hf & _) | (_ & _ & Hyes & _)].
    + split; [|exact Hf]. rewrite existsb_app, (quiet_no_remove _ Hq). reflexivity.
    + rewrite (Hno file Hfile) in Hyes. discriminate.
Qed.

(** X7.  What holds of deletion.  In every call of [processFile], a
    removal of a file is the removal of the processed file itself and comes
    right after the successful mark of that file.  [tryDeleteFile] refuses
    (it leaves the world as it is, the file in place) whenever the base
    name of the file is [main.log], whatever the deletion policy, and, when
    the configured minimum age counted in nanoseconds fits a
    [time.Duration] ([duration_fits]), whenever the file's modification
    time is within that age; so no call of [processFile] removes such a
    file.  Without that bound the refusal by age fails: the product wraps
    round. *)
Theorem deletion_after_mark_and_refusals (cfg : Config) (w : World) (filePath : string) :
  let evs := call_events cfg w filePath in
  let w' := world_of (processFile cfg w filePath) in
  (forall p removed,
      In (EvRemove p removed) evs ->
      p = filePath
      /\ exists pre row,
           evs = pre ++ [EvMarkFileProcessed row true; EvRemove p removed]
           /\ r_path row = p)
  /\ (forall info,
         duration_fits cfg -> within_min_age cfg (w_now w) info ->
         tryDeleteFile cfg w filePath info = w)
  /\ (forall file,
         w_files w !! filePath = Some file ->
         duration_fits cfg -> within_min_age cfg (w_now w) (f_info file) ->
         existsb is_remove evs = false /\ w_files w' = w_files w)
  /\ (forall info,
         Filepath.Base filePath = "main.log" -> tryDeleteFile cfg w filePath info = w)
  /\ (Filepath.Base filePath = "main.log" ->
      existsb is_remove evs = false /\ w_files w' = w_files w).
Proof.
  cbv zeta. split; [|split; [|split; [|split]]].
  - intros p removed Hin.
    destruct (processFile_shape cfg w filePath)
      as [(Hq & _) | (file & pre & count & ok & rest & _ & _ & E & Hq & _ & Hafter)].
    + apply quiet_no_remove in Hq.
      pose proof (existsb_In_false _ _ _ Hq Hin). discriminate.
    + rewrite E in Hin |- *. apply in_app_or in Hin as [Hin | [Hin | Hin]].
      * apply quiet_no_remove in Hq.
        pose proof (existsb_In_false _ _ _ Hq Hin). discriminate.
      * discriminate.
      * destruct Hafter as [(-> & _) | (-> & _ & _ & removed' & -> & _)]; [destruct Hin|].
        destruct Hin as [Hin | []]. injection Hin as <- <-.
        split; [reflexivity|]. eexists _, _. split; reflexivity.
  - intros info Hfit Hnew. apply not_allowed_refused. now apply too_new_not_allowed.
  - intros file Hfile Hfit Hnew. apply no_removal_unless_allowed.
    intros file' Hfile'. rewrite Hfile in Hfile'. injection Hfile' as <-.
    now apply too_new_not_allowed.
  - intros info Hbase. apply not_allowed_refused. now apply main_log_not_allowed.
  - intros Hbase. apply no_removal_unless_allowed.
    intros file _. now apply main_log_not_allowed.
Qed.

(** ** Repeated calls *)



















(** ** Examples and witnesses *)


(** A batch size of zero never gets past the first entry, a negative one
    asks for a slice that ends before it starts. *)
Example non_positive_batch_size :
  (exists w', processFile (mkConfig 0 false 300 (LogTypes default_config))
                (one_file_world rotated_main_path main_file t_later []) rotated_main_path
              = Hangs w')
  /\ (exists w', processFile (mkConfig (-1) false 300 (LogTypes default_config))
                   (one_file_world rotated_main_path main_file t_later []) rotated_main_path
                 = Panics w').
Proof. split; eexists; vm_compute; reflexivity. Qed.

(** Three entries in batches of two, the second insert failing: two of the
    three records are handed over and the file is not marked. *)
Example partial_success_not_marked :
  let evs := call_events small_batch_config
               (one_file_world rotated_main_path main_file t_later [false; false; true])
               rotated_main_path in
  length (handed evs) = 2
  /\ marked evs = false
  /\ option_map (@length log_record)
        (extracted small_batch_config
           (one_file_world rotated_main_path main_file t_later [false; false; true])
           rotated_main_path) = Some 3.
Proof. vm_compute. repeat split. Qed.

(** C3 fails on the code for [provider_responses].  A readable, enabled,
    not yet processed file named [api-provider-agy-responses-...] reaches
    the [switch] of [processFile], which has no case for its kind: no
    parser is called and nothing is inserted, yet the file is marked
    processed with a record count of 0, and with deletion switched on it
    is removed.  The same bytes under a [provider_messages] name are
    parsed by [ParseAPILog] and inserted. *)
Theorem provider_responses_marked_without_parsing :
  DetermineLogType responses_path = LogTypeProviderResponses
  /\ Enabled (GetLogTypeConfig default_config (LogType_string LogTypeProviderResponses))
     = true
  /\ call_events default_config
       (one_file_world responses_path transaction_file t_later []) responses_path
     = [ EvIsFileProcessed responses_path 95 t_written (Some false);
         EvMarkFileProcessed (mkRow responses_path 95 t_written 0) true ]
  /\ call_events delete_config
       (one_file_world responses_path transaction_file t_later []) responses_path
     = [ EvIsFileProcessed responses_path 95 t_written (Some false);
         EvMarkFileProcessed (mkRow responses_path 95 t_written 0) true;
         EvRemove responses_path true ]
  /\ (exists entry,
        call_events default_config
          (one_file_world messages_path transaction_file t_later []) messages_path
        = [ EvIsFileProcessed messages_path 95 t_written (Some false);
            EvInsertAPILog entry messages_path true;
            EvMarkFileProcessed (mkRow messages_path 95 t_written 1) true ]
        /\ a_URL entry = "/v1/responses" /\ a_ResponseStatus entry = 200%Z).
Proof.
  split; [vm_compute; reflexivity|]. split; [reflexivity|].
  split; [vm_compute; reflexivity|]. split; [vm_compute; reflexivity|].
  eexists. split; [vm_compute; reflexivity|]. split; reflexivity.
Qed.


(** A file written ten seconds ago, under a minimum age of 300 seconds,
    and the live main log. *)
Lemma deletion_after_mark_and_refusals_witness :
  tryDeleteFile delete_config
    (one_file_world messages_path transaction_file t_soon []) messages_path
    (f_info transaction_file)
  = one_file_world messages_path transaction_file t_soon []
  /\ existsb is_remove
       (call_events delete_config
          (one_file_world messages_path transaction_file t_soon []) messages_path) = false
  /\ existsb is_remove
       (call_events delete_config
          (one_file_world main_path main_file t_later []) main_path) = false
  /\ (exists pre row,
        call_events delete_config
          (one_file_world messages_path transaction_file t_later []) messages_path
        = pre ++ [EvMarkFileProcessed row true; EvRemove messages_path true]
        /\ r_path row = messages_path).
Proof.
  assert (Hfit : duration_fits delete_config) by (vm_compute; split; discriminate).
  assert (Hnew : within_min_age delete_config t_soon (f_info transaction_file))
    by (vm_compute; reflexivity).
  pose proof (deletion_after_mark_and_refusals delete_config
                (one_file_world messages_path transaction_file t_soon []) messages_path)
    as Hyoung.
  pose proof (deletion_after_mark_and_refusals delete_config
                (one_file_world main_path main_file t_later []) main_path) as Hmain.
  pose proof (deletion_after_mark_and_refusals delete_config
                (one_file_world messages_path transaction_file t_later []) messages_path)
    as Hold.
  cbv zeta in Hyoung, Hmain, Hold.
  destruct Hyoung as (_ & Hrefuse & Hkept & _).
  destruct Hmain as (_ & _ & _ & _ & Hlive).
  destruct Hold as (Hafter & _).
  split; [|split; [|split]].
  - apply Hrefuse; assumption.
  - apply (proj1 (Hkept transaction_file eq_refl Hfit Hnew)).
  - apply (proj1 (Hlive eq_refl)).
  - apply (Hafter messages_path true). vm_compute. right. right. right. left. reflexivity.
Defined.

(* ===================================================================== *)
(** * Further properties *)
(* ===================================================================== *)

Lemma request_ok (w : World) : w_faults w = [] -> request w = (true, w).
Proof. unfold request. now intros ->. Qed.

(** X1. A file whose kind is switched off is asked about and left alone. *)
Theorem disabled_kind_left_alone (cfg : Config) (w : World) (filePath : string) :
  Enabled (GetLogTypeConfig cfg (LogType_string (DetermineLogType filePath))) = false ->
  exists w',
    processFile cfg w filePath = Returned w'
    /\ forallb is_query (call_events cfg w filePath) = true
    /\ (length (call_events cfg w filePath) <= 1)%nat
    /\ w_files w' = w_files w
    /\ w_processed w' = w_processed w.
Proof.
  intros Hoff. unfold call_events, processFile.
  destruct (w_files w !! filePath) as [file|]; cbn [world_of].
  2:{ eexists. split; [reflexivity|]. rewrite events_since_refl. repeat split. simpl. lia. }
  destruct (IsFileProcessed_spec w filePath (fi_Size (f_info file)) (fi_ModTime (f_info file)))
    as (answer & w1 & -> & Ht1 & Hf1 & Hp1 & _ & _).
  rewrite Hoff. cbn [negb].
  exists w1.
  destruct answer as [[]|]; cbn [world_of]; (split; [reflexivity|]); since Ht1;
    repeat split; auto.
Qed.

Lemma disabled_kind_left_alone_witness :
  exists w',
    processFile no_events_config (one_file_world batch_path transaction_file t_later [])
                batch_path = Returned w'
    /\ w_processed w' = [].
Proof.
  destruct (disabled_kind_left_alone no_events_config
              (one_file_world batch_path transaction_file t_later []) batch_path)
    as (w' & Hrun & _ & _ & _ & Hrows); [vm_compute; reflexivity|].
  exists w'. split; [exact Hrun | exact Hrows].
Defined.

Lemma InsertMainLogs_no_faults (w : World) (entries : list MainLogEntry) (path : string) :
  w_faults w = [] ->
  exists w1, InsertMainLogs w entries path = (true, w1) /\ w_faults w1 = [].
Proof.
  intros Hq. unfold InsertMainLogs. destruct entries; [eauto|].
  rewrite (request_ok _ Hq). eauto.
Qed.

(** With a store that answers and a positive batch size the loop sends
    every batch. *)
Lemma batch_loop_no_faults (fuel : nat) (i bs : Z) (entries : list MainLogEntry)
    (path : string) (w : World) :
  w_faults w = [] -> (0 < bs)%Z -> (0 <= i)%Z ->
  (Z.of_nat (length entries) - i <= Z.of_nat fuel)%Z ->
  exists w2, batch_loop fuel i bs entries path w = LoopDone w2 /\ w_faults w2 = [].
Proof.
  intros Hq Hbs. revert i w Hq.
  induction fuel as [|fuel IH]; intros i w Hq Hi Hfuel; cbn [batch_loop].
  - destruct (i <? Z.of_nat (length entries))%Z eqn:E; cbn [negb]; [|eauto].
    apply Z.ltb_lt in E. lia.
  - destruct (i <? Z.of_nat (length entries))%Z eqn:E; cbn [negb]; [|eauto].
    apply Z.ltb_lt in E.
    destruct (Z.gtb_spec (i + bs) (Z.of_nat (length entries))).
    + replace (Z.of_nat (length entries) <? i)%Z with false by (symmetry; apply Z.ltb_ge; lia).
      destruct (InsertMainLogs_no_faults w (subslice i (Z.of_nat (length entries)) entries)
                  path Hq) as (w1 & -> & Hq1).
      apply IH; [exact Hq1 | lia | lia].
    + replace (i + bs <? i)%Z with false by (symmetry; apply Z.ltb_ge; lia).
      destruct (InsertMainLogs_no_faults w (subslice i (i + bs) entries) path Hq)
        as (w1 & -> & Hq1).
      apply IH; [exact Hq1 | lia | lia].
Qed.

Lemma IsFileProcessed_no_faults (w : World) (path : string) (size mtime : Z) :
  w_faults w = [] ->
  exists w1,
    IsFileProcessed w path size mtime
    = (Some (existsb (row_matches path size mtime) (w_processed w)), w1)
    /\ w_faults w1 = []
    /\ w_trace w1 = w_trace w ++ [EvIsFileProcessed path size mtime
                                    (Some (existsb (row_matches path size mtime)
                                                   (w_processed w)))]
    /\ w_files w1 = w_files w /\ w_processed w1 = w_processed w /\ w_now w1 = w_now w
    /\ w_range w1 = w_range w.
Proof.
  intros Hq. unfold IsFileProcessed. rewrite (request_ok _ Hq). eexists.
  split; [reflexivity|]. repeat split; auto.
Qed.

Lemma InsertAPILog_no_faults (w : World) (entry : APILogEntry) (path : string) :
  w_faults w = [] ->
  exists w1, InsertAPILog w entry path = (true, w1) /\ w_faults w1 = []
             /\ w_trace w1 = w_trace w ++ [EvInsertAPILog entry path true]
             /\ w_files w1 = w_files w /\ w_processed w1 = w_processed w
             /\ w_now w1 = w_now w.
Proof.
  intros Hq. unfold InsertAPILog. rewrite (request_ok _ Hq). eexists.
  split; [reflexivity|]. repeat split; auto.
Qed.

Lemma InsertEventBatch_no_faults (w : World) (entry : EventBatchEntry) (path : string) :
  w_faults w = [] ->
  exists w1, InsertEventBatch w entry path = (true, w1) /\ w_faults w1 = []
             /\ w_trace w1 = w_trace w ++ [EvInsertEventBatch entry path true]
             /\ w_files w1 = w_files w /\ w_processed w1 = w_processed w
             /\ w_now w1 = w_now w.
Proof.
  intros Hq. unfold InsertEventBatch.
  destruct (e_Events entry); [|rewrite (request_ok _ Hq)]; eexists;
    (split; [reflexivity|]); repeat split; auto.
Qed.

(** The end of a run with a store and a file system that answer: the row
    is written, and the file is removed exactly when the policy asks for it
    and [tryDeleteFile] allows it. *)
Lemma mark_and_delete_no_faults (cfg : Config) (w : World) (path : string) (info : FileInfo)
    (logTypeStr : string) (count : Z) :
  w_faults w = [] ->
  let w' := mark_and_delete cfg w path info logTypeStr count in
  let row := mkRow path (fi_Size info) (fi_ModTime info) count in
  w_faults w' = []
  /\ w_processed w' = w_processed w ++ [row]
  /\ w_files w' = (if (ShouldDeleteAfterCollect cfg logTypeStr
                       && removal_allowed cfg (w_now w) path info)%bool
                   then delete path (w_files w) else w_files w)
  /\ exists rest, w_trace w' = w_trace w ++ EvMarkFileProcessed row true :: rest
                  /\ handed rest = [].
Proof.
  intros Hq. cbv zeta. unfold mark_and_delete, MarkFileProcessed.
  rewrite (request_ok _ Hq). cbn [negb].
  destruct (ShouldDeleteAfterCollect cfg logTypeStr); cbn [andb].
  2:{ repeat split; auto. exists []. split; reflexivity. }
  unfold tryDeleteFile, removal_allowed. cbn [w_now record set_processed fi_ModTime].
  destruct (_ <? _)%Z; cbn [negb andb].
  { repeat split; auto. exists []. split; reflexivity. }
  destruct (String.eqb _ _); cbn [negb].
  { repeat split; auto. exists []. split; reflexivity. }
  unfold request. cbn [w_faults record set_processed]. rewrite Hq.
  repeat split; auto. eexists [_]. cbn [w_trace record set_files set_processed].
  rewrite <- app_assoc. split; reflexivity.
Qed.

Lemma record_count_main (entries : list MainLogEntry) :
  record_count (map RecMain entries) = Z.of_nat (length entries).
Proof.
  unfold record_count. f_equal. induction entries as [|e l IH]; [reflexivity|].
  unfold list_sum in *. simpl. f_equal. exact IH.
Qed.

Ltac finish_run Hq2 Hp2 Hf2 Hn2 Ht2 :=
  match goal with
  | |- context [mark_and_delete ?c ?w2 ?p ?i ?l ?n] =>
      destruct (mark_and_delete_no_faults c w2 p i l n Hq2)
        as (Hq3 & Hp3 & Hf3 & rest & Ht3 & Hrest);
      rewrite Hp2 in Hp3; rewrite Hf2, Hn2 in Hf3; rewrite Ht2 in Ht3
  end.

(** X2. With a store and a file system that answer and a positive batch
    size, a call that gets as far as taking the records out of the file
    hands all of them over, writes the row of the file with their count and
    removes the file exactly when the deletion policy asks for it and
    [tryDeleteFile] allows it. *)
Theorem working_store_collects (cfg : Config) (w : World) (filePath : string)
    (records : list log_record) :
  w_faults w = [] -> (0 < BatchSize cfg)%Z ->
  extracted cfg w filePath = Some records ->
  exists w' file,
    w_files w !! filePath = Some file
    /\ processFile cfg w filePath = Returned w'
    /\ handed (call_events cfg w filePath) = records
    /\ w_processed w'
       = w_processed w ++ [mkRow filePath (fi_Size (f_info file)) (fi_ModTime (f_info file))
                                 (uint32 (record_count records))]
    /\ w_files w' = files_after cfg w filePath (f_info file)
    /\ w_faults w' = [].
Proof.
  intros Hq Hbs. unfold extracted, call_events, processFile, files_after.
  destruct (w_files w !! filePath) as [file|]; [|discriminate].
  destruct (IsFileProcessed_no_faults w filePath (fi_Size (f_info file))
              (fi_ModTime (f_info file)) Hq) as (w1 & -> & Hq1 & Ht1 & Hf1 & Hp1 & Hn1 & Hr1).
  cbn [fst].
  destruct (existsb _ _); [discriminate|].
  destruct (Enabled (GetLogTypeConfig cfg (LogType_string (DetermineLogType filePath))));
    [|discriminate].
  cbn [negb]. rewrite Hr1.
  destruct (DetermineLogType filePath).
  - destruct (ParseMainLog (f_data file)) as [entries [err|]]; [discriminate|].
    intros [= <-].
    destruct (batch_loop_no_faults (length entries) 0 (BatchSize cfg) entries filePath w1
                Hq1 Hbs ltac:(lia) ltac:(lia)) as (w2 & Hloop & Hq2).
    destruct (batch_loop_events (length entries) 0 (BatchSize cfg) entries filePath w1
                ltac:(lia)) as (evs & Ht2 & Hp2 & Hf2 & Hn2 & _ & Hh).
    rewrite Hloop in *. cbn [loop_world world_of] in *. rewrite drop_0 in Hh.
    rewrite Hp1 in Hp2. rewrite Hf1 in Hf2. rewrite Hn1 in Hn2. rewrite Ht1 in Ht2.
    finish_run Hq2 Hp2 Hf2 Hn2 Ht2.
    exists (mark_and_delete cfg w2 filePath (f_info file) "main"
              (uint32 (Z.of_nat (length entries)))), file.
    rewrite record_count_main. repeat split; auto.
    since Ht3. rewrite ?handed_app, ?handed_cons, ?handed_nil, Hrest, Hh.
    cbn [handed_by app]. now rewrite app_nil_r.
  - destruct (ParseAPILog _ _ _ _) as [entry|]; [|discriminate]. intros [= <-].
    destruct (InsertAPILog_no_faults w1 entry filePath Hq1)
      as (w2 & -> & Hq2 & Ht2 & Hf2 & Hp2 & Hn2).
    rewrite Hp1 in Hp2. rewrite Hf1 in Hf2. rewrite Hn1 in Hn2. rewrite Ht1 in Ht2.
    finish_run Hq2 Hp2 Hf2 Hn2 Ht2.
    eexists _, file. repeat split; auto.
    cbn [world_of]. since Ht3. rewrite ?handed_app, ?handed_cons, ?handed_nil, Hrest.
    reflexivity.
  - destruct (ParseAPILog _ _ _ _) as [entry|]; [|discriminate]. intros [= <-].
    destruct (InsertAPILog_no_faults w1 entry filePath Hq1)
      as (w2 & -> & Hq2 & Ht2 & Hf2 & Hp2 & Hn2).
    rewrite Hp1 in Hp2. rewrite Hf1 in Hf2. rewrite Hn1 in Hn2. rewrite Ht1 in Ht2.
    finish_run Hq2 Hp2 Hf2 Hn2 Ht2.
    eexists _, file. repeat split; auto.
    cbn [world_of]. since Ht3. rewrite ?handed_app, ?handed_cons, ?handed_nil, Hrest.
    reflexivity.
  - destruct (ParseAPILog _ _ _ _) as [entry|]; [|discriminate]. intros [= <-].
    destruct (InsertAPILog_no_faults w1 entry filePath Hq1)
      as (w2 & -> & Hq2 & Ht2 & Hf2 & Hp2 & Hn2).
    rewrite Hp1 in Hp2. rewrite Hf1 in Hf2. rewrite Hn1 in Hn2. rewrite Ht1 in Ht2.
    finish_run Hq2 Hp2 Hf2 Hn2 Ht2.
    eexists _, file. repeat split; auto.
    cbn [world_of]. since Ht3. rewrite ?handed_app, ?handed_cons, ?handed_nil, Hrest.
    reflexivity.
  - destruct (ParseAPILog _ _ _ _) as [entry|]; [|discriminate]. intros [= <-].
    destruct (InsertAPILog_no_faults w1 entry filePath Hq1)
      as (w2 & -> & Hq2 & Ht2 & Hf2 & Hp2 & Hn2).
    rewrite Hp1 in Hp2. rewrite Hf1 in Hf2. rewrite Hn1 in Hn2. rewrite Ht1 in Ht2.
    finish_run Hq2 Hp2 Hf2 Hn2 Ht2.
    eexists _, file. repeat split; auto.
    cbn [world_of]. since Ht3. rewrite ?handed_app, ?handed_cons, ?handed_nil, Hrest.
    reflexivity.
  - intros [= <-].
    assert (Ht1' : w_trace w1 = w_trace w ++ [EvIsFileProcessed filePath (fi_Size (f_info file))
                     (fi_ModTime (f_info file)) (Some false)]) by exact Ht1.
    finish_run Hq1 Hp1 Hf1 Hn1 Ht1'.
    eexists _, file. repeat split; auto.
    cbn [world_of]. since Ht3. rewrite ?handed_app, ?handed_cons, ?handed_nil, Hrest.
    reflexivity.
  - destruct (ParseEventBatchLog _ _) as [entry|]; [|discriminate]. intros [= <-].
    destruct (InsertEventBatch_no_faults w1 entry filePath Hq1)
      as (w2 & -> & Hq2 & Ht2 & Hf2 & Hp2 & Hn2).
    rewrite Hp1 in Hp2. rewrite Hf1 in Hf2. rewrite Hn1 in Hn2. rewrite Ht1 in Ht2.
    finish_run Hq2 Hp2 Hf2 Hn2 Ht2.
    eexists _, file. repeat split; auto.
    + cbn [world_of]. since Ht3. rewrite ?handed_app, ?handed_cons, ?handed_nil, Hrest.
      reflexivity.
    + rewrite Hp3. unfold record_count, list_sum. cbn [map fold_right].
      now rewrite Nat.add_0_r.
Qed.

Lemma working_store_collects_witness :
  exists w',
    processFile delete_config (one_file_world messages_path transaction_file t_later [])
                messages_path = Returned w'
    /\ length (w_processed w') = 1%nat
    /\ w_files w' !! messages_path = None.
Proof.
  edestruct (working_store_collects delete_config
               (one_file_world messages_path transaction_file t_later []) messages_path)
    as (w' & file & Hfile & Hrun & _ & Hrows & Hfiles & _).
  - reflexivity.
  - reflexivity.
  - vm_compute. reflexivity.
  - exists w'. split; [exact Hrun|]. split.
    + rewrite Hrows. reflexivity.
    + rewrite Hfiles. vm_compute in Hfile. injection Hfile as <-. vm_compute. reflexivity.
Defined.

Lemma calls_about_refl (path : string) (w : World) : calls_about path w w.
Proof. exists []. now rewrite app_nil_r. Qed.

Lemma calls_about_trans (path : string) (w1 w2 w3 : World) :
  calls_about path w1 w2 -> calls_about path w2 w3 -> calls_about path w1 w3.
Proof.
  intros (e1 & H1 & F1) (e2 & H2 & F2). exists (e1 ++ e2).
  rewrite H2, H1, app_assoc. split; [reflexivity | now apply Forall_app].
Qed.

Lemma calls_about_one (path : string) (w w' : World) (e : event) :
  w_trace w' = w_trace w ++ [e] -> event_path e = path -> calls_about path w w'.
Proof. intros H He. exists [e]. split; [exact H | now constructor]. Qed.

Lemma InsertMainLogs_about (w : World) (entries : list MainLogEntry) (path : string) :
  calls_about path w (InsertMainLogs w entries path).2.
Proof.
  unfold InsertMainLogs, request.
  destruct entries; [|destruct (w_faults w)]; eapply calls_about_one; reflexivity.
Qed.

Lemma batch_loop_about (fuel : nat) (i bs : Z) (entries : list MainLogEntry) (path : string)
    (w : World) :
  calls_about path w (loop_world (batch_loop fuel i bs entries path w)).
Proof.
  revert i w. induction fuel as [|fuel IH]; intros i w; cbn [batch_loop].
  - destruct (negb _); apply calls_about_refl.
  - destruct (negb _); [apply calls_about_refl|].
    destruct (_ <? i)%Z; [apply calls_about_refl|].
    match goal with |- context [InsertMainLogs w ?b path] =>
      pose proof (InsertMainLogs_about w b path) as H1;
      destruct (InsertMainLogs w b path) as [ok w1] end.
    cbn [snd] in H1. destruct ok; [|exact H1].
    eapply calls_about_trans; [exact H1 | apply IH].
Qed.

Lemma tryDeleteFile_about (cfg : Config) (w : World) (path : string) (info : FileInfo) :
  calls_about path w (tryDeleteFile cfg w path info).
Proof.
  unfold tryDeleteFile, request. destruct (_ <? _)%Z; [apply calls_about_refl|].
  destruct (String.eqb _ _); [apply calls_about_refl|].
  destruct (w_faults w) as [|[] ?]; eapply calls_about_one; reflexivity.
Qed.

Lemma mark_and_delete_about (cfg : Config) (w : World) (path : string) (info : FileInfo)
    (lts : string) (count : Z) :
  calls_about path w (mark_and_delete cfg w path info lts count).
Proof.
  unfold mark_and_delete.
  assert (H1 : calls_about path w
                 (MarkFileProcessed w path (fi_Size info) (fi_ModTime info) count).2).
  { unfold MarkFileProcessed, request.
    destruct (w_faults w) as [|[] ?]; eapply calls_about_one; reflexivity. }
  destruct (MarkFileProcessed _ _ _ _ _) as [ok w1]. cbn [snd] in H1.
  destruct ok; cbn [negb]; [|exact H1].
  destruct (ShouldDeleteAfterCollect _ _); [|exact H1].
  eapply calls_about_trans; [exact H1 | apply tryDeleteFile_about].
Qed.

(** Every call [processFile] makes is about the file it was given. *)
Lemma processFile_about (cfg : Config) (w : World) (filePath : string) :
  calls_about filePath w (world_of (processFile cfg w filePath)).
Proof.
  unfold processFile.
  destruct (w_files w !! filePath) as [file|]; [|apply calls_about_refl].
  assert (H1 : calls_about filePath w
                 (IsFileProcessed w filePath (fi_Size (f_info file))
                                  (fi_ModTime (f_info file))).2).
  { unfold IsFileProcessed, request.
    destruct (w_faults w) as [|[] ?]; eapply calls_about_one; reflexivity. }
  destruct (IsFileProcessed _ _ _ _) as [answer w1]. cbn [snd] in H1.
  destruct answer as [[]|]; try exact H1.
  destruct (negb _); [exact H1|].
  assert (Hapi : forall entry,
             calls_about filePath w1 (InsertAPILog w1 entry filePath).2).
  { intros entry. unfold InsertAPILog, request.
    destruct (w_faults w1) as [|[] ?]; eapply calls_about_one; reflexivity. }
  assert (Hev : forall entry,
             calls_about filePath w1 (InsertEventBatch w1 entry filePath).2).
  { intros entry. unfold InsertEventBatch, request.
    destruct (e_Events entry); [|destruct (w_faults w1) as [|[] ?]];
      eapply calls_about_one; reflexivity. }
  eapply calls_about_trans; [exact H1|].
  destruct (DetermineLogType filePath).
  - destruct (ParseMainLog _) as [entries [err|]]; [apply calls_about_refl|].
    pose proof (batch_loop_about (length entries) 0 (BatchSize cfg) entries filePath w1) as H2.
    destruct (batch_loop _ _ _ _ _ _); cbn [loop_world world_of] in *; try exact H2.
    eapply calls_about_trans; [exact H2 | apply mark_and_delete_about].
  - destruct (ParseAPILog _ _ _ _) as [entry|]; [|apply calls_about_refl].
    specialize (Hapi entry). destruct (InsertAPILog _ _ _) as [[] w2]; [|exact Hapi].
    eapply calls_about_trans; [exact Hapi | apply mark_and_delete_about].
  - destruct (ParseAPILog _ _ _ _) as [entry|]; [|apply calls_about_refl].
    specialize (Hapi entry). destruct (InsertAPILog _ _ _) as [[] w2]; [|exact Hapi].
    eapply calls_about_trans; [exact Hapi | apply mark_and_delete_about].
  - destruct (ParseAPILog _ _ _ _) as [entry|]; [|apply calls_about_refl].
    specialize (Hapi entry). destruct (InsertAPILog _ _ _) as [[] w2]; [|exact Hapi].
    eapply calls_about_trans; [exact Hapi | apply mark_and_delete_about].
  - destruct (ParseAPILog _ _ _ _) as [entry|]; [|apply calls_about_refl].
    specialize (Hapi entry). destruct (InsertAPILog _ _ _) as [[] w2]; [|exact Hapi].
    eapply calls_about_trans; [exact Hapi | apply mark_and_delete_about].
  - apply mark_and_delete_about.
  - destruct (ParseEventBatchLog _ _) as [entry|]; [|apply calls_about_refl].
    specialize (Hev entry). destruct (InsertEventBatch _ _ _) as [[] w2]; [|exact Hev].
    eapply calls_about_trans; [exact Hev | apply mark_and_delete_about].
Qed.

(** X3. A call of [processFile] keeps to the file it was given: every call
    it makes on the store or the file system names that file; it leaves
    every other file as it is and never changes a file, it can only remove
    the one it was given; and it adds at most one row, for that file, to
    the rows already written. *)
Theorem processFile_keeps_to_its_file (cfg : Config) (w : World) (filePath : string) :
  let w' := world_of (processFile cfg w filePath) in
  w_trace w' = w_trace w ++ call_events cfg w filePath
  /\ Forall (fun e => event_path e = filePath) (call_events cfg w filePath)
  /\ (forall p, p <> filePath -> w_files w' !! p = w_files w !! p)
  /\ (w_files w' !! filePath = w_files w !! filePath \/ w_files w' !! filePath = None)
  /\ exists rows, w_processed w' = w_processed w ++ rows
                  /\ (length rows <= 1)%nat
                  /\ Forall (fun r => r_path r = filePath) rows.
Proof.
  cbv zeta.
  destruct (processFile_about cfg w filePath) as (evs & Ht & Hev).
  assert (Hce : call_events cfg w filePath = evs) by (unfold call_events; now since Ht).
  rewrite Hce. split; [exact Ht|]. split; [exact Hev|].
  destruct (processFile_shape cfg w filePath)
    as [(_ & Hp & Hf) | (file & pre & count & ok & rest & _ & _ & _ & _ & Hp & Hafter)].
  - rewrite Hf. split; [reflexivity|]. split; [now left|].
    exists []. rewrite app_nil_r. repeat split; [exact Hp | simpl; lia | constructor].
  - assert (Hfiles : w_files (world_of (processFile cfg w filePath)) = w_files w
                     \/ w_files (world_of (processFile cfg w filePath))
                        = delete filePath (w_files w)).
    { destruct Hafter as [(_ & Hf & _) | (_ & _ & _ & [] & _ & Hf)]; auto. }
    split; [|split].
    + intros p Hp'. destruct Hfiles as [-> | ->]; [reflexivity|].
      now apply lookup_delete_ne.
    + destruct Hfiles as [-> | ->]; [now left | right; apply lookup_delete_eq].
    + destruct ok.
      * eexists [_]. split; [exact Hp|]. split; [simpl; lia|]. now repeat constructor.
      * exists []. rewrite app_nil_r. repeat split; [exact Hp | simpl; lia | constructor].
Qed.

Lemma sent_batches_app (l1 l2 : list event) :
  sent_batches (l1 ++ l2) = sent_batches l1 ++ sent_batches l2.
Proof. apply omap_app. Qed.

Lemma well_cut_cons (n : nat) (b : list MainLogEntry) (bt : list (list MainLogEntry)) :
  (1 <= length b <= n)%nat -> (bt <> [] -> length b = n) -> well_cut n bt ->
  well_cut n (b :: bt).
Proof.
  intros Hb Hfull [Hall Hinit]. split; [now constructor|].
  destruct bt as [|b' bt']; [constructor|].
  cbn [length]. replace (S (S (length bt')) - 1)%nat with (S (length bt')) by lia.
  cbn [take]. constructor; [now apply Hfull|].
  replace (length (b' :: bt') - 1)%nat with (length bt') in Hinit by (simpl; lia).
  exact Hinit.
Qed.

(** What the batch loop sends, from index [i] on: consecutive pieces of the
    slice, well cut. *)
Lemma batch_loop_batches (fuel : nat) (i bs : Z) (entries : list MainLogEntry)
    (path : string) (w : World) :
  (0 < bs)%Z -> (0 <= i)%Z ->
  exists evs,
    w_trace (loop_world (batch_loop fuel i bs entries path w)) = w_trace w ++ evs
    /\ well_cut (Z.to_nat bs) (sent_batches evs)
    /\ (exists rest, drop (Z.to_nat i) entries = concat (sent_batches evs) ++ rest)
    /\ ((Z.of_nat (length entries) <= i)%Z -> evs = []).
Proof.
  intros Hbs. revert i w. induction fuel as [|fuel IH]; intros i w Hi; cbn [batch_loop].
  - destruct (i <? Z.of_nat (length entries))%Z eqn:E; cbn [negb loop_world];
      exists []; rewrite app_nil_r; (split; [reflexivity|]);
      (split; [split; constructor|]); (split; [now eexists|]); reflexivity.
  - destruct (i <? Z.of_nat (length entries))%Z eqn:E; cbn [negb loop_world].
    2:{ exists []; rewrite app_nil_r; (split; [reflexivity|]);
        (split; [split; constructor|]); (split; [now eexists|]); reflexivity. }
    apply Z.ltb_lt in E.
    set (end_ := if (i + bs >? Z.of_nat (length entries))%Z
                 then Z.of_nat (length entries) else (i + bs)%Z).
    assert (Hend : end_ = Z.min (i + bs) (Z.of_nat (length entries))).
    { unfold end_. destruct (Z.gtb_spec (i + bs) (Z.of_nat (length entries))); lia. }
    clearbody end_.
    replace (end_ <? i)%Z with false by (symmetry; apply Z.ltb_ge; lia).
    assert (Hlen : length (subslice i end_ entries) = Z.to_nat (end_ - i))
      by (apply subslice_length; lia).
    assert (Hins : exists ok w1,
               InsertMainLogs w (subslice i end_ entries) path = (ok, w1)
               /\ w_trace w1 = w_trace w ++ [EvInsertMainLogs (subslice i end_ entries) path ok]).
    { unfold InsertMainLogs, request.
      destruct (subslice i end_ entries); [|destruct (w_faults w)]; eauto. }
    destruct Hins as (ok & w1 & -> & Ht1).
    assert (Hpiece : drop (Z.to_nat i) entries
                     = subslice i end_ entries ++ drop (Z.to_nat end_) entries).
    { symmetry. apply subslice_then_drop. lia. }
    destruct ok.
    + destruct (IH (i + bs)%Z w1 ltac:(lia)) as (evs & Ht & Hcut & (rest & Hrest) & Hnone).
      exists (EvInsertMainLogs (subslice i end_ entries) path true :: evs).
      rewrite Ht, Ht1, <- app_assoc. split; [reflexivity|].
      change (sent_batches (?e :: evs)) with (subslice i end_ entries :: sent_batches evs).
      split; [|split].
      * apply well_cut_cons; [lia | | exact Hcut].
        intros Hne. destruct (Z.le_gt_cases (Z.of_nat (length entries)) (i + bs)) as [Hge|Hlt].
        -- rewrite (Hnone Hge) in Hne. now destruct Hne.
        -- lia.
      * destruct (Z.le_gt_cases (Z.of_nat (length entries)) (i + bs)) as [Hge|Hlt].
        -- rewrite (Hnone Hge). exists []. change (sent_batches []) with (@nil (list MainLogEntry)).
           cbn [concat]. rewrite Hpiece, drop_ge by lia. now rewrite !app_nil_r.
        -- exists rest. cbn [concat]. rewrite <- app_assoc, <- Hrest, Hpiece.
           now replace end_ with (i + bs)%Z by lia.
      * lia.
    + exists [EvInsertMainLogs (subslice i end_ entries) path false].
      cbn [loop_world]. rewrite Ht1. split; [reflexivity|].
      change (sent_batches [?e]) with [subslice i end_ entries].
      split; [|split].
      * split; [repeat constructor; lia | constructor].
      * exists (drop (Z.to_nat end_) entries). cbn [concat]. rewrite app_nil_r. exact Hpiece.
      * lia.
Qed.

Lemma sent_batches_mark (row : ProcessedRow) (ok : bool) (l : list event) :
  sent_batches (EvMarkFileProcessed row ok :: l) = sent_batches l.
Proof. reflexivity. Qed.

Lemma sent_batches_removal (cfg : Config) (w w' : World) (path : string) (info : FileInfo)
    (lts : string) (ok : bool) (rest : list event) :
  after_mark cfg w w' path info lts ok rest -> sent_batches rest = [].
Proof. intros [(-> & _) | (_ & _ & _ & removed & -> & _)]; reflexivity. Qed.

(** X4. The main-log entries of a file go to the store in batches cut from
    the parsed entries in order: with a positive batch size no batch is
    empty, none holds more than [batch_size] entries, and all but the last
    one sent hold exactly that many. *)
Theorem main_log_batches (cfg : Config) (w : World) (filePath : string) :
  (0 < BatchSize cfg)%Z ->
  let batches := sent_batches (call_events cfg w filePath) in
  well_cut (Z.to_nat (BatchSize cfg)) batches
  /\ forall file, w_files w !! filePath = Some file ->
       exists rest, (ParseMainLog (f_data file)).1 = concat batches ++ rest.
Proof.
  intros Hbs. cbv zeta. unfold call_events, processFile.
  assert (Hnone : forall evs : list event,
             sent_batches evs = [] ->
             well_cut (Z.to_nat (BatchSize cfg)) (sent_batches evs)
             /\ forall file, w_files w !! filePath = Some file ->
                  exists rest, (ParseMainLog (f_data file)).1 = concat (sent_batches evs) ++ rest).
  { intros evs ->. split; [split; constructor|]. intros file _. now eexists. }
  destruct (w_files w !! filePath) as [file|] eqn:Hfile; cbn [world_of].
  2:{ rewrite events_since_refl. now apply Hnone. }
  destruct (IsFileProcessed_spec w filePath (fi_Size (f_info file)) (fi_ModTime (f_info file)))
    as (answer & w1 & -> & Ht1 & _).
  destruct answer as [[]|]; cbn [world_of]; try (since Ht1; now apply Hnone).
  destruct (negb _); cbn [world_of]; [since Ht1; now apply Hnone|].
  assert (Hmark : forall (w2 : World) (ins : list event) (count : Z),
             w_trace w2 = w_trace w1 ++ ins -> sent_batches ins = [] ->
             let w' := mark_and_delete cfg w2 filePath (f_info file)
                         (LogType_string (DetermineLogType filePath)) count in
             sent_batches (events_since w w') = []).
  { intros w2 ins count Ht2 Hins. cbv zeta.
    destruct (mark_and_delete_spec cfg w2 filePath (f_info file)
                (LogType_string (DetermineLogType filePath)) count)
      as (ok & rest & Ht3 & _ & Hrest).
    rewrite Ht2, Ht1 in Ht3. since Ht3.
    rewrite !sent_batches_app, Hins, sent_batches_mark.
    now rewrite (sent_batches_removal _ _ _ _ _ _ _ _ Hrest). }
  destruct (DetermineLogType filePath) eqn:Hkind.
  - destruct (ParseMainLog (f_data file)) as [entries [err|]] eqn:Hparse; cbn [world_of];
      [since Ht1; now apply Hnone|].
    destruct (batch_loop_batches (length entries) 0 (BatchSize cfg) entries filePath w1
                Hbs ltac:(lia)) as (evs & Ht & Hcut & (rest & Hrest) & _).
    rewrite drop_0 in Hrest.
    assert (Hgoal : forall evs',
               sent_batches evs' = sent_batches evs ->
               well_cut (Z.to_nat (BatchSize cfg)) (sent_batches evs')
               /\ forall file0, Some file = Some file0 ->
                    exists rest, (ParseMainLog (f_data file0)).1
                                 = concat (sent_batches evs') ++ rest).
    { intros evs' ->. split; [exact Hcut|]. intros file0 [= <-]. rewrite Hparse. eauto. }
    destruct (batch_loop _ _ _ _ _ _) as [w2|w2|w2|w2]; cbn [world_of loop_world] in *.
    + destruct (mark_and_delete_spec cfg w2 filePath (f_info file)
                  (LogType_string LogTypeMain)
                  (uint32 (Z.of_nat (length entries))))
        as (ok & rest' & Ht3 & _ & Hrest').
      rewrite Ht, Ht1 in Ht3. since Ht3. apply Hgoal.
      rewrite !sent_batches_app, sent_batches_mark.
      rewrite (sent_batches_removal _ _ _ _ _ _ _ _ Hrest').
      now rewrite app_nil_r.
    + rewrite Ht1 in Ht. since Ht. apply Hgoal. now rewrite sent_batches_app.
    + rewrite Ht1 in Ht. since Ht. apply Hgoal. now rewrite sent_batches_app.
    + rewrite Ht1 in Ht. since Ht. apply Hgoal. now rewrite sent_batches_app.
  - destruct (ParseAPILog _ _ _ _) as [entry|]; cbn [world_of]; [|since Ht1; now apply Hnone].
    destruct (InsertAPILog_spec w1 entry filePath) as (ok & w2 & -> & Ht2 & _).
    destruct ok; cbn [world_of].
    + apply Hnone. now apply (Hmark w2 [EvInsertAPILog entry filePath true]).
    + rewrite Ht1 in Ht2. since Ht2. now apply Hnone.
  - destruct (ParseAPILog _ _ _ _) as [entry|]; cbn [world_of]; [|since Ht1; now apply Hnone].
    destruct (InsertAPILog_spec w1 entry filePath) as (ok & w2 & -> & Ht2 & _).
    destruct ok; cbn [world_of].
    + apply Hnone. now apply (Hmark w2 [EvInsertAPILog entry filePath true]).
    + rewrite Ht1 in Ht2. since Ht2. now apply Hnone.
  - destruct (ParseAPILog _ _ _ _) as [entry|]; cbn [world_of]; [|since Ht1; now apply Hnone].
    destruct (InsertAPILog_spec w1 entry filePath) as (ok & w2 & -> & Ht2 & _).
    destruct ok; cbn [world_of].
    + apply Hnone. now apply (Hmark w2 [EvInsertAPILog entry filePath true]).
    + rewrite Ht1 in Ht2. since Ht2. now apply Hnone.
  - destruct (ParseAPILog _ _ _ _) as [entry|]; cbn [world_of]; [|since Ht1; now apply Hnone].
    destruct (InsertAPILog_spec w1 entry filePath) as (ok & w2 & -> & Ht2 & _).
    destruct ok; cbn [world_of].
    + apply Hnone. now apply (Hmark w2 [EvInsertAPILog entry filePath true]).
    + rewrite Ht1 in Ht2. since Ht2. now apply Hnone.
  - apply Hnone. apply (Hmark w1 []); [now rewrite app_nil_r | reflexivity].
  - destruct (ParseEventBatchLog _ _) as [entry|]; cbn [world_of];
      [|since Ht1; now apply Hnone].
    destruct (InsertEventBatch_spec w1 entry filePath) as (ok & w2 & -> & Ht2 & _).
    destruct ok; cbn [world_of].
    + apply Hnone. now apply (Hmark w2 [EvInsertEventBatch entry filePath true]).
    + rewrite Ht1 in Ht2. since Ht2. now apply Hnone.
Qed.

Lemma main_log_batches_witness :
  map length (sent_batches (call_events small_batch_config
                              (one_file_world rotated_main_path main_file t_later [])
                              rotated_main_path)) = [2; 1]%nat
  /\ well_cut 2 (sent_batches (call_events small_batch_config
                                 (one_file_world rotated_main_path main_file t_later [])
                                 rotated_main_path)).
Proof.
  split; [vm_compute; reflexivity|].
  apply (proj1 (main_log_batches small_batch_config
                  (one_file_world rotated_main_path main_file t_later [])
                  rotated_main_path eq_refl)).
Defined.

(** With a batch size of zero the loop stays at its first entry: it sends
    empty batches, which never reach the store, for as long as it is
    followed. *)
Lemma zero_batch_never_ends (fuel : nat) (e : MainLogEntry) (entries : list MainLogEntry)
    (path : string) (w : World) :
  exists w2,
    batch_loop fuel 0 0 (e :: entries) path w = LoopHangs w2
    /\ w_trace w2 = w_trace w ++ replicate fuel (EvInsertMainLogs [] path true).
Proof.
  revert w. induction fuel as [|fuel IH]; intros w.
  - exists w. split; [reflexivity | now rewrite app_nil_r].
  - destruct (IH (record (EvInsertMainLogs [] path true) w)) as (w2 & Hloop & Ht).
    exists w2. split.
    + rewrite <- Hloop. reflexivity.
    + rewrite Ht. cbn [record w_trace replicate]. now rewrite <- app_assoc.
Qed.

(** With a negative batch size the first slice ends before it starts. *)
Lemma negative_batch_panics (fuel : nat) (bs : Z) (e : MainLogEntry)
    (entries : list MainLogEntry) (path : string) (w : World) :
  (bs < 0)%Z -> batch_loop (S fuel) 0 bs (e :: entries) path w = LoopPanics w.
Proof.
  intros Hbs. cbn [batch_loop].
  destruct (0 <? Z.of_nat (length (e :: entries)))%Z eqn:E.
  2:{ apply Z.ltb_ge in E. cbn [length] in E. lia. }
  cbn [negb].
  destruct (Z.gtb_spec (0 + bs) (Z.of_nat (length (e :: entries)))); [lia|].
  replace (0 + bs <? 0)%Z with true by (symmetry; apply Z.ltb_lt; lia).
  reflexivity.
Qed.

Lemma handed_empty_batches (n : nat) (path : string) :
  handed (replicate n (EvInsertMainLogs [] path true)) = []
  /\ marked (replicate n (EvInsertMainLogs [] path true)) = false.
Proof.
  induction n as [|n [IH1 IH2]]; [split; reflexivity|].
  cbn [replicate]. rewrite handed_cons, marked_cons, IH1, IH2. split; reflexivity.
Qed.

(** X5. The batch size decides how the batch loop of [processFile] ends.
    With a positive one every call returns.  With a batch size of zero a
    main log with at least one entry is never done with: the loop does not
    end, whatever number of iterations is followed, nothing reaches the
    store and the file is not marked.  With a negative one the first slice
    expression is out of range and the call panics before any insert. *)
Theorem batch_size_decides_the_end (cfg : Config) (w : World) (filePath : string) :
  ((0 < BatchSize cfg)%Z -> exists w', processFile cfg w filePath = Returned w')
  /\ (forall e records,
        extracted cfg w filePath = Some (RecMain e :: records) ->
        (BatchSize cfg = 0%Z ->
         (exists w', processFile cfg w filePath = Hangs w')
         /\ handed (call_events cfg w filePath) = []
         /\ marked (call_events cfg w filePath) = false
         /\ forall fuel entries w1,
              exists w2, batch_loop fuel 0 (BatchSize cfg) (e :: entries) filePath w1
                         = LoopHangs w2)
        /\ ((BatchSize cfg < 0)%Z ->
            (exists w', processFile cfg w filePath = Panics w')
            /\ forallb is_query (call_events cfg w filePath) = true)).
Proof.
  split; [apply processFile_returns|].
  intros e records. unfold extracted, call_events, processFile.
  destruct (w_files w !! filePath) as [file|]; [|discriminate].
  destruct (IsFileProcessed_spec w filePath (fi_Size (f_info file)) (fi_ModTime (f_info file)))
    as (answer & w1 & -> & Ht1 & _).
  cbn [fst]. destruct answer as [[]|]; try discriminate.
  destruct (Enabled _); [|discriminate]. cbn [negb].
  destruct (DetermineLogType filePath);
    try (destruct (ParseAPILog _ _ _ _); discriminate);
    try (destruct (ParseEventBatchLog _ _); discriminate); try discriminate.
  destruct (ParseMainLog (f_data file)) as [entries [err|]]; [discriminate|].
  destruct entries as [|e' entries]; [discriminate|]. intros [= <- _].
  split.
  - intros ->.
    destruct (zero_batch_never_ends (length (e' :: entries)) e' entries filePath w1)
      as (w2 & -> & Ht2).
    cbn [world_of]. split; [eauto|]. rewrite Ht1 in Ht2. since Ht2.
    rewrite handed_app, marked_app.
    destruct (handed_empty_batches (length (e' :: entries)) filePath) as [-> ->].
    split; [reflexivity|]. split; [reflexivity|].
    intros fuel entries' w1'.
    destruct (zero_batch_never_ends fuel e' entries' filePath w1') as (w2' & H & _). eauto.
  - intros Hneg. cbn [length]. rewrite negative_batch_panics by exact Hneg.
    cbn [world_of]. split; [eauto|]. since Ht1. reflexivity.
Qed.

Lemma scan_main_long_line (lines : list string) (raw : string) :
  In raw lines -> (maxTokenSize <= String.length raw)%nat ->
  forall entries, (scan_main lines entries).2 = Some ErrTooLong.
Proof.
  intros Hin Hlong. induction lines as [|l lines IH]; [destruct Hin|].
  intros entries. rewrite scan_main_cons.
  destruct (Nat.leb maxTokenSize (String.length l)) eqn:E; [reflexivity|].
  destruct Hin as [-> | Hin].
  - apply Nat.leb_gt in E. lia.
  - destruct (parseMainLogLine (dropCR l)) as [entry ok]. apply IH, Hin.
Qed.

(** X6. A main log with a line of 1 MiB or more is never collected: the
    scanner gives up on that line, [ParseMainLog] returns its error, and
    [processFile] drops the entries read before it: it sends nothing, marks
    nothing and leaves the file, so that the same happens at every later
    call. *)
Theorem overlong_line_blocks_the_file (cfg : Config) (w : World) (filePath : string)
    (file : File) (content raw : string) :
  w_files w !! filePath = Some file ->
  f_data file = ReadOK content ->
  DetermineLogType filePath = LogTypeMain ->
  In raw (raw_lines content) -> (maxTokenSize <= String.length raw)%nat ->
  (ParseMainLog (ReadOK content)).2 = Some ErrTooLong
  /\ exists w',
       processFile cfg w filePath = Returned w'
       /\ forallb is_query (call_events cfg w filePath) = true
       /\ w_processed w' = w_processed w
       /\ w_files w' = w_files w.
Proof.
  intros Hfile Hdata Hkind Hin Hlong.
  assert (Hparse : (ParseMainLog (ReadOK content)).2 = Some ErrTooLong)
    by (apply (scan_main_long_line _ raw Hin Hlong)).
  split; [exact Hparse|].
  unfold call_events, processFile. rewrite Hfile.
  destruct (IsFileProcessed_spec w filePath (fi_Size (f_info file)) (fi_ModTime (f_info file)))
    as (answer & w1 & -> & Ht1 & Hf1 & Hp1 & _).
  assert (Hdone : exists w', Returned w1 = Returned w'
                    /\ forallb is_query (events_since w (world_of (Returned w1))) = true
                    /\ w_processed w' = w_processed w /\ w_files w' = w_files w).
  { exists w1. cbn [world_of]. since Ht1. repeat split; auto. }
  destruct answer as [[]|]; try exact Hdone.
  destruct (negb _); [exact Hdone|].
  rewrite Hkind, Hdata.
  destruct (ParseMainLog (ReadOK content)) as [entries err]. cbn [snd] in Hparse.
  rewrite Hparse. exact Hdone.
Qed.

Lemma length_repeat_byte (n : nat) (c : ascii) : String.length (repeat_byte n c) = n.
Proof. induction n as [|n IH]; [reflexivity|]. cbn [repeat_byte String.length]. now rewrite IH. Qed.

Lemma Split_repeat_byte (n : nat) (c sep : ascii) :
  Ascii.eqb c sep = false ->
  GoStr.Split_byte (repeat_byte n c) sep = [repeat_byte n c].
Proof.
  intros Hc. induction n as [|n IH]; [reflexivity|].
  cbn [repeat_byte GoStr.Split_byte]. now rewrite Hc, IH.
Qed.

Lemma raw_lines_repeat_byte (n : nat) :
  raw_lines (repeat_byte (S n) "a") = [repeat_byte (S n) "a"].
Proof.
  unfold raw_lines, GoStr.SplitLines. rewrite Split_repeat_byte by reflexivity. reflexivity.
Qed.

Lemma overlong_line_blocks_the_file_witness :
  exists w',
    processFile default_config
      (one_file_world rotated_main_path long_line_file t_later []) rotated_main_path
    = Returned w'
    /\ w_processed w' = [].
Proof.
  destruct (overlong_line_blocks_the_file default_config
              (one_file_world rotated_main_path long_line_file t_later [])
              rotated_main_path long_line_file long_line long_line)
    as (_ & w' & Hrun & _ & Hrows & _).
  - apply lookup_singleton_eq.
  - reflexivity.
  - vm_compute. reflexivity.
  - unfold long_line.
    replace maxTokenSize with (S (Nat.pred maxTokenSize)) by reflexivity.
    rewrite raw_lines_repeat_byte. now left.
  - unfold long_line. now rewrite length_repeat_byte.
  - exists w'. split; [exact Hrun | exact Hrows].
Defined.

Lemma step_byte_moves (st st' : Regexp.mstate) (a : ascii) :
  Regexp.step_byte st = Some (a, st') -> Regexp.ms_pos st' = S (Regexp.ms_pos st).
Proof.
  unfold Regexp.step_byte. destruct (Regexp.ms_rest st); [discriminate|]. now intros [= <- <-].
Qed.

(** A pattern that begins with [^] finds nothing past the start of the
    text. *)
Lemma search_past_start (fuel : nat) (r : Regexp.re) (st : Regexp.mstate) :
  Regexp.ms_pos st <> 0 -> Regexp.search fuel (Regexp.Cat Regexp.BeginText r) st = None.
Proof.
  revert st. induction fuel as [|fuel IH]; intros st Hpos; cbn [Regexp.search Regexp.run].
  - apply Nat.eqb_neq in Hpos as ->.
    first [reflexivity | now destruct (Regexp.step_byte st) as [[]|]].
  - apply Nat.eqb_neq in Hpos as ->.
    destruct (Regexp.step_byte st) as [[a st']|] eqn:E; [|reflexivity].
    apply IH. rewrite (step_byte_moves _ _ _ E). lia.
Qed.

(** A text that does not begin with an opening bracket is no main-log
    line. *)
Lemma no_bracket_no_match (c : ascii) (s : string) :
  Ascii.eqb c "[" = false -> Regexp.MatchString mainLogPattern (String c s) = false.
Proof.
  intros Hc. unfold Regexp.MatchString, Regexp.exec, mainLogPattern.
  cbn [Regexp.cats String.length Regexp.search Regexp.run Regexp.start_state Regexp.ms_pos
       Regexp.step_byte Regexp.ms_rest Nat.eqb].
  rewrite Hc. now rewrite search_past_start.
Qed.

Lemma rev_app_repeat_byte (n k : nat) (c : ascii) :
  String.rev_app (repeat_byte n c) (repeat_byte k c) = repeat_byte (n + k) c.
Proof.
  revert k. induction n as [|n IH]; intros k; [reflexivity|].
  cbn [repeat_byte String.rev_app Nat.add].
  change (String c (repeat_byte k c)) with (repeat_byte (S k) c).
  rewrite (IH (S k)), Nat.add_succ_r. reflexivity.
Qed.

Lemma dropCR_repeat_byte (n : nat) : dropCR (repeat_byte n "a") = repeat_byte n "a".
Proof.
  unfold dropCR, String.rev. rewrite (rev_app_repeat_byte n 0), Nat.add_0_r.
  destruct n; reflexivity.
Qed.

(** The claim C7 as it stands fails for a line that does not fit the
    scanner's buffer.  A file that is one line of two MiB of [a]s: the line
    does not match the pattern, and [ParseMainLog] returns an error. *)
Lemma overlong_unmatched_line_is_an_error :
  dropCR longer_line = longer_line
  /\ Regexp.MatchString mainLogPattern longer_line = false
  /\ ParseMainLog (ReadOK longer_line) = ([], Some ErrTooLong).
Proof.
  unfold longer_line. split; [apply dropCR_repeat_byte|]. split.
  - replace (2 * maxTokenSize)%nat with (S (Nat.pred (2 * maxTokenSize))) by reflexivity.
    now apply no_bracket_no_match.
  - unfold ParseMainLog.
    replace (2 * maxTokenSize)%nat with (S (Nat.pred (2 * maxTokenSize))) at 1 by reflexivity.
    rewrite raw_lines_repeat_byte. apply scan_main_too_long.
    rewrite length_repeat_byte. lia.
Qed.

(** C9 fails on the code when the configured minimum age, counted in
    nanoseconds, does not fit a [time.Duration].  With
    [delete_min_age_seconds: 10000000000] the product
    [time.Duration(DeleteMinAge) * time.Second] wraps round to a negative
    duration; a file written one second ago is within the configured
    minimum age, and yet [tryDeleteFile] removes it right after the mark. *)
Theorem wrapped_min_age_removes_a_young_file :
  within_min_age long_age_config t_next_second (f_info transaction_file)
  /\ seconds (DeleteMinAge long_age_config) = (-8446744073709551616)%Z
  /\ call_events long_age_config
       (one_file_world messages_path transaction_file t_next_second []) messages_path
     = [ EvIsFileProcessed messages_path 95 t_written (Some false);
         EvInsertAPILog
           (ParseAPILog_visit (map_to_list (splitSections transaction_text)) messages_path
                              LogTypeProviderMessages)
           messages_path true;
         EvMarkFileProcessed (mkRow messages_path 95 t_written 1) true;
         EvRemove messages_path true ]
  /\ w_files (world_of (processFile long_age_config
                          (one_file_world messages_path transaction_file t_next_second [])
                          messages_path)) !! messages_path = None.
Proof.
  split; [unfold within_min_age; vm_compute; reflexivity|].
  split; [vm_compute; reflexivity|].
  split; vm_compute; reflexivity.
Qed.

Import Regexp Match.

Lemma run_star (greedy : bool) (r : re) (st : mstate) (k : mstate -> option mstate) :
  run (Star greedy r) st k
  = iterate greedy (run r) k (S (String.length (ms_rest st))) st.
Proof. reflexivity. Qed.

Lemma iterate_sound (greedy : bool) (r : re) (k : mstate -> option mstate) :
  (forall st k m, run r st k = Some m -> exists st', reach r st st' /\ k st' = Some m) ->
  forall fuel st m,
    iterate greedy (run r) k fuel st = Some m ->
    exists st', reach (Star greedy r) st st' /\ k st' = Some m.
Proof.
  intros IH. induction fuel as [|fuel IHf]; intros st m H; cbn [iterate] in H.
  - exists st. split; [constructor | exact H].
  - assert (Hmore : forall m',
               run r st (fun st' => if Nat.eqb (ms_pos st') (ms_pos st) then None
                                    else iterate greedy (run r) k fuel st') = Some m' ->
               exists st', reach (Star greedy r) st st' /\ k st' = Some m').
    { intros m' Hm. apply IH in Hm as (mid & H1 & Hm).
      destruct (Nat.eqb (ms_pos mid) (ms_pos st)) eqn:Ep; [discriminate|].
      apply Nat.eqb_neq in Ep. apply IHf in Hm as (st' & Hs & Hm).
      exists st'. split; [eapply reach_star_more; eassumption | exact Hm]. }
    cbv zeta in H. destruct greedy.
    + destruct (run r st _) as [m'|] eqn:E.
      * injection H as ->. now apply Hmore.
      * exists st. split; [apply reach_star_stop | exact H].
    + destruct (k st) as [m'|] eqn:E.
      * injection H as ->. exists st. split; [apply reach_star_stop | exact E].
      * now apply Hmore.
Qed.

(** What [run] finds, the pattern can match: the answer comes from the
    continuation, at a state the pattern reaches. *)
Lemma run_sound (r : re) :
  forall (st : mstate) (k : mstate -> option mstate) (m : mstate),
    run r st k = Some m -> exists st', reach r st st' /\ k st' = Some m.
Proof.
  induction r as [ | c | p | r1 IH1 r2 IH2 | r1 IH1 r2 IH2 | greedy r1 IH1 | n r1 IH1 | | | | ];
    intros st k m H; try rewrite run_star in H; try (cbn [run] in H).
  - exists st. split; [constructor | exact H].
  - destruct (step_byte st) as [[a st']|] eqn:E; [|discriminate].
    destruct (Ascii.eqb a c) eqn:Ea; [|discriminate]. apply Ascii.eqb_eq in Ea. subst a.
    exists st'. split; [now constructor | exact H].
  - destruct (step_byte st) as [[a st']|] eqn:E; [|discriminate].
    destruct (p a) eqn:Ea; [|discriminate].
    exists st'. split; [eapply reach_class; eassumption | exact H].
  - apply IH1 in H as (mid & H1 & H). apply IH2 in H as (st' & H2 & H).
    exists st'. split; [eapply reach_cat; eassumption | exact H].
  - destruct (run r1 st k) eqn:E1.
    + injection H as ->. apply IH1 in E1 as (st' & H1 & H). eauto using reach.
    + apply IH2 in H as (st' & H2 & H). eauto using reach.
  - now apply (iterate_sound greedy r1 k IH1) in H.
  - apply IH1 in H as (st' & H1 & H).
    exists (close_group n (ms_pos st) st'). split; [now apply reach_cap | exact H].
  - destruct (Nat.eqb (ms_pos st) 0) eqn:E; [|discriminate]. apply Nat.eqb_eq in E.
    exists st. split; [now apply reach_begin_text | exact H].
  - destruct (at_text_end st) eqn:E; [|discriminate].
    exists st. split; [now apply reach_end_text | exact H].
  - destruct (at_line_start st) eqn:E; [|discriminate].
    exists st. split; [now apply reach_begin_line | exact H].
  - destruct (at_line_end st) eqn:E; [|discriminate].
    exists st. split; [now apply reach_end_line | exact H].
Qed.

Lemma length_append (s t : string) :
  String.length (s +:+ t) = (String.length s + String.length t)%nat.
Proof. induction s as [|c s IH]; [reflexivity|]. rewrite append_cons. cbn. now rewrite IH. Qed.

Lemma step_byte_rest (st st' : mstate) (a : ascii) :
  step_byte st = Some (a, st') ->
  ms_rest st = String a (ms_rest st') /\ ms_pos st' = S (ms_pos st)
  /\ ms_caps st' = ms_caps st /\ ms_prev st' = Some a.
Proof.
  unfold step_byte. destruct (ms_rest st); [discriminate|]. intros [= <- <-]. auto.
Qed.

(** A match takes a piece off the front of the text ahead and moves the
    offset by its length. *)
Lemma reach_rest (r : re) (st st' : mstate) :
  reach r st st' ->
  exists txt, ms_rest st = txt +:+ ms_rest st'
              /\ ms_pos st' = (ms_pos st + String.length txt)%nat.
Proof.
  induction 1 as [ st | c st st' Hs | p a st st' Hs Hp
                 | r1 r2 st mid st' _ (t1 & E1 & P1) _ (t2 & E2 & P2)
                 | r1 r2 st st' _ IH | r1 r2 st st' _ IH
                 | g r st | g r st mid st' _ (t1 & E1 & P1) _ _ (t2 & E2 & P2)
                 | n r st st' _ (t & E & P) | st _ | st _ | st _ | st _ ];
    try (exists ""; split; [reflexivity | now rewrite Nat.add_0_r]);
    try exact IH.
  - apply step_byte_rest in Hs as (E & P & _). exists (String c ""). split; [exact E|].
    rewrite P. cbn. lia.
  - apply step_byte_rest in Hs as (E & P & _). exists (String a ""). split; [exact E|].
    rewrite P. cbn. lia.
  - exists (t1 +:+ t2). rewrite E1, E2, P2, P1, length_append, append_assoc. split; [reflexivity|lia].
  - exists (t1 +:+ t2). rewrite E1, E2, P2, P1, length_append, append_assoc. split; [reflexivity|lia].
  - exists t. split; [exact E | exact P].
Qed.

Lemma reach_shrinks (r : re) (st st' : mstate) :
  reach r st st' -> ms_pos st' <> ms_pos st ->
  (String.length (ms_rest st') < String.length (ms_rest st))%nat.
Proof.
  intros H Hne. apply reach_rest in H as (txt & E & P). rewrite E, length_append.
  destruct txt; [cbn in P; lia | cbn; lia].
Qed.

Lemma iterate_complete (greedy : bool) (r : re) (k : mstate -> option mstate) :
  (forall st st' k, reach r st st' -> is_Some (k st') -> is_Some (run r st k)) ->
  forall fuel st st',
    reach (Star greedy r) st st' -> (String.length (ms_rest st) < fuel)%nat ->
    is_Some (k st') -> is_Some (iterate greedy (run r) k fuel st).
Proof.
  intros IH. induction fuel as [|fuel IHf]; intros st st' H Hfuel Hk; [lia|].
  cbn [iterate]. cbv zeta.
  assert (Hstop : st' = st -> is_Some (if greedy
            then match run r st (fun st'0 => if Nat.eqb (ms_pos st'0) (ms_pos st) then None
                                             else iterate greedy (run r) k fuel st'0) with
                 | Some m => Some m
                 | None => k st
                 end
            else match k st with
                 | Some m => Some m
                 | None => run r st (fun st'0 => if Nat.eqb (ms_pos st'0) (ms_pos st) then None
                                                 else iterate greedy (run r) k fuel st'0)
                 end)).
  { intros ->. destruct greedy.
    - destruct (run r st _); [eauto | exact Hk].
    - destruct Hk as [m ->]. eauto. }
  inversion H as [ | | | | | | g r0 st0 | g r0 st0 mid st0' H1 Hne H2 | | | | | ]; subst.
  - now apply Hstop.
  - assert (Hmore : is_Some (run r st (fun st'0 => if Nat.eqb (ms_pos st'0) (ms_pos st) then None
                                                   else iterate greedy (run r) k fuel st'0))).
    { apply (IH st mid); [exact H1|].
      pose proof (reach_shrinks _ _ _ H1 Hne).
      apply Nat.eqb_neq in Hne as ->. apply (IHf mid st'); [exact H2 | lia | exact Hk]. }
    destruct greedy.
    + destruct Hmore as [m ->]. eauto.
    + destruct (k st); [eauto | exact Hmore].
Qed.

(** What the pattern can match in a way the continuation accepts, [run]
    finds some way to match. *)
Lemma run_complete (r : re) :
  forall (st st' : mstate) (k : mstate -> option mstate),
    reach r st st' -> is_Some (k st') -> is_Some (run r st k).
Proof.
  induction r as [ | c | p | r1 IH1 r2 IH2 | r1 IH1 r2 IH2 | greedy r1 IH1 | n r1 IH1 | | | | ];
    intros st st' k H Hk; try rewrite run_star; try (cbn [run]).
  - inversion H; subst. exact Hk.
  - inversion H as [ | c0 st0 st0' E | | | | | | | | | | | ]; subst.
    rewrite E. now rewrite (proj2 (Ascii.eqb_eq c c) eq_refl).
  - inversion H as [ | | p0 a st0 st0' E Ea | | | | | | | | | | ]; subst.
    rewrite E, Ea. exact Hk.
  - inversion H as [ | | | r1' r2' st0 mid st0' H1 H2 | | | | | | | | | ]; subst.
    apply (IH1 st mid); [exact H1|]. now apply (IH2 mid st').
  - inversion H as [ | | | | r1' r2' st0 st0' H1 | r1' r2' st0 st0' H2 | | | | | | | ]; subst.
    + destruct (IH1 st st' k H1 Hk) as [m ->]. eauto.
    + destruct (run r1 st k); [eauto|]. now apply (IH2 st st').
  - apply (iterate_complete greedy r1 k IH1 _ st st'); [exact H | lia | exact Hk].
  - inversion H as [ | | | | | | | | n' r' st0 st0' H1 | | | | ]; subst.
    now apply (IH1 st st0').
  - inversion H as [ | | | | | | | | | st0 E | | | ]; subst. rewrite E. exact Hk.
  - inversion H as [ | | | | | | | | | | st0 E | | ]; subst. rewrite E. exact Hk.
  - inversion H as [ | | | | | | | | | | | st0 E | ]; subst. rewrite E. exact Hk.
  - inversion H as [ | | | | | | | | | | | | st0 E ]; subst. rewrite E. exact Hk.
Qed.

(** *** Strings *)

Lemma append_cancel_l (a b b' : string) : a +:+ b = a +:+ b' -> b = b'.
Proof.
  induction a as [|c a IH]; [exact id|]. rewrite !append_cons. intros [= H]. now apply IH.
Qed.

Lemma append_inj_length (a a' b b' : string) :
  String.length a = String.length a' -> a +:+ b = a' +:+ b' -> a = a' /\ b = b'.
Proof.
  revert a'. induction a as [|c a IH]; intros [|c' a'] Hlen H; try discriminate.
  - now split.
  - rewrite !append_cons in H. injection H as -> H. injection Hlen as Hlen.
    destruct (IH a' Hlen H) as [-> ->]. now split.
Qed.

Lemma all_bytes_app (p : ascii -> bool) (a b : string) :
  all_bytes p (a +:+ b) = (all_bytes p a && all_bytes p b)%bool.
Proof.
  induction a as [|c a IH]; [reflexivity|]. rewrite append_cons. cbn [all_bytes].
  now rewrite IH, andb_assoc.
Qed.

(** The longest piece in a class at the front of a text is one piece: two
    ways of cutting it off, each followed by a byte outside the class or by
    nothing, agree. *)
Lemma class_prefix_unique (p : ascii -> bool) (a a' b b' : string) :
  all_bytes p a = true -> all_bytes p a' = true ->
  all_bytes p (GoStr.take 1 b) = false \/ b = "" ->
  all_bytes p (GoStr.take 1 b') = false \/ b' = "" ->
  a +:+ b = a' +:+ b' -> a = a' /\ b = b'.
Proof.
  revert a'. induction a as [|c a IH]; intros [|c' a'] Ha Ha' Hb Hb' H.
  - now split.
  - exfalso. change ("" +:+ b) with b in H. rewrite append_cons in H. subst b.
    cbn in Ha', Hb. apply andb_true_iff in Ha' as [Hc _].
    destruct Hb as [Hb | Hb]; [|discriminate]. rewrite Hc in Hb. discriminate.
  - exfalso. change ("" +:+ b') with b' in H. rewrite append_cons in H. subst b'.
    cbn in Ha, Hb'. apply andb_true_iff in Ha as [Hc _].
    destruct Hb' as [Hb' | Hb']; [|discriminate]. rewrite Hc in Hb'. discriminate.
  - rewrite !append_cons in H. injection H as -> H.
    cbn in Ha, Ha'. apply andb_true_iff in Ha as [_ Ha]. apply andb_true_iff in Ha' as [_ Ha'].
    destruct (IH a' Ha Ha' Hb Hb' H) as [-> ->]. now split.
Qed.

(** *** What each piece of a pattern reads *)

Lemma passes_refl (st : mstate) : passes st "" st.
Proof. unfold passes. rewrite Nat.add_0_r. auto. Qed.

Lemma passes_trans (st mid st' : mstate) (t1 t2 : string) :
  passes st t1 mid -> passes mid t2 st' -> passes st (t1 +:+ t2) st'.
Proof.
  intros (E1 & P1 & C1) (E2 & P2 & C2). unfold passes.
  rewrite E1, E2, P2, P1, C2, C1, length_append, append_assoc. repeat split. lia.
Qed.

Lemma reach_Lit (c : ascii) (st st' : mstate) :
  reach (Lit c) st st' -> passes st (String c "") st'.
Proof.
  inversion 1 as [ | c0 st0 st0' E | | | | | | | | | | | ]; subst.
  apply step_byte_rest in E as (E & P & C & _). unfold passes. rewrite E, P, C. cbn.
  repeat split. lia.
Qed.

Lemma reach_Class (p : ascii -> bool) (st st' : mstate) :
  reach (Class p) st st' -> exists a, p a = true /\ passes st (String a "") st'.
Proof.
  inversion 1 as [ | | p0 a st0 st0' E Ea | | | | | | | | | | ]; subst.
  apply step_byte_rest in E as (E & P & C & _). exists a. split; [exact Ea|].
  unfold passes. rewrite E, P, C. cbn. repeat split. lia.
Qed.

Lemma reach_Cat (r1 r2 : re) (st st' : mstate) :
  reach (Cat r1 r2) st st' -> exists mid, reach r1 st mid /\ reach r2 mid st'.
Proof. inversion 1; subst; eauto. Qed.

Lemma reach_Cap (n : nat) (r : re) (st st' : mstate) :
  reach (Cap n r) st st' ->
  exists mid, reach r st mid /\ st' = close_group n (ms_pos st) mid.
Proof. inversion 1; subst; eauto. Qed.

Lemma reach_Empty (st st' : mstate) : reach Empty st st' -> st' = st.
Proof. now inversion 1. Qed.

Lemma reach_BeginText (st st' : mstate) : reach BeginText st st' -> st' = st /\ ms_pos st = 0.
Proof. inversion 1; subst; auto. Qed.

Lemma reach_EndText (st st' : mstate) : reach EndText st st' -> st' = st /\ ms_rest st = "".
Proof.
  inversion 1 as [ | | | | | | | | | | st0 E | | ]; subst. split; [reflexivity|].
  unfold at_text_end in E. now destruct (ms_rest _).
Qed.

Lemma reach_lits (s : string) (st st' : mstate) :
  reach (lits s) st st' -> passes st s st'.
Proof.
  revert st. induction s as [|c s IH]; intros st H.
  - apply reach_Empty in H as ->. apply passes_refl.
  - destruct s as [|c' s].
    + now apply reach_Lit.
    + change (lits (String c (String c' s))) with (Cat (Lit c) (lits (String c' s))) in H.
      apply reach_Cat in H as (mid & H1 & H2). apply reach_Lit in H1. apply IH in H2.
      apply (passes_trans _ _ _ _ _ H1 H2).
Qed.

Lemma reach_rep_Class (n : nat) (p : ascii -> bool) (st st' : mstate) :
  reach (rep n (Class p)) st st' ->
  exists txt, String.length txt = n /\ all_bytes p txt = true /\ passes st txt st'.
Proof.
  revert st. induction n as [|n IH]; intros st H.
  - apply reach_Empty in H as ->. exists "". split; [|split]; [reflexivity.. | apply passes_refl].
  - destruct n as [|n].
    + apply reach_Class in H as (a & Ha & Hp). exists (String a "").
      split; [|split]; [reflexivity | cbn; now rewrite Ha | exact Hp].
    + change (rep (S (S n)) (Class p)) with (Cat (Class p) (rep (S n) (Class p))) in H.
      apply reach_Cat in H as (mid & H1 & H2).
      apply reach_Class in H1 as (a & Ha & Hp). apply IH in H2 as (txt & Hl & Hall & Hp2).
      exists (String a txt). cbn [String.length all_bytes]. rewrite Hl, Ha, Hall.
      split; [|split]; [reflexivity.. | apply (passes_trans _ _ _ _ _ Hp Hp2)].
Qed.

Lemma reach_Star_Class (g : bool) (p : ascii -> bool) (st st' : mstate) :
  reach (Star g (Class p)) st st' ->
  exists txt, all_bytes p txt = true /\ passes st txt st'.
Proof.
  intros H. remember (Star g (Class p)) as r eqn:Er.
  induction H as [ | | | | | | g0 r0 st | g0 r0 st mid st' H1 _ Hne _ IH | | | | | ];
    try discriminate; injection Er as -> ->.
  - exists "". split; [reflexivity | apply passes_refl].
  - apply reach_Class in H1 as (a & Ha & Hp). destruct (IH eq_refl) as (txt & Hall & Hp2).
    exists (String a txt). cbn [all_bytes]. rewrite Ha, Hall. split; [reflexivity|].
    apply (passes_trans _ _ _ _ _ Hp Hp2).
Qed.

Lemma reach_plus_Class (g : bool) (p : ascii -> bool) (st st' : mstate) :
  reach (Cat (Class p) (Star g (Class p))) st st' ->
  exists txt, txt <> "" /\ all_bytes p txt = true /\ passes st txt st'.
Proof.
  intros H. apply reach_Cat in H as (mid & H1 & H2).
  apply reach_Class in H1 as (a & Ha & Hp). apply reach_Star_Class in H2 as (txt & Hall & Hp2).
  exists (String a txt). cbn [all_bytes]. rewrite Ha, Hall.
  split; [|split]; [discriminate | reflexivity | apply (passes_trans _ _ _ _ _ Hp Hp2)].
Qed.

(** *** Building a match *)

Lemma Lit_reach (c : ascii) (st : mstate) (rest : string) :
  ms_rest st = String c rest ->
  exists st', reach (Lit c) st st' /\ ms_rest st' = rest.
Proof.
  intros E. exists (MState (S (ms_pos st)) (Some c) rest (ms_caps st)).
  split; [|reflexivity]. apply reach_lit. unfold step_byte. now rewrite E.
Qed.

Lemma Class_reach (p : ascii -> bool) (a : ascii) (st : mstate) (rest : string) :
  ms_rest st = String a rest -> p a = true ->
  exists st', reach (Class p) st st' /\ ms_rest st' = rest /\ ms_pos st' = S (ms_pos st).
Proof.
  intros E Ha. exists (MState (S (ms_pos st)) (Some a) rest (ms_caps st)).
  split; [|split; reflexivity]. apply (reach_class p a); [|exact Ha].
  unfold step_byte. now rewrite E.
Qed.

Lemma Cat_reach (r1 r2 : re) (st : mstate) (mid_rest rest : string) :
  (exists mid, reach r1 st mid /\ ms_rest mid = mid_rest) ->
  (forall mid, ms_rest mid = mid_rest -> exists st', reach r2 mid st' /\ ms_rest st' = rest) ->
  exists st', reach (Cat r1 r2) st st' /\ ms_rest st' = rest.
Proof.
  intros (mid & H1 & E1) H2. destruct (H2 mid E1) as (st' & H2' & E2).
  exists st'. split; [eapply reach_cat; eassumption | exact E2].
Qed.

Lemma Cap_reach (n : nat) (r : re) (st : mstate) (rest : string) :
  (exists mid, reach r st mid /\ ms_rest mid = rest) ->
  exists st', reach (Cap n r) st st' /\ ms_rest st' = rest.
Proof.
  intros (mid & H & E). exists (close_group n (ms_pos st) mid).
  split; [now apply reach_cap | exact E].
Qed.

Lemma lits_reach (s : string) (st : mstate) (rest : string) :
  ms_rest st = s +:+ rest ->
  exists st', reach (lits s) st st' /\ ms_rest st' = rest.
Proof.
  revert st. induction s as [|c s IH]; intros st E.
  - exists st. split; [apply reach_empty | exact E].
  - rewrite append_cons in E. destruct s as [|c' s].
    + now apply Lit_reach.
    + change (lits (String c (String c' s))) with (Cat (Lit c) (lits (String c' s))).
      apply (Cat_reach _ _ _ (String c' s +:+ rest)); [now apply Lit_reach|].
      intros mid Em. now apply IH.
Qed.

Lemma rep_Class_reach (p : ascii -> bool) (txt : string) (st : mstate) (rest : string) :
  ms_rest st = txt +:+ rest -> all_bytes p txt = true ->
  exists st', reach (rep (String.length txt) (Class p)) st st' /\ ms_rest st' = rest.
Proof.
  revert st. induction txt as [|a txt IH]; intros st E Hall.
  - exists st. split; [apply reach_empty | exact E].
  - rewrite append_cons in E. cbn [all_bytes] in Hall. apply andb_true_iff in Hall as [Ha Hall].
    destruct txt as [|a' txt].
    + destruct (Class_reach p a st rest E Ha) as (st' & H & Er & _). eauto.
    + change (rep (String.length (String a (String a' txt))) (Class p))
        with (Cat (Class p) (rep (String.length (String a' txt)) (Class p))).
      apply (Cat_reach _ _ _ (String a' txt +:+ rest)).
      * destruct (Class_reach p a st _ E Ha) as (st' & H & Er & _). eauto.
      * intros mid Em. now apply IH.
Qed.

Lemma Star_Class_reach (g : bool) (p : ascii -> bool) (txt : string) (st : mstate)
    (rest : string) :
  ms_rest st = txt +:+ rest -> all_bytes p txt = true ->
  exists st', reach (Star g (Class p)) st st' /\ ms_rest st' = rest.
Proof.
  revert st. induction txt as [|a txt IH]; intros st E Hall.
  - exists st. split; [apply reach_star_stop | exact E].
  - rewrite append_cons in E. cbn [all_bytes] in Hall. apply andb_true_iff in Hall as [Ha Hall].
    destruct (Class_reach p a st _ E Ha) as (mid & H1 & Em & Pm).
    destruct (IH mid Em Hall) as (st' & H2 & E').
    exists st'. split; [|exact E']. apply (reach_star_more g (Class p) st mid st' H1); [lia|exact H2].
Qed.

Lemma plus_Class_reach (g : bool) (p : ascii -> bool) (txt : string) (st : mstate)
    (rest : string) :
  ms_rest st = txt +:+ rest -> txt <> "" -> all_bytes p txt = true ->
  exists st', reach (Cat (Class p) (Star g (Class p))) st st' /\ ms_rest st' = rest.
Proof.
  intros E Hne Hall. destruct txt as [|a txt]; [now destruct Hne|].
  rewrite append_cons in E. cbn [all_bytes] in Hall. apply andb_true_iff in Hall as [Ha Hall].
  apply (Cat_reach _ _ _ (txt +:+ rest)).
  - destruct (Class_reach p a st _ E Ha) as (st' & H & Er & _). eauto.
  - intros mid Em. now apply (Star_Class_reach g p txt).
Qed.

Lemma EndText_reach (st : mstate) :
  ms_rest st = "" -> exists st', reach EndText st st' /\ ms_rest st' = "".
Proof.
  intros E. exists st. split; [|exact E]. apply reach_end_text. unfold at_text_end. now rewrite E.
Qed.

(** *** Patterns anchored at the start of the text *)

Lemma search_after_start (fuel : nat) (r : re) (st : mstate) :
  ms_pos st <> 0 -> search fuel (Cat BeginText r) st = None.
Proof.
  revert st. induction fuel as [|fuel IH]; intros st Hpos; cbn [search run].
  - apply Nat.eqb_neq in Hpos as ->.
    first [reflexivity | now destruct (step_byte st) as [[]|]].
  - apply Nat.eqb_neq in Hpos as ->. destruct (step_byte st) as [[a st']|] eqn:E; [|reflexivity].
    apply IH. apply step_byte_rest in E as (_ & -> & _). lia.
Qed.

(** A pattern that begins with [^] matches at the start of the text or
    nowhere. *)
Lemma exec_anchored (r : re) (s : string) :
  exec (Cat BeginText r) s = run (Cap 0 (Cat BeginText r)) (start_state s) Some.
Proof.
  unfold exec. destruct (String.length s) as [|n]; cbn [search].
  - destruct (run (Cap 0 (Cat BeginText r)) (start_state s) Some); [reflexivity|].
    first [reflexivity | now destruct (step_byte (start_state s)) as [[]|]].
  - destruct (run (Cap 0 (Cat BeginText r)) (start_state s) Some); [reflexivity|].
    destruct (step_byte (start_state s)) as [[a st']|] eqn:E; [|reflexivity].
    apply search_after_start. apply step_byte_rest in E as (_ & -> & _). lia.
Qed.

(** A finished match of an anchored pattern, as a reachable state. *)
Lemma exec_anchored_sound (r : re) (s : string) (m : mstate) :
  exec (Cat BeginText r) s = Some m ->
  exists st', reach r (start_state s) st' /\ m = close_group 0 0 st'.
Proof.
  rewrite exec_anchored. intros H. apply run_sound in H as (st' & H & [= <-]).
  apply reach_Cap in H as (mid & H & ->). apply reach_Cat in H as (st0 & H0 & H).
  apply reach_BeginText in H0 as [-> _]. eauto.
Qed.

Lemma exec_anchored_complete (r : re) (s : string) (st' : mstate) :
  reach r (start_state s) st' -> is_Some (exec (Cat BeginText r) s).
Proof.
  intros H. rewrite exec_anchored.
  apply (run_complete _ _ (close_group 0 0 st')); [|eauto].
  apply (reach_cap 0 _ (start_state s)). eapply reach_cat; [|exact H].
  now apply reach_begin_text.
Qed.

(** *** Templates *)

Lemma fits_length (template s : string) :
  fits template s = true -> String.length s = String.length template.
Proof.
  revert s. induction template as [|t template IH]; intros [|c s] H; try discriminate.
  - reflexivity.
  - cbn [fits] in H. apply andb_true_iff in H as [_ H]. cbn. now rewrite (IH s H).
Qed.

Lemma fits_app (t1 t2 s1 s2 : string) :
  String.length t1 = String.length s1 ->
  fits (t1 +:+ t2) (s1 +:+ s2) = (fits t1 s1 && fits t2 s2)%bool.
Proof.
  revert s1. induction t1 as [|t t1 IH]; intros [|c s1] Hlen; try discriminate.
  - reflexivity.
  - rewrite !append_cons. cbn [fits]. injection Hlen as Hlen. now rewrite (IH s1 Hlen), andb_assoc.
Qed.

Lemma fits_split (t1 t2 s : string) :
  fits (t1 +:+ t2) s = true ->
  exists s1 s2, s = s1 +:+ s2 /\ fits t1 s1 = true /\ fits t2 s2 = true.
Proof.
  revert s. induction t1 as [|t t1 IH]; intros s H.
  - exists "", s. auto.
  - rewrite append_cons in H. destruct s as [|c s]; [discriminate|]. cbn [fits] in H.
    apply andb_true_iff in H as [Hc H]. destruct (IH s H) as (s1 & s2 & -> & H1 & H2).
    exists (String c s1), s2. rewrite append_cons. cbn [fits]. rewrite Hc, H1. auto.
Qed.

Lemma fits_digits (n : nat) (s : string) :
  fits (repeat_byte n "d") s = true <-> String.length s = n /\ all_bytes GoStr.is_digit s = true.
Proof.
  revert s. induction n as [|n IH]; intros [|c s]; cbn [repeat_byte fits String.length all_bytes];
    try (split; [discriminate | intros [? ?]; discriminate]).
  - split; auto.
  - change (Ascii.eqb "d" "d") with true. cbn match. rewrite andb_true_iff, IH.
    split; [intros (? & ? & ?) | intros ([= ?] & (? & ?)%andb_true_iff)];
      repeat split; auto; try lia. now apply andb_true_iff.
Qed.

Lemma fits_byte (c : ascii) (s : string) :
  Ascii.eqb c "d" = false -> fits (String c "") s = true <-> s = String c "".
Proof.
  intros Hc. destruct s as [|a [|b s]]; cbn [fits]; rewrite ?Hc.
  - split; discriminate.
  - rewrite andb_true_r. split; [intros ->%Ascii.eqb_eq | intros [= ->]]; [reflexivity|].
    apply Ascii.eqb_refl.
  - rewrite andb_false_r. split; discriminate.
Qed.

Lemma length_repeat_byte_d (n : nat) : String.length (repeat_byte n "d") = n.
Proof. apply length_repeat_byte. Qed.

Lemma reach_piece (p : piece) (st st' : mstate) :
  is_literal p = true ->
  reach (piece_re p) st st' ->
  exists txt, fits (piece_template p) txt = true /\ passes st txt st'.
Proof.
  intros Hlit H. destruct p as [n|c]; cbn [piece_re piece_template] in *.
  - apply reach_rep_Class in H as (txt & Hl & Hall & Hp). exists txt. split; [|exact Hp].
    now apply fits_digits.
  - apply reach_Lit in H. exists (String c ""). split; [|exact H].
    apply fits_byte; [|reflexivity]. now apply negb_true_iff.
Qed.

(** A sequence of digit runs and literal bytes reads exactly the texts
    that fit its template. *)
Lemma reach_pieces (ps : list piece) (st st' : mstate) :
  forallb is_literal ps = true ->
  reach (cats (map piece_re ps)) st st' ->
  exists txt, fits (pieces_template ps) txt = true /\ passes st txt st'.
Proof.
  revert st. induction ps as [|p ps IH]; intros st Hlit H.
  - apply reach_Empty in H as ->. exists "". split; [reflexivity | apply passes_refl].
  - cbn [forallb] in Hlit. apply andb_true_iff in Hlit as [Hp Hlit].
    destruct ps as [|p' ps].
    + cbn [map cats] in H. apply (reach_piece p _ _ Hp) in H as (txt & Hf & Hpass).
      exists txt. cbn [pieces_template foldr]. now rewrite append_nil_r.
    + change (cats (map piece_re (p :: p' :: ps)))
        with (Cat (piece_re p) (cats (map piece_re (p' :: ps)))) in H.
      apply reach_Cat in H as (mid & H1 & H2).
      apply (reach_piece p _ _ Hp) in H1 as (t1 & Hf1 & Hp1).
      apply (IH mid Hlit) in H2 as (t2 & Hf2 & Hp2).
      exists (t1 +:+ t2). split; [|apply (passes_trans _ _ _ _ _ Hp1 Hp2)].
      change (pieces_template (p :: p' :: ps))
        with (piece_template p +:+ pieces_template (p' :: ps)).
      rewrite fits_app by (symmetry; now apply fits_length). now rewrite Hf1, Hf2.
Qed.

Lemma piece_reach (p : piece) (txt : string) (st : mstate) (rest : string) :
  ms_rest st = txt +:+ rest -> is_literal p = true -> fits (piece_template p) txt = true ->
  exists st', reach (piece_re p) st st' /\ ms_rest st' = rest.
Proof.
  intros E Hlit Hf. destruct p as [n|c]; cbn [piece_re piece_template] in *.
  - apply fits_digits in Hf as [<- Hall]. now apply rep_Class_reach.
  - apply fits_byte in Hf as ->; [|now apply negb_true_iff]. now apply Lit_reach.
Qed.

Lemma pieces_reach (ps : list piece) (txt : string) (st : mstate) (rest : string) :
  ms_rest st = txt +:+ rest -> forallb is_literal ps = true ->
  fits (pieces_template ps) txt = true ->
  exists st', reach (cats (map piece_re ps)) st st' /\ ms_rest st' = rest.
Proof.
  revert txt st. induction ps as [|p ps IH]; intros txt st E Hlit Hf.
  - destruct txt; [|discriminate]. exists st. split; [apply reach_empty | exact E].
  - cbn [forallb] in Hlit. apply andb_true_iff in Hlit as [Hp Hlit].
    change (pieces_template (p :: ps)) with (piece_template p +:+ pieces_template ps) in Hf.
    apply fits_split in Hf as (t1 & t2 & -> & Hf1 & Hf2). rewrite append_assoc in E.
    destruct ps as [|p' ps].
    + destruct t2; [|discriminate]. change ("" +:+ rest) with rest in E.
      now apply (piece_reach p t1).
    + change (cats (map piece_re (p :: p' :: ps)))
        with (Cat (piece_re p) (cats (map piece_re (p' :: ps)))).
      apply (Cat_reach _ _ _ (t2 +:+ rest)); [now apply (piece_reach p t1)|].
      intros mid Em. now apply (IH t2).
Qed.

Lemma reach_group (n : nat) (r : re) (st st' : mstate) (P : string -> Prop) :
  (forall mid, reach r st mid -> exists txt, P txt /\ passes st txt mid) ->
  reach (Cap n r) st st' -> exists txt, P txt /\ groups st n txt st'.
Proof.
  intros Hr H. apply reach_Cap in H as (mid & H & ->).
  destruct (Hr mid H) as (txt & HP & E & Pm & C). exists txt. split; [exact HP|].
  unfold groups, close_group. cbn [ms_rest ms_pos ms_caps]. rewrite Pm, C. auto.
Qed.

(** *** Substrings *)

Lemma take_append (a b : string) : GoStr.take (String.length a) (a +:+ b) = a.
Proof. induction a as [|c a IH]; [now destruct b|]. rewrite append_cons. cbn. now rewrite IH. Qed.

Lemma drop_append (a b : string) : GoStr.drop (String.length a) (a +:+ b) = b.
Proof. induction a as [|c a IH]; [now destruct b|]. rewrite append_cons. cbn. exact IH. Qed.

(** The piece of a text between two offsets, when the text is cut there. *)
Lemma slice_middle (a t b : string) (lo hi : nat) :
  lo = String.length a -> hi = (lo + String.length t)%nat ->
  GoStr.slice lo hi (a +:+ t +:+ b) = t.
Proof.
  intros -> ->. unfold GoStr.slice. rewrite drop_append.
  replace (String.length a + String.length t - String.length a)%nat with (String.length t) by lia.
  apply take_append.
Qed.

Lemma passes_groups_rest (st st' : mstate) (n : nat) (txt : string) :
  groups st n txt st' -> ms_rest st = txt +:+ ms_rest st'.
Proof. now intros (E & _). Qed.

(** A match of the file-name pattern cuts the name into prefix, date and
    id. *)
Lemma api_name_match (base : string) (m : mstate) :
  exec apiLogFilePattern base = Some m ->
  exists pre stamp id,
    base = pre +:+ "-" +:+ stamp +:+ "-" +:+ id +:+ ".log"
    /\ pre <> "" /\ all_bytes not_nl pre = true
    /\ fits api_stamp stamp = true
    /\ String.length id = 8 /\ all_bytes hex_lower id = true
    /\ cap_text base (ms_caps m) 3 = id.
Proof.
  intros H. unfold apiLogFilePattern in H. cbn [cats] in H.
  apply exec_anchored_sound in H as (st8 & H & ->).
  apply reach_Cat in H as (st1 & H1 & H).
  apply reach_Cat in H as (st2 & H2 & H).
  apply reach_Cat in H as (st3 & H3 & H).
  apply reach_Cat in H as (st4 & H4 & H).
  apply reach_Cat in H as (st5 & H5 & H).
  apply reach_Cat in H as (st6 & H6 & H7).
  apply (reach_group 1 _ _ _ (fun txt => txt <> "" /\ all_bytes not_nl txt = true)) in H1
    as (pre & (Hpre & Hnl) & E1 & P1 & C1).
  2:{ intros mid Hm. apply reach_plus_Class in Hm as (txt & ? & ? & ?). eauto. }
  apply reach_Lit in H2 as (E2 & P2 & C2).
  apply (reach_group 2 _ _ _ (fun txt => fits api_stamp txt = true)) in H3
    as (stamp & Hstamp & E3 & P3 & C3).
  2:{ intros mid Hm. now apply (reach_pieces api_stamp_pieces) in Hm. }
  apply reach_Lit in H4 as (E4 & P4 & C4).
  apply (reach_group 3 _ _ _ (fun txt => String.length txt = 8
                                         /\ all_bytes hex_lower txt = true)) in H5
    as (id & (Hlen & Hhex) & E5 & P5 & C5).
  2:{ intros mid Hm. apply reach_rep_Class in Hm as (txt & ? & ? & ?). eauto. }
  apply reach_lits in H6 as (E6 & P6 & C6).
  apply reach_EndText in H7 as [-> E7].
  cbn [start_state ms_rest ms_pos ms_caps] in *.
  assert (Hbase : base = pre +:+ "-" +:+ stamp +:+ "-" +:+ id +:+ ".log").
  { rewrite E1, E2, E3, E4, E5, E6, E7. now rewrite append_nil_r. }
  exists pre, stamp, id. repeat (split; [assumption|]).
  unfold cap_text, close_group. cbn [ms_caps cap_span Nat.eqb].
  rewrite C6, C5. cbn [cap_span Nat.eqb].
  rewrite Hbase.
  replace (pre +:+ "-" +:+ stamp +:+ "-" +:+ id +:+ ".log")
    with ((pre +:+ "-" +:+ stamp +:+ "-") +:+ id +:+ ".log")
    by (now rewrite !append_assoc).
  apply slice_middle; [|reflexivity].
  rewrite P4, P3, P2, P1, !length_append. cbn [String.length]. lia.
Qed.

(** A name of that shape matches. *)
Lemma api_name_matches (pre stamp id : string) :
  pre <> "" -> all_bytes not_nl pre = true -> fits api_stamp stamp = true ->
  String.length id = 8 -> all_bytes hex_lower id = true ->
  is_Some (exec apiLogFilePattern (pre +:+ "-" +:+ stamp +:+ "-" +:+ id +:+ ".log")).
Proof.
  intros Hpre Hnl Hstamp Hlen Hhex. unfold apiLogFilePattern. cbn [cats].
  set (base := pre +:+ "-" +:+ stamp +:+ "-" +:+ id +:+ ".log").
  assert (H : exists st', reach
              (Cat (Cap 1 (plus any))
                 (Cat (Lit "-")
                    (Cat (Cap 2 (cats [rep 4 digit; Lit "-"; rep 2 digit; Lit "-"; rep 2 digit;
                                       Lit "T"; rep 6 digit]))
                       (Cat (Lit "-")
                          (Cat (Cap 3 (rep 8 (Class hex_lower)))
                             (Cat (lits ".log") EndText))))))
              (start_state base) st' /\ ms_rest st' = "").
  { apply (Cat_reach _ _ _ ("-" +:+ stamp +:+ "-" +:+ id +:+ ".log")).
    { apply Cap_reach. now apply (plus_Class_reach true _ pre). }
    intros st1 E1. apply (Cat_reach _ _ _ (stamp +:+ "-" +:+ id +:+ ".log")).
    { now apply Lit_reach. }
    intros st2 E2. apply (Cat_reach _ _ _ ("-" +:+ id +:+ ".log")).
    { apply Cap_reach. now apply (pieces_reach api_stamp_pieces stamp). }
    intros st3 E3. apply (Cat_reach _ _ _ (id +:+ ".log")).
    { now apply Lit_reach. }
    intros st4 E4. apply (Cat_reach _ _ _ ".log").
    { apply Cap_reach. rewrite <- Hlen. now apply rep_Class_reach. }
    intros st5 E5. apply (Cat_reach _ _ _ "").
    { apply lits_reach. now rewrite E5. }
    intros st6 E6. now apply EndText_reach. }
  destruct H as (st' & H & _). now apply (exec_anchored_complete _ _ st').
Qed.

Lemma append_inj_length_r (a a' b b' : string) :
  String.length b = String.length b' -> a +:+ b = a' +:+ b' -> a = a' /\ b = b'.
Proof.
  intros Hlen H. apply append_inj_length; [|exact H].
  apply (f_equal String.length) in H. rewrite !length_append in H. lia.
Qed.

Lemma ExtractRequestIDFromFilename_exec (filename : string) :
  ExtractRequestIDFromFilename filename
  = match exec apiLogFilePattern (Filepath.Base filename) with
    | Some m => cap_text (Filepath.Base filename) (ms_caps m) 3
    | None => ""
    end.
Proof.
  unfold ExtractRequestIDFromFilename, FindStringSubmatch.
  destruct (exec apiLogFilePattern (Filepath.Base filename)); reflexivity.
Qed.

(** X8. [ExtractRequestIDFromFilename] returns the eight lower-case
    hexadecimal digits that stand before [.log] at the end of the base
    name, when the name is a non-empty prefix, a dash, a date and time of
    the form [dddd-dd-ddTdddddd], a dash, those eight digits and [.log];
    it returns the empty string for every other name. *)
Theorem ExtractRequestIDFromFilename_spec (filename : string) :
  (forall pre stamp id,
      Filepath.Base filename = pre +:+ "-" +:+ stamp +:+ "-" +:+ id +:+ ".log" ->
      pre <> "" -> all_bytes not_nl pre = true -> fits api_stamp stamp = true ->
      String.length id = 8 -> all_bytes hex_lower id = true ->
      ExtractRequestIDFromFilename filename = id)
  /\ (ExtractRequestIDFromFilename filename <> "" ->
      exists pre stamp,
        Filepath.Base filename
        = pre +:+ "-" +:+ stamp +:+ "-" +:+ ExtractRequestIDFromFilename filename +:+ ".log"
        /\ pre <> "" /\ all_bytes not_nl pre = true /\ fits api_stamp stamp = true
        /\ String.length (ExtractRequestIDFromFilename filename) = 8
        /\ all_bytes hex_lower (ExtractRequestIDFromFilename filename) = true).
Proof.
  rewrite ExtractRequestIDFromFilename_exec. split.
  - intros pre stamp id Hbase Hpre Hnl Hstamp Hlen Hhex. rewrite Hbase.
    destruct (api_name_matches pre stamp id Hpre Hnl Hstamp Hlen Hhex) as [m Hm].
    rewrite Hm. apply api_name_match in Hm
      as (pre' & stamp' & id' & Hb & _ & _ & Hstamp' & Hlen' & _ & ->).
    apply fits_length in Hstamp, Hstamp'.
    assert (H : (pre +:+ "-" +:+ stamp +:+ "-") +:+ id +:+ ".log"
                = (pre' +:+ "-" +:+ stamp' +:+ "-") +:+ id' +:+ ".log")
      by (now rewrite !append_assoc).
    apply append_inj_length_r in H as [_ H]; [|rewrite !length_append; cbn; lia].
    apply append_inj_length in H as [H _]; [now symmetry | lia].
  - destruct (exec apiLogFilePattern (Filepath.Base filename)) as [m|] eqn:Hm;
      [|now intros []].
    intros _. apply api_name_match in Hm
      as (pre & stamp & id & Hb & Hpre & Hnl & Hstamp & Hlen & Hhex & ->).
    exists pre, stamp. auto 10.
Qed.

Lemma ExtractRequestIDFromFilename_spec_witness :
  ExtractRequestIDFromFilename messages_path = "6dcb09d0".
Proof.
  apply (proj1 (ExtractRequestIDFromFilename_spec messages_path)
               "api-provider-agy-v1-messages" "2026-01-08T103603" "6dcb09d0");
    first [reflexivity | discriminate].
Defined.

Lemma slice_between (line a t b : string) (lo hi : nat) :
  line = a +:+ t +:+ b -> lo = String.length a -> hi = (lo + String.length t)%nat ->
  GoStr.slice lo hi line = t.
Proof. intros ->. apply slice_middle. Qed.

(** A match of the line pattern cuts the line into its fields. *)
Lemma main_line_match (line : string) (m : mstate) :
  exec mainLogPattern line = Some m ->
  exists ts rid lvl pad src msg,
    line = main_line ts rid lvl pad src msg
    /\ main_fields ts rid lvl pad src msg
    /\ cap_text line (ms_caps m) 1 = ts
    /\ cap_text line (ms_caps m) 2 = rid
    /\ cap_text line (ms_caps m) 3 = lvl
    /\ cap_text line (ms_caps m) 4 = src
    /\ cap_text line (ms_caps m) 5 = msg.
Proof.
  intros H. unfold mainLogPattern in H. cbn [cats] in H.
  apply exec_anchored_sound in H as (st13 & H & ->).
  apply reach_Cat in H as (st1 & H1 & H).
  apply reach_Cat in H as (st2 & H2 & H).
  apply reach_Cat in H as (st3 & H3 & H).
  apply reach_Cat in H as (st4 & H4 & H).
  apply reach_Cat in H as (st5 & H5 & H).
  apply reach_Cat in H as (st6 & H6 & H).
  apply reach_Cat in H as (st7 & H7 & H).
  apply reach_Cat in H as (st8 & H8 & H).
  apply reach_Cat in H as (st9 & H9 & H).
  apply reach_Cat in H as (st10 & H10 & H).
  apply reach_Cat in H as (st11 & H11 & H12).
  apply reach_Lit in H1 as (E1 & P1 & C1).
  apply (reach_group 1 _ _ _ (fun txt => fits line_stamp txt = true)) in H2
    as (ts & Hts & E2 & P2 & C2).
  2:{ intros mid Hm. now apply (reach_pieces line_stamp_pieces) in Hm. }
  apply reach_lits in H3 as (E3 & P3 & C3).
  apply (reach_group 2 _ _ _ (fun txt => txt <> "" /\ all_bytes not_bracket txt = true)) in H4
    as (rid & (Hrid & Hrid') & E4 & P4 & C4).
  2:{ intros mid Hm. apply reach_plus_Class in Hm as (txt & ? & ? & ?). eauto. }
  apply reach_lits in H5 as (E5 & P5 & C5).
  apply (reach_group 3 _ _ _ (fun txt => txt <> "" /\ all_bytes is_word txt = true)) in H6
    as (lvl & (Hlvl & Hlvl') & E6 & P6 & C6).
  2:{ intros mid Hm. apply reach_plus_Class in Hm as (txt & ? & ? & ?). eauto. }
  apply reach_Star_Class in H7 as (pad & Hpad & E7 & P7 & C7).
  apply reach_lits in H8 as (E8 & P8 & C8).
  apply (reach_group 4 _ _ _ (fun txt => txt <> "" /\ all_bytes not_bracket txt = true)) in H9
    as (src & (Hsrc & Hsrc') & E9 & P9 & C9).
  2:{ intros mid Hm. apply reach_plus_Class in Hm as (txt & ? & ? & ?). eauto. }
  apply reach_lits in H10 as (E10 & P10 & C10).
  apply (reach_group 5 _ _ _ (fun txt => all_bytes not_nl txt = true)) in H11
    as (msg & Hmsg & E11 & P11 & C11).
  2:{ intros mid Hm. now apply reach_Star_Class in Hm. }
  apply reach_EndText in H12 as [-> E12].
  cbn [start_state ms_rest ms_pos ms_caps] in *.
  assert (Hline : line = main_line ts rid lvl pad src msg).
  { unfold main_line. rewrite E1, E2, E3, E4, E5, E6, E7, E8, E9, E10, E11, E12.
    now rewrite ?append_assoc, ?append_nil_r. }
  exists ts, rid, lvl, pad, src, msg. split; [exact Hline|].
  split; [unfold main_fields; auto 12|].
  unfold cap_text, close_group. cbn [ms_caps cap_span Nat.eqb].
  rewrite C11, C10, C9, C8, C7, C6, C5, C4, C3, C2. cbn [cap_span Nat.eqb].
  rewrite P1 in *. cbn [String.length] in *.
  unfold main_line in Hline.
  repeat split.
  - apply (slice_between line "[" ts
             ("] [" +:+ rid +:+ "] [" +:+ lvl +:+ pad +:+ "] [" +:+ src +:+ "] " +:+ msg));
      [exact Hline | reflexivity | reflexivity].
  - apply (slice_between line ("[" +:+ ts +:+ "] [") rid
             ("] [" +:+ lvl +:+ pad +:+ "] [" +:+ src +:+ "] " +:+ msg));
      [now rewrite Hline, ?append_assoc | | reflexivity].
    rewrite P3, P2, !length_append. cbn [String.length]. lia.
  - apply (slice_between line ("[" +:+ ts +:+ "] [" +:+ rid +:+ "] [") lvl
             (pad +:+ "] [" +:+ src +:+ "] " +:+ msg));
      [now rewrite Hline, ?append_assoc | | reflexivity].
    rewrite P5, P4, P3, P2, !length_append. cbn [String.length]. lia.
  - apply (slice_between line
             ("[" +:+ ts +:+ "] [" +:+ rid +:+ "] [" +:+ lvl +:+ pad +:+ "] [") src
             ("] " +:+ msg));
      [now rewrite Hline, ?append_assoc | | reflexivity].
    rewrite P8, P7, P6, P5, P4, P3, P2, !length_append. cbn [String.length]. lia.
  - apply (slice_between line
             ("[" +:+ ts +:+ "] [" +:+ rid +:+ "] [" +:+ lvl +:+ pad +:+ "] [" +:+ src +:+ "] ")
             msg "");
      [now rewrite Hline, ?append_assoc, ?append_nil_r | | reflexivity].
    rewrite P10, P9, P8, P7, P6, P5, P4, P3, P2, !length_append. cbn [String.length]. lia.
Qed.

(** *** Reversal and trimming *)

Lemma rev_app_append (s1 s2 : string) : String.rev_app s1 s2 = String.rev s1 +:+ s2.
Proof.
  revert s2. induction s1 as [|a s1 IH]; intros s2; [reflexivity|].
  unfold String.rev. cbn [String.rev_app]. rewrite (IH (String a s2)), (IH (String a "")).
  now rewrite append_assoc.
Qed.

Lemma rev_cons (a : ascii) (s : string) : String.rev (String a s) = String.rev s +:+ String a "".
Proof. unfold String.rev at 1. cbn [String.rev_app]. apply rev_app_append. Qed.

Lemma rev_append (s t : string) : String.rev (s +:+ t) = String.rev t +:+ String.rev s.
Proof.
  induction s as [|a s IH]; [now rewrite append_nil_r|].
  now rewrite append_cons, !rev_cons, IH, append_assoc.
Qed.

Lemma rev_involutive (s : string) : String.rev (String.rev s) = s.
Proof.
  induction s as [|a s IH]; [reflexivity|]. now rewrite rev_cons, rev_append, IH.
Qed.

Lemma all_bytes_rev (p : ascii -> bool) (s : string) :
  all_bytes p (String.rev s) = all_bytes p s.
Proof.
  induction s as [|a s IH]; [reflexivity|].
  rewrite rev_cons, all_bytes_app, IH. cbn [all_bytes]. now rewrite andb_true_r, andb_comm.
Qed.

Lemma length_rev (s : string) : String.length (String.rev s) = String.length s.
Proof.
  induction s as [|a s IH]; [reflexivity|]. rewrite rev_cons, length_append, IH. cbn. lia.
Qed.

Lemma TrimLeft_fuel_none (fuel : nat) (encs : list (list nat)) (s : string) :
  GoStr.strip_space encs s = None -> GoStr.TrimLeft_fuel fuel encs s = s.
Proof. intros H. destruct fuel; [reflexivity|]. cbn [GoStr.TrimLeft_fuel]. now rewrite H. Qed.

(** A text with no white space at either end is left as it is. *)
Lemma TrimSpace_none (s : string) :
  GoStr.strip_space GoStr.space_encodings s = None ->
  GoStr.strip_space (List.map (@List.rev nat) GoStr.space_encodings) (String.rev s) = None ->
  GoStr.TrimSpace s = s.
Proof.
  intros Hl Hr. unfold GoStr.TrimSpace, GoStr.TrimLeftSpace, GoStr.TrimRightSpace.
  rewrite (TrimLeft_fuel_none _ _ _ Hl), (TrimLeft_fuel_none _ _ _ Hr).
  apply rev_involutive.
Qed.

(** A property of bytes that holds of each of the 256 bytes. *)
Lemma for_all_bytes (P : ascii -> bool) :
  forallb (fun n => P (Ascii.ascii_of_nat n)) (seq 0 256) = true -> forall c, P c = true.
Proof.
  intros H c. rewrite <- (Ascii.ascii_nat_embedding c).
  rewrite forallb_forall in H. apply H, in_seq.
  pose proof (Ascii.nat_ascii_bounded c). lia.
Qed.

Lemma strip_space_head (encs : list (list nat)) (c : ascii) (s : string) :
  forallb (fun e => match e with
                    | [] => false
                    | b :: _ => negb (Nat.eqb (GoStr.code c) b)
                    end) encs = true ->
  GoStr.strip_space encs (String c s) = None.
Proof.
  induction encs as [|e encs IH]; [reflexivity|]. cbn [forallb]. intros H.
  apply andb_true_iff in H as [He H]. cbn [GoStr.strip_space].
  destruct e as [|b bs]; [discriminate|]. cbn [GoStr.strip_bytes].
  apply negb_true_iff in He. rewrite He. now apply IH.
Qed.

(** No white-space rune begins or ends with a byte that [\w] takes. *)
Lemma word_byte_no_space_edge (c : ascii) :
  implb (is_word c)
    (forallb (fun e => match e with
                       | [] => false
                       | b :: _ => negb (Nat.eqb (GoStr.code c) b)
                       end)
             (GoStr.space_encodings ++ List.map (@List.rev nat) GoStr.space_encodings)) = true.
Proof. revert c. apply for_all_bytes. vm_compute. reflexivity. Qed.

Lemma word_starts_no_space (c : ascii) (s : string) :
  is_word c = true ->
  GoStr.strip_space GoStr.space_encodings (String c s) = None
  /\ GoStr.strip_space (List.map (@List.rev nat) GoStr.space_encodings) (String c s) = None.
Proof.
  intros H. pose proof (word_byte_no_space_edge c) as He. rewrite H in He. cbn [implb] in He.
  rewrite forallb_app in He. apply andb_true_iff in He as [H1 H2].
  split; now apply strip_space_head.
Qed.

Lemma TrimSpace_word (s : string) : all_bytes is_word s = true -> GoStr.TrimSpace s = s.
Proof.
  intros H. apply TrimSpace_none.
  - destruct s as [|c s]; [reflexivity|]. cbn [all_bytes] in H.
    apply andb_true_iff in H as [Hc _]. exact (proj1 (word_starts_no_space c s Hc)).
  - rewrite <- all_bytes_rev in H. destruct (String.rev s) as [|c t]; [reflexivity|].
    cbn [all_bytes] in H. apply andb_true_iff in H as [Hc _].
    exact (proj2 (word_starts_no_space c t Hc)).
Qed.

(** *** The fields of a line *)

Lemma space_not_word (c : ascii) : is_space c = true -> is_word c = false.
Proof.
  intros H. pose proof (for_all_bytes (fun c => implb (is_space c) (negb (is_word c)))
                          ltac:(vm_compute; reflexivity) c) as He.
  cbv beta in He. rewrite H in He. now apply negb_true_iff.
Qed.

(** A well-formed line is cut into its fields in one way only. *)
Lemma main_line_unique (ts rid lvl pad src msg ts' rid' lvl' pad' src' msg' : string) :
  main_fields ts rid lvl pad src msg -> main_fields ts' rid' lvl' pad' src' msg' ->
  main_line ts rid lvl pad src msg = main_line ts' rid' lvl' pad' src' msg' ->
  ts = ts' /\ rid = rid' /\ lvl = lvl' /\ pad = pad' /\ src = src' /\ msg = msg'.
Proof.
  intros (Hts & _ & Hrid & _ & Hlvl & Hpad & _ & Hsrc & _)
         (Hts' & _ & Hrid' & _ & Hlvl' & Hpad' & _ & Hsrc' & _) H.
  unfold main_line in H. rewrite !(append_cons "[") in H.
  change ("" +:+ ?x) with x in H. injection H as H.
  apply fits_length in Hts, Hts'.
  apply append_inj_length in H as [-> H]; [|congruence].
  apply (append_cancel_l "] [") in H.
  apply (class_prefix_unique not_bracket) in H as [-> H]; auto.
  apply (append_cancel_l "] [") in H.
  apply (class_prefix_unique is_word) in H as [-> H]; auto.
  2:{ destruct pad as [|c pad]; [left; reflexivity|]. left. cbn [all_bytes] in Hpad.
      apply andb_true_iff in Hpad as [Hc _]. rewrite append_cons. cbn.
      now rewrite (space_not_word c Hc). }
  2:{ destruct pad' as [|c pad']; [left; reflexivity|]. left. cbn [all_bytes] in Hpad'.
      apply andb_true_iff in Hpad' as [Hc _]. rewrite append_cons. cbn.
      now rewrite (space_not_word c Hc). }
  apply (class_prefix_unique is_space) in H as [-> H]; auto.
  apply (append_cancel_l "] [") in H.
  apply (class_prefix_unique not_bracket) in H as [-> H]; auto.
  apply (append_cancel_l "] ") in H. auto 6.
Qed.

(** A well-formed line matches the pattern. *)
Lemma main_line_matches (ts rid lvl pad src msg : string) :
  main_fields ts rid lvl pad src msg ->
  is_Some (exec mainLogPattern (main_line ts rid lvl pad src msg)).
Proof.
  intros (Hts & Hrid & Hrid' & Hlvl & Hlvl' & Hpad & Hsrc & Hsrc' & Hmsg).
  unfold mainLogPattern. cbn [cats].
  set (line := main_line ts rid lvl pad src msg).
  match goal with
  | |- is_Some (exec (Cat BeginText ?r) line) =>
      assert (H : exists st', reach r (start_state line) st' /\ ms_rest st' = "")
  end.
  { apply (Cat_reach _ _ _ (ts +:+ "] [" +:+ rid +:+ "] [" +:+ lvl +:+ pad +:+ "] [" +:+ src
                               +:+ "] " +:+ msg)).
    { now apply Lit_reach. }
    intros st1 E1. apply (Cat_reach _ _ _ ("] [" +:+ rid +:+ "] [" +:+ lvl +:+ pad +:+ "] ["
                                             +:+ src +:+ "] " +:+ msg)).
    { apply Cap_reach. now apply (pieces_reach line_stamp_pieces ts). }
    intros st2 E2. apply (Cat_reach _ _ _ (rid +:+ "] [" +:+ lvl +:+ pad +:+ "] [" +:+ src
                                             +:+ "] " +:+ msg)).
    { now apply lits_reach. }
    intros st3 E3. apply (Cat_reach _ _ _ ("] [" +:+ lvl +:+ pad +:+ "] [" +:+ src
                                             +:+ "] " +:+ msg)).
    { apply Cap_reach. now apply (plus_Class_reach true _ rid). }
    intros st4 E4. apply (Cat_reach _ _ _ (lvl +:+ pad +:+ "] [" +:+ src +:+ "] " +:+ msg)).
    { now apply lits_reach. }
    intros st5 E5. apply (Cat_reach _ _ _ (pad +:+ "] [" +:+ src +:+ "] " +:+ msg)).
    { apply Cap_reach. now apply (plus_Class_reach true _ lvl). }
    intros st6 E6. apply (Cat_reach _ _ _ ("] [" +:+ src +:+ "] " +:+ msg)).
    { now apply (Star_Class_reach true _ pad). }
    intros st7 E7. apply (Cat_reach _ _ _ (src +:+ "] " +:+ msg)).
    { now apply lits_reach. }
    intros st8 E8. apply (Cat_reach _ _ _ ("] " +:+ msg)).
    { apply Cap_reach. now apply (plus_Class_reach true _ src). }
    intros st9 E9. apply (Cat_reach _ _ _ msg).
    { now apply lits_reach. }
    intros st10 E10. apply (Cat_reach _ _ _ "").
    { apply Cap_reach. apply (Star_Class_reach true _ msg); [|exact Hmsg].
      now rewrite append_nil_r. }
    intros st11 E11. now apply EndText_reach. }
  destruct H as (st' & H & _). now apply (exec_anchored_complete _ _ st').
Qed.

Lemma parseMainLogLine_exec (line : string) :
  parseMainLogLine line
  = match exec mainLogPattern line with
    | None => (MainLogEntry_zero, false)
    | Some m =>
        let cap := cap_text line (ms_caps m) in
        let entry :=
          mkMainLogEntry (TimeParseLocal "2006-01-02 15:04:05" (cap 1)) (cap 2)
                         (GoStr.TrimSpace (cap 3)) (cap 4) (cap 5) 0 "" "" "" "" in
        let httpMatches := FindStringSubmatch httpLogPattern (cap 5) in
        if Nat.leb 6 (length httpMatches) then
          (mkMainLogEntry (m_Timestamp entry) (m_RequestID entry) (m_Level entry)
                          (m_Source entry) (m_Message entry)
                          (GoStr.Atoi (at_ httpMatches 1))
                          (GoStr.TrimSpace (at_ httpMatches 2))
                          (GoStr.TrimSpace (at_ httpMatches 3))
                          (GoStr.TrimSpace (at_ httpMatches 4))
                          (at_ httpMatches 5),
           true)
        else (entry, true)
    end.
Proof.
  assert (Hm : FindStringSubmatch mainLogPattern line
               = match exec mainLogPattern line with
                 | None => []
                 | Some m => List.map (cap_text line (ms_caps m)) (seq 0 6)
                 end)
    by (unfold FindStringSubmatch; destruct (exec mainLogPattern line); reflexivity).
  unfold parseMainLogLine. rewrite Hm.
  destruct (exec mainLogPattern line); reflexivity.
Qed.

(** X9. [parseMainLogLine] accepts exactly the lines of the form
    [[ts] [id] [level pad] [source] message], where [ts] is a date and time
    [dddd-dd-dd dd:dd:dd], [id] and [source] are non-empty and hold no
    closing bracket, [level] is a non-empty word, [pad] is white space and
    the message holds no line feed.  For such a line the entry carries
    these fields as they stand: the timestamp parsed from [ts] in local
    time, the id, the level without its padding, the source and the
    message. *)
Theorem parseMainLogLine_spec (line : string) :
  (forall ts rid lvl pad src msg,
      line = main_line ts rid lvl pad src msg -> main_fields ts rid lvl pad src msg ->
      exists entry,
        parseMainLogLine line = (entry, true)
        /\ m_Timestamp entry = TimeParseLocal "2006-01-02 15:04:05" ts
        /\ m_RequestID entry = rid
        /\ m_Level entry = lvl
        /\ m_Source entry = src
        /\ m_Message entry = msg)
  /\ (forall entry,
        parseMainLogLine line = (entry, true) ->
        exists ts rid lvl pad src msg,
          line = main_line ts rid lvl pad src msg /\ main_fields ts rid lvl pad src msg).
Proof.
  rewrite parseMainLogLine_exec. split.
  - intros ts rid lvl pad src msg -> Hf.
    destruct (main_line_matches ts rid lvl pad src msg Hf) as [m Hm]. rewrite Hm.
    cbv zeta. cbn [m_Timestamp m_RequestID m_Level m_Source m_Message].
    apply main_line_match in Hm
      as (ts' & rid' & lvl' & pad' & src' & msg' & Hline & Hf' & -> & -> & -> & -> & ->).
    destruct (main_line_unique _ _ _ _ _ _ _ _ _ _ _ _ Hf Hf' Hline)
      as (<- & <- & <- & <- & <- & <-).
    assert (Hlvl : GoStr.TrimSpace lvl = lvl)
      by (apply TrimSpace_word; now destruct Hf as (_ & _ & _ & _ & ? & _)).
    destruct (Nat.leb 6 _); eexists; (split; [reflexivity|]);
      cbn [m_Timestamp m_RequestID m_Level m_Source m_Message]; rewrite Hlvl; auto.
  - intros entry H.
    destruct (exec mainLogPattern line) as [m|] eqn:Hm; [|discriminate].
    apply main_line_match in Hm as (ts & rid & lvl & pad & src & msg & Hline & Hf & _).
    eauto 8.
Qed.

Lemma parseMainLogLine_spec_witness :
  exists entry,
    parseMainLogLine health_line = (entry, true)
    /\ m_RequestID entry = "a3523f75"
    /\ m_Level entry = "info"
    /\ m_Source entry = "main.go:413"
    /\ m_Message entry = health_message.
Proof.
  destruct (proj1 (parseMainLogLine_spec health_line)
              "2026-01-08 09:29:48" "a3523f75" "info" " " "main.go:413" health_message)
    as (entry & Hrun & _ & Hid & Hlvl & Hsrc & Hmsg).
  - reflexivity.
  - unfold main_fields. repeat split; first [reflexivity | discriminate].
  - exists entry. auto.
Defined.

Lemma foldl_commute {B : Type} (g : APILogEntry -> APILogEntry)
    (step : APILogEntry -> B -> APILogEntry) (l : list B) :
  (forall e x, g (step e x) = step (g e) x) ->
  forall e, g (foldl step e l) = foldl step (g e) l.
Proof.
  intros H. induction l as [|x l IH]; intros e; [reflexivity|].
  cbn [foldl]. now rewrite IH, H.
Qed.

(** [parseRequestInfo] touches the version, the URL, the method and the
    timestamp only: it commutes with whatever commutes with their setters. *)
Lemma parseRequestInfo_commute (body : string) (g : APILogEntry -> APILogEntry) :
  (forall v, commute g (set_Version v)) -> (forall v, commute g (set_URL v)) ->
  (forall v, commute g (set_Method v)) -> (forall v, commute g (set_Timestamp v)) ->
  commute g (parseRequestInfo body).
Proof.
  intros H1 H2 H3 H4 e. unfold parseRequestInfo. apply foldl_commute.
  intros e' line. cbv zeta.
  repeat match goal with |- context [if ?b then _ else _] => destruct b end;
    first [apply H1 | apply H2 | apply H3 | apply H4 | reflexivity].
Qed.

(** The loop of [parseResponse] under a [g] that leaves the response
    fields alone. *)
Lemma parseResponse_commute (body : string) (g : APILogEntry -> APILogEntry) :
  (forall v, commute g (set_ResponseStatus v)) ->
  (forall v, commute g (set_ResponseHeaders v)) ->
  (forall v, commute g (set_ResponseBody v)) ->
  (forall e, a_ResponseHeaders (g e) = a_ResponseHeaders e) ->
  commute g (parseResponse body).
Proof.
  intros H1 H2 H3 Hh e. unfold parseResponse.
  set (step := fun (st : APILogEntry * bool * list string) (line0 : string) => _).
  assert (Hloop : forall l e0 d bl,
             foldl step (g e0, d, bl) l
             = (let '(e1, d1, bl1) := foldl step (e0, d, bl) l in (g e1, d1, bl1))).
  { induction l as [|line l IH]; intros e0 d bl; [reflexivity|].
    cbn [foldl]. unfold step at 2 4. cbv zeta.
    destruct (String.eqb (GoStr.TrimSpace line) ""); [apply IH|].
    destruct (negb d); [|apply IH].
    destruct (GoStr.HasPrefix (GoStr.TrimSpace line) "Status:").
    - rewrite <- H1. apply IH.
    - rewrite Hh, <- H2. apply IH. }
  rewrite Hloop. destruct (foldl step (e, false, []) (GoStr.SplitLines body)) as [[e1 d1] bl1].
  apply H3.
Qed.

Lemma set_Headers_frame (h : gmap string string) :
  (forall v, commute (set_Headers h) (set_Version v))
  /\ (forall v, commute (set_Headers h) (set_URL v))
  /\ (forall v, commute (set_Headers h) (set_Method v))
  /\ (forall v, commute (set_Headers h) (set_Timestamp v))
  /\ (forall v, commute (set_Headers h) (set_RequestBody v))
  /\ (forall v, commute (set_Headers h) (set_ResponseStatus v))
  /\ (forall v, commute (set_Headers h) (set_ResponseHeaders v))
  /\ (forall v, commute (set_Headers h) (set_ResponseBody v)).
Proof. repeat split; intros v e; reflexivity. Qed.

Lemma set_RequestBody_frame (b : string) :
  (forall v, commute (set_RequestBody b) (set_Version v))
  /\ (forall v, commute (set_RequestBody b) (set_URL v))
  /\ (forall v, commute (set_RequestBody b) (set_Method v))
  /\ (forall v, commute (set_RequestBody b) (set_Timestamp v))
  /\ (forall v, commute (set_RequestBody b) (set_ResponseStatus v))
  /\ (forall v, commute (set_RequestBody b) (set_ResponseHeaders v))
  /\ (forall v, commute (set_RequestBody b) (set_ResponseBody v)).
Proof. repeat split; intros v e; reflexivity. Qed.

Lemma parseRequestInfo_headers (body : string) (e : APILogEntry) :
  a_ResponseHeaders (parseRequestInfo body e) = a_ResponseHeaders e.
Proof.
  unfold parseRequestInfo.
  apply (foldl_preserves (fun e' => a_ResponseHeaders e' = a_ResponseHeaders e)); [|reflexivity].
  intros e' line He'. cbv zeta.
  repeat match goal with |- context [if ?b then _ else _] => destruct b end; exact He'.
Qed.

Lemma commute_sym (f g : APILogEntry -> APILogEntry) : commute f g -> commute g f.
Proof. intros H e. symmetry. apply H. Qed.

(** For each setter [s] outside the response fields, [parseResponse]
    commutes with [s]. *)
Lemma parseResponse_frame (body : string) :
  (forall v, commute (parseResponse body) (set_Version v))
  /\ (forall v, commute (parseResponse body) (set_URL v))
  /\ (forall v, commute (parseResponse body) (set_Method v))
  /\ (forall v, commute (parseResponse body) (set_Timestamp v))
  /\ (forall v, commute (parseResponse body) (set_Headers v))
  /\ (forall v, commute (parseResponse body) (set_RequestBody v)).
Proof.
  repeat split; intros v; apply commute_sym, parseResponse_commute;
    solve [intros ? ?; reflexivity | intros ?; reflexivity].
Qed.

(** What a section that is not about an upstream call does to the entry. *)
Lemma apply_section_plain (name body : string) :
  is_upstream_section (name, body) = false ->
  (name = "REQUEST INFO" /\ forall e, apply_section e (name, body) = parseRequestInfo body e)
  \/ (name = "HEADERS"
      /\ forall e, apply_section e (name, body) = set_Headers (parseHeaders body) e)
  \/ (name = "REQUEST BODY"
      /\ forall e, apply_section e (name, body) = set_RequestBody (GoStr.TrimSpace body) e)
  \/ (name = "RESPONSE" /\ forall e, apply_section e (name, body) = parseResponse body e)
  \/ (forall e, apply_section e (name, body) = e).
Proof.
  unfold is_upstream_section. cbn [fst]. intros H. apply orb_false_iff in H as [Hq Hr].
  unfold apply_section.
  destruct (String.eqb_spec name "REQUEST INFO") as [->|_]; [left; auto|].
  destruct (String.eqb_spec name "HEADERS") as [->|_]; [right; left; auto|].
  destruct (String.eqb_spec name "REQUEST BODY") as [->|_]; [right; right; left; auto|].
  destruct (String.eqb_spec name "RESPONSE") as [->|_]; [right; right; right; left; auto|].
  rewrite Hq, Hr. right; right; right; right. auto.
Qed.

(** Two sections of different names, neither about an upstream call, can
    be applied in either order. *)
Lemma apply_section_commute (s1 s2 : string * string) :
  s1.1 <> s2.1 -> is_upstream_section s1 = false -> is_upstream_section s2 = false ->
  forall e, apply_section (apply_section e s1) s2 = apply_section (apply_section e s2) s1.
Proof.
  destruct s1 as [n1 b1], s2 as [n2 b2]. cbn [fst]. intros Hne H1 H2 e.
  destruct (set_Headers_frame (parseHeaders b1)) as (A1 & A2 & A3 & A4 & A5 & A6 & A7 & A8).
  destruct (set_Headers_frame (parseHeaders b2)) as (B1 & B2 & B3 & B4 & B5 & B6 & B7 & B8).
  destruct (set_RequestBody_frame (GoStr.TrimSpace b1)) as (C1 & C2 & C3 & C4 & C5 & C6 & C7).
  destruct (set_RequestBody_frame (GoStr.TrimSpace b2)) as (D1 & D2 & D3 & D4 & D5 & D6 & D7).
  destruct (parseResponse_frame b1) as (E1 & E2 & E3 & E4 & E5 & E6).
  destruct (parseResponse_frame b2) as (F1 & F2 & F3 & F4 & F5 & F6).
  destruct (apply_section_plain n1 b1 H1)
    as [[-> P1] | [[-> P1] | [[-> P1] | [[-> P1] | P1]]]];
    destruct (apply_section_plain n2 b2 H2)
      as [[-> P2] | [[-> P2] | [[-> P2] | [[-> P2] | P2]]]];
    try (now destruct Hne); rewrite ?P1, ?P2;
    first
      [ reflexivity
      | apply parseRequestInfo_commute; assumption
      | symmetry; apply parseRequestInfo_commute; assumption
      | apply parseResponse_commute; first [assumption | intros ?; reflexivity]
      | symmetry; apply parseResponse_commute; first [assumption | intros ?; reflexivity] ].
Qed.

(** Sections of different names, none about an upstream call, give the
    same entry in whatever order they are applied. *)
Lemma foldl_apply_section_perm (l1 l2 : list (string * string)) :
  l1 ≡ₚ l2 -> NoDup (l1.*1) -> Forall (fun s => is_upstream_section s = false) l1 ->
  forall e, foldl apply_section e l1 = foldl apply_section e l2.
Proof.
  induction 1 as [ | x l l' Hp IH | x y l | l l' l'' Hp1 IH1 Hp2 IH2 ]; intros Hnd Hpl e.
  - reflexivity.
  - cbn [foldl]. apply IH.
    + cbn [fmap list_fmap] in Hnd. now apply NoDup_cons in Hnd as [_ ?].
    + now apply Forall_cons in Hpl as [_ ?].
  - cbn [foldl]. f_equal.
    apply Forall_cons in Hpl as [Hy Hpl]. apply Forall_cons in Hpl as [Hx _].
    apply apply_section_commute; [|exact Hy|exact Hx].
    cbn [fmap list_fmap] in Hnd. apply NoDup_cons in Hnd as [Hnd _].
    intros Heq. apply Hnd. rewrite Heq. apply elem_of_cons. now left.
  - rewrite (IH1 Hnd Hpl). apply IH2.
    + now rewrite <- Hp1.
    + now rewrite <- Hp1.
Qed.

(** X10. A transaction file without [API REQUEST] and [API RESPONSE]
    sections is parsed to the same entry in whatever order [range] hands
    out the sections of the map. *)
Theorem ParseAPILog_order_free (content filepath : string) (logType : LogType)
    (visit1 visit2 : list (string * string)) :
  range_order (splitSections content) visit1 ->
  range_order (splitSections content) visit2 ->
  forallb (fun s => negb (is_upstream_section s)) visit1 = true ->
  ParseAPILog_visit visit1 filepath logType = ParseAPILog_visit visit2 filepath logType.
Proof.
  unfold range_order. intros H1 H2 Hplain. unfold ParseAPILog_visit.
  assert (Hfold : foldl apply_section (new_entry filepath logType) visit1
                  = foldl apply_section (new_entry filepath logType) visit2).
  { apply foldl_apply_section_perm.
    - now rewrite H1, H2.
    - rewrite H1. apply NoDup_fst_map_to_list.
    - apply Forall_forall. intros s Hs. rewrite forallb_forall in Hplain.
      apply negb_true_iff, Hplain. now apply list_elem_of_In. }
  now rewrite Hfold.
Qed.

Lemma ParseAPILog_order_free_witness :
  ParseAPILog_visit (map_to_list (splitSections transaction_text)) messages_path
                    LogTypeProviderMessages
  = ParseAPILog_visit (reverse (map_to_list (splitSections transaction_text))) messages_path
                      LogTypeProviderMessages.
Proof.
  apply (ParseAPILog_order_free transaction_text).
  - unfold range_order. reflexivity.
  - unfold range_order. apply reverse_Permutation.
  - vm_compute. reflexivity.
Defined.
